(** * ortelius, package avm: the index reader

    A shallow embedding of the read/query layer: the entity list readers,
    the transaction and address dressing passes, the aggregation histogram
    builder and the search resolver, followed by the properties the
    specification states about them.

    Conventions of the embedding.
    - [big.Int] values are [Z]; [SetString(s, 10)] and [String()] are the
      functions of [BigInt] below.
    - [time.Time] is the number of nanoseconds since the Unix epoch and
      [time.Duration] a number of nanoseconds, both in [Z].
    - [float64] values are IEEE 754 binary64 numbers ([spec_float] with a
      53-bit mantissa), every operation rounding to nearest, ties to even.
    - Go's [int] and [int64] values (lengths, limits, bucket indices, Unix
      seconds) are in [Z]; [uint64] counters are taken modulo [2^64].
    - Go maps are [gmap]s and sets [gset]s.  Go leaves the iteration order
      of a map unspecified; the model iterates in the order of
      [map_to_list] / [elements], and the theorems below do not depend on
      that order.
    - A pointer into the slice of loaded rows is the index of the row; an
      object a call receives by pointer is threaded through the call.
    - The storage engine is an oracle ([Connections]) answering the
      statements the reader builds; every statement run and every call of
      the histogram's [padTo] closure is recorded in a trace. *)

From Stdlib Require Import ZArith String Ascii List Bool Lia.
From Stdlib Require Import DecimalString DecimalPos SpecFloat.
From stdpp Require Import gmap strings list fin_maps.

Open Scope Z_scope.

(** ** math/big: decimal parsing and printing of arbitrary-precision integers *)

Module BigInt.

(** The digits of [SetString(s, 10)]: one or more characters ['0'..'9'];
    no separator, no prefix. *)
Definition digits (s : string) : option Z :=
  match s with
  | EmptyString => None
  | _ => Z.of_uint <$> NilEmpty.uint_of_string s
  end.

(** [new(big.Int).SetString(s, 10)]: an optional sign followed by digits;
    the whole string has to be consumed.  [None] is [ok == false]. *)
Definition SetString (s : string) : option Z :=
  match s with
  | String "+" r => digits r
  | String "-" r => Z.opp <$> digits r
  | _ => digits s
  end.

(** [x.String()]: the decimal representation, ["-"] in front of negative
    numbers. *)
Definition String (x : Z) : string :=
  NilZero.string_of_int (Z.to_int x).

End BigInt.

(** ** float64 *)

Module float64.

Definition prec : Z := 53.
Definition emax : Z := 1024.

Definition t := spec_float.

(** [float64(z)] for an integer [z]. *)
Definition ofInt (z : Z) : t := binary_normalize prec emax z 0 false.

Definition add (x y : t) : t := SFadd prec emax x y.
Definition div (x y : t) : t := SFdiv prec emax x y.

(** The integer [m] of a finite number [m * 2^e], with its sign. *)
Definition mantissa (s : bool) (m : positive) : Z :=
  if s then Z.neg m else Z.pos m.

(** [int64(x)]: the conversion of a finite number truncates toward zero.
    (The reader converts finite numbers within the range of [int64]
    only.) *)
Definition toInt (x : t) : Z :=
  match x with
  | S754_finite s m e =>
    if 0 <=? e then mantissa s m * 2 ^ e
    else Z.quot (mantissa s m) (2 ^ (- e))
  | _ => 0
  end.

(** [int(math.Ceil(x))] for a finite number: the least integer not below
    it. *)
Definition ceilToInt (x : t) : Z :=
  match x with
  | S754_finite s m e =>
    if 0 <=? e then mantissa s m * 2 ^ e
    else - ((- mantissa s m) / 2 ^ (- e))
  | _ => 0
  end.

End float64.

(** ** time: instants and durations *)

Module time.

(** Nanoseconds since the Unix epoch. *)
Definition Time := Z.
(** Nanoseconds. *)
Definition Duration := Z.

Definition Second : Duration := 1000000000.
Definition maxDuration : Duration := 2 ^ 63 - 1.
Definition minDuration : Duration := - 2 ^ 63.

(** [time.Time{}], January 1, year 1, 00:00:00 UTC. *)
Definition zero : Time := -62135596800 * Second.

Definition IsZero (t : Time) : bool := t =? zero.

(** [t.Unix()]: whole seconds since the epoch. *)
Definition Unix (t : Time) : Z := t / Second.

(** [time.Unix(sec, 0).UTC()]. *)
Definition FromUnix (sec : Z) : Time := sec * Second.

(** [t.Sub(u)]: the difference, saturating at the largest and smallest
    duration. *)
Definition Sub (t u : Time) : Duration :=
  Z.max minDuration (Z.min maxDuration (t - u)).

(** [d.Seconds()]:
    [sec := d / Second; nsec := d % Second;
     return float64(sec) + float64(nsec)/1e9]. *)
Definition Seconds (d : Duration) : float64.t :=
  float64.add (float64.ofInt (Z.quot d Second))
    (float64.div (float64.ofInt (Z.rem d Second)) (float64.ofInt 1000000000)).

(** [int64(d.Seconds())] *)
Definition wholeSeconds (d : Duration) : Z := float64.toInt (Seconds d).

(** [int(math.Ceil(d.Seconds() / e.Seconds()))] *)
Definition ceilRatio (d e : Duration) : Z :=
  float64.ceilToInt (float64.div (Seconds d) (Seconds e)).

End time.

(** ** models

    The record types of the [models] package, with the fields the reader
    and the storage schema name. *)

Abbreviation StringID := string (only parsing).
Abbreviation Address := string (only parsing).
Abbreviation TokenAmount := string (only parsing).
Abbreviation bytes := (list Byte.byte) (only parsing).

(** Arithmetic of [uint64] counters. *)
Definition uint64 (z : Z) : Z := z mod 2 ^ 64.

Module Output.
Record t := {
  ID : StringID;
  TransactionID : StringID;
  OutputIndex : Z;
  AssetID : StringID;
  OutputType : Z;
  Amount : TokenAmount;
  Locktime : Z;
  Threshold : Z;
  CreatedAt : time.Time;
  RedeemingTransactionID : StringID;
  GroupID : Z;
  Payload : bytes;
  Addresses : list Address
}.

Definition zero : t :=
  {| ID := ""; TransactionID := ""; OutputIndex := 0; AssetID := "";
     OutputType := 0; Amount := ""; Locktime := 0; Threshold := 0;
     CreatedAt := time.zero; RedeemingTransactionID := ""; GroupID := 0;
     Payload := []; Addresses := [] |}.

Definition setAddresses (o : t) (a : list Address) : t :=
  {| ID := ID o; TransactionID := TransactionID o;
     OutputIndex := OutputIndex o; AssetID := AssetID o;
     OutputType := OutputType o; Amount := Amount o;
     Locktime := Locktime o; Threshold := Threshold o;
     CreatedAt := CreatedAt o;
     RedeemingTransactionID := RedeemingTransactionID o;
     GroupID := GroupID o; Payload := Payload o; Addresses := a |}.
End Output.

Module OutputAddress.
Record t := {
  OutputID : StringID;
  Address : Address;
  Signature : bytes;
  PublicKey : bytes;
  CreatedAt : time.Time
}.

Definition zero : t :=
  {| OutputID := ""; Address := ""; Signature := []; PublicKey := [];
     CreatedAt := time.zero |}.
End OutputAddress.

Module InputCredentials.
Record t := {
  Address : Address;
  PublicKey : bytes;
  Signature : bytes
}.
End InputCredentials.

Module Input.
(** [Output] is [*models.Output] in the source; a dressed transaction
    holds the value the pointer refers to once dressing is over. *)
Record t := {
  Output : Output.t;
  Creds : list InputCredentials.t
}.
End Input.

Module Transaction.
Record t := {
  ID : StringID;
  ChainID : StringID;
  Type_ : string;
  Memo : bytes;
  CreatedAt : time.Time;
  Inputs : list Input.t;
  Outputs : list Output.t;
  InputTotals : gmap string string;
  OutputTotals : gmap string string
}.

Definition dressed (tx : t) (ins : list Input.t) (outs : list Output.t)
    (itot otot : gmap string string) : t :=
  {| ID := ID tx; ChainID := ChainID tx; Type_ := Type_ tx; Memo := Memo tx;
     CreatedAt := CreatedAt tx; Inputs := ins; Outputs := outs;
     InputTotals := itot; OutputTotals := otot |}.
End Transaction.

Module Asset.
Record t := {
  ID : StringID;
  ChainID : StringID;
  Name : string;
  Symbol : string;
  Alias : string;
  Denomination : Z;
  CurrentSupply : TokenAmount;
  CreatedAt : time.Time
}.
End Asset.

Module AssetInfo.
Record t := {
  AssetID : StringID;
  TransactionCount : Z;
  UTXOCount : Z;
  Balance : TokenAmount;
  TotalReceived : TokenAmount;
  TotalSent : TokenAmount
}.
End AssetInfo.

Module AddressInfo.
Record t := {
  Address : Address;
  PublicKey : bytes;
  Assets : gmap string AssetInfo.t
}.

Definition setAssets (a : t) (m : gmap string AssetInfo.t) : t :=
  {| Address := Address a; PublicKey := PublicKey a; Assets := m |}.
End AddressInfo.

Module Aggregates.
Record t := {
  Idx : Z;
  StartTime : time.Time;
  EndTime : time.Time;
  TransactionVolume : TokenAmount;
  TransactionCount : Z;
  AddressCount : Z;
  OutputCount : Z;
  AssetCount : Z
}.

(** [models.Aggregates{}] *)
Definition zero : t :=
  {| Idx := 0; StartTime := time.zero; EndTime := time.zero;
     TransactionVolume := ""; TransactionCount := 0; AddressCount := 0;
     OutputCount := 0; AssetCount := 0 |}.

Definition setTimes (a : t) (s e : time.Time) : t :=
  {| Idx := Idx a; StartTime := s; EndTime := e;
     TransactionVolume := TransactionVolume a;
     TransactionCount := TransactionCount a;
     AddressCount := AddressCount a; OutputCount := OutputCount a;
     AssetCount := AssetCount a |}.
End Aggregates.

Module AggregatesHistogram.
Record t := {
  Aggregates : Aggregates.t;
  IntervalSize : time.Duration;
  Intervals : list Aggregates.t
}.

Definition zero : t :=
  {| Aggregates := Aggregates.zero; IntervalSize := 0; Intervals := [] |}.
End AggregatesHistogram.

Module AssetList.
Record t := { Count : Z; Assets : list Asset.t }.
End AssetList.

Module AddressList.
Record t := { Count : Z; Addresses : list AddressInfo.t }.
End AddressList.

Module TransactionList.
Record t := { Count : Z; Transactions : list Transaction.t }.
End TransactionList.

Module OutputList.
Record t := { Count : Z; Outputs : list Output.t }.
End OutputList.

(** [models.SearchResult]: the result type tag together with its data. *)
Inductive SearchResult :=
| ResultTypeAsset (data : Asset.t)
| ResultTypeAddress (data : AddressInfo.t)
| ResultTypeTransaction (data : Transaction.t)
| ResultTypeOutput (data : Output.t).

Module SearchResults.
Record t := { Count : Z; Results : list SearchResult }.
Definition zero : t := {| Count := 0; Results := [] |}.
End SearchResults.

(** ** params

    The parameter objects of the [params] package, with the fields the
    reader touches.  [ListParams] is the struct embedded in every list
    parameter object. *)

Abbreviation TransactionSort := Z (only parsing).

Module ListParams.
Record t := { Limit : Z; Offset : Z; DisableCounting : bool }.
(** [params.ListParams{}] *)
Definition zero : t :=
  {| Limit := 0; Offset := 0; DisableCounting := false |}.
Definition withDisableCounting (l : t) (b : bool) : t :=
  {| Limit := Limit l; Offset := Offset l; DisableCounting := b |}.
End ListParams.

Module ListTransactionsParams.
Record t := {
  ListParams : ListParams.t;
  ID : option string;
  Query : string;
  Sort : TransactionSort
}.
Definition setListParams (p : t) (l : ListParams.t) : t :=
  {| ListParams := l; ID := ID p; Query := Query p; Sort := Sort p |}.
End ListTransactionsParams.

Module ListAssetsParams.
Record t := {
  ListParams : ListParams.t;
  ID : option string;
  Query : string;
  Alias : string
}.
Definition setListParams (p : t) (l : ListParams.t) : t :=
  {| ListParams := l; ID := ID p; Query := Query p; Alias := Alias p |}.
End ListAssetsParams.

Module ListAddressesParams.
Record t := {
  ListParams : ListParams.t;
  Address : option string;
  Query : string
}.
Definition setListParams (p : t) (l : ListParams.t) : t :=
  {| ListParams := l; Address := Address p; Query := Query p |}.
End ListAddressesParams.

Module ListOutputsParams.
Record t := {
  ListParams : ListParams.t;
  ID : option string
}.
Definition setListParams (p : t) (l : ListParams.t) : t :=
  {| ListParams := l; ID := ID p |}.
End ListOutputsParams.

Module SearchParams.
Record t := {
  ListParams : ListParams.t;
  Query : string
}.
End SearchParams.

Module AggregateParams.
Record t := {
  ChainIDs : list string;
  StartTime : time.Time;
  EndTime : time.Time;
  IntervalSize : time.Duration
}.
Definition setStartTime (p : t) (s : time.Time) : t :=
  {| ChainIDs := ChainIDs p; StartTime := s; EndTime := EndTime p;
     IntervalSize := IntervalSize p |}.
End AggregateParams.

(** ** dbr: select statements

    The reader builds a statement with the builder calls below, lets the
    parameter object add its clauses ([p.Apply(builder)]) and runs it.
    [Apply] belongs to the query-parameter collaborator: the statement
    records the parameter object it was applied with, as it was at that
    moment, and the storage answers the statement as a whole. *)

Inductive AppliedParams :=
| NotApplied
| AppliedAggregate (p : AggregateParams.t)
| AppliedTransactions (p : ListTransactionsParams.t)
| AppliedAssets (p : ListAssetsParams.t)
| AppliedAddresses (p : ListAddressesParams.t)
| AppliedOutputs (p : ListOutputsParams.t).

Inductive Direction := asc | desc.

Module dbr.
Record SelectStmt := {
  Session : string;
  Column : list string;
  Table : string;
  IsDistinct : bool;
  JoinTable : list (string * string);
  WhereCond : list (string * list string);
  Group : list string;
  Order : list (string * Direction);
  LimitCount : option Z;
  Applied : AppliedParams
}.

(** [db.NewSession(name).Select(columns...)] *)
Definition Select (session : string) (columns : list string) : SelectStmt :=
  {| Session := session; Column := columns; Table := ""; IsDistinct := false;
     JoinTable := []; WhereCond := []; Group := []; Order := [];
     LimitCount := None; Applied := NotApplied |}.

Definition From (b : SelectStmt) (table : string) : SelectStmt :=
  {| Session := Session b; Column := Column b; Table := table;
     IsDistinct := IsDistinct b; JoinTable := JoinTable b;
     WhereCond := WhereCond b; Group := Group b; Order := Order b;
     LimitCount := LimitCount b; Applied := Applied b |}.

Definition LeftJoin (b : SelectStmt) (table on : string) : SelectStmt :=
  {| Session := Session b; Column := Column b; Table := Table b;
     IsDistinct := IsDistinct b; JoinTable := JoinTable b ++ [(table, on)];
     WhereCond := WhereCond b; Group := Group b; Order := Order b;
     LimitCount := LimitCount b; Applied := Applied b |}.

Definition Where (b : SelectStmt) (query : string) (value : list string)
    : SelectStmt :=
  {| Session := Session b; Column := Column b; Table := Table b;
     IsDistinct := IsDistinct b; JoinTable := JoinTable b;
     WhereCond := WhereCond b ++ [(query, value)]; Group := Group b;
     Order := Order b; LimitCount := LimitCount b; Applied := Applied b |}.

Definition GroupBy (b : SelectStmt) (col : string) : SelectStmt :=
  {| Session := Session b; Column := Column b; Table := Table b;
     IsDistinct := IsDistinct b; JoinTable := JoinTable b;
     WhereCond := WhereCond b; Group := Group b ++ [col]; Order := Order b;
     LimitCount := LimitCount b; Applied := Applied b |}.

Definition OrderDir (b : SelectStmt) (col : string) (d : Direction)
    : SelectStmt :=
  {| Session := Session b; Column := Column b; Table := Table b;
     IsDistinct := IsDistinct b; JoinTable := JoinTable b;
     WhereCond := WhereCond b; Group := Group b;
     Order := Order b ++ [(col, d)];
     LimitCount := LimitCount b; Applied := Applied b |}.

(** [OrderAsc] and [OrderDesc] append to the statement's ORDER BY list:
    the column added first is the leading sort key. *)
Definition OrderAsc (b : SelectStmt) (col : string) := OrderDir b col asc.
Definition OrderDesc (b : SelectStmt) (col : string) := OrderDir b col desc.

Definition Limit (b : SelectStmt) (n : Z) : SelectStmt :=
  {| Session := Session b; Column := Column b; Table := Table b;
     IsDistinct := IsDistinct b; JoinTable := JoinTable b;
     WhereCond := WhereCond b; Group := Group b; Order := Order b;
     LimitCount := Some n; Applied := Applied b |}.

Definition Distinct (b : SelectStmt) : SelectStmt :=
  {| Session := Session b; Column := Column b; Table := Table b;
     IsDistinct := true; JoinTable := JoinTable b;
     WhereCond := WhereCond b; Group := Group b; Order := Order b;
     LimitCount := LimitCount b; Applied := Applied b |}.

(** [p.Apply(b)] *)
Definition Apply (p : AppliedParams) (b : SelectStmt) : SelectStmt :=
  {| Session := Session b; Column := Column b; Table := Table b;
     IsDistinct := IsDistinct b; JoinTable := JoinTable b;
     WhereCond := WhereCond b; Group := Group b; Order := Order b;
     LimitCount := LimitCount b; Applied := p |}.
End dbr.

(** ** Errors, results, and the reader's effects *)

(** The errors of the package, [errors.New("invalid amount")] of
    [dressTransactions], and the errors the storage returns. *)
Inductive error :=
| ErrAggregateIntervalCountTooLarge
| ErrFailedToParseStringAsBigInt
| ErrSearchQueryTooShort
| ErrInvalidAmount
| ErrStorage (msg : string).

Inductive result (A : Type) :=
| Ok (a : A)
| Err (e : error).
Arguments Ok {A} a.
Arguments Err {A} e.

(** The rows of [selectOutputs]: an output together with one of its
    addresses. *)
Module compositeRecord.
Record t := {
  Output : Output.t;
  OutputAddress : OutputAddress.t
}.
Definition zero : t :=
  {| Output := Output.zero; OutputAddress := OutputAddress.zero |}.
Definition setAddresses (r : t) (a : list Address) : t :=
  {| Output := Output.setAddresses (Output r) a;
     OutputAddress := OutputAddress r |}.
End compositeRecord.

#[global] Instance compositeRecord_inhabited : Inhabited compositeRecord.t :=
  populate compositeRecord.zero.

(** The storage engine: what [LoadContext] / [LoadOneContext] put into the
    destination for a statement, or the error they return. *)
Record Connections := {
  LoadOne : dbr.SelectStmt -> result Z;
  LoadAggregates : dbr.SelectStmt -> result (list Aggregates.t);
  LoadTransactions : dbr.SelectStmt -> result (list Transaction.t);
  LoadAssets : dbr.SelectStmt -> result (list Asset.t);
  LoadAddresses : dbr.SelectStmt -> result (list AddressInfo.t);
  LoadOutputs : dbr.SelectStmt -> result (list Output.t);
  LoadOutputAddresses : dbr.SelectStmt -> result (list OutputAddress.t);
  LoadCompositeRecords : dbr.SelectStmt -> result (list compositeRecord.t);
  LoadAddressAssets : dbr.SelectStmt -> result (list (string * AssetInfo.t))
}.

(** What a call leaves in the trace: a statement run against the storage,
    or a call of [padTo] with the length of the slice and the target. *)
Inductive Event :=
| Run (stmt : dbr.SelectStmt)
| PadTo (len to : Z).

(** A call works on the parameter object its caller handed over by pointer
    ([obj]) and appends to the trace. *)
Record St (P : Type) := { obj : P; trace : list Event }.
Arguments obj {P} s.
Arguments trace {P} s.

(** A call returns a value or an error; either way the object and the
    trace are as the call left them. *)
Definition M (P A : Type) : Type := St P -> result A * St P.

Definition ret {P A} (a : A) : M P A := fun s => (Ok a, s).
Definition fail {P A} (e : error) : M P A := fun s => (Err e, s).
Definition bind {P A B} (m : M P A) (k : A -> M P B) : M P B :=
  fun s => match m s with
           | (Ok a, s') => k a s'
           | (Err e, s') => (Err e, s')
           end.
Definition getObj {P} : M P P := fun s => (Ok (obj s), s).
Definition setObj {P} (p : P) : M P unit :=
  fun s => (Ok tt, {| obj := p; trace := trace s |}).
Definition emit {P} (e : Event) : M P unit :=
  fun s => (Ok tt, {| obj := obj s; trace := trace s ++ [e] |}).
(** Run a statement against the storage. *)
Definition load {P A} (ld : dbr.SelectStmt -> result A) (stmt : dbr.SelectStmt)
    : M P A :=
  fun s => (ld stmt, {| obj := obj s; trace := trace s ++ [Run stmt] |}).
(** Call [m] on a parameter object of its own, [&T{...}]. *)
Definition call {P Q A} (q : Q) (m : M Q A) : M P A :=
  fun s => let (r, s') := m {| obj := q; trace := trace s |} in
           (r, {| obj := obj s; trace := trace s' |}).

Declare Scope reader_scope.
Delimit Scope reader_scope with reader.
Notation "x <- m ;; k" := (bind m (fun x => k))
  (at level 100, m at next level, right associativity) : reader_scope.
Notation "m ;;; k" := (bind m (fun _ => k))
  (at level 100, right associativity) : reader_scope.

Open Scope reader_scope.

(** ** Transaction dressing *)

(** [models.Input] while the rows are being dressed: [Output] points into
    the slice of loaded rows. *)
Module InputCell.
Record t := { Output : nat; Creds : list InputCredentials.t }.
Definition appendCred (c : t) (cred : InputCredentials.t) : t :=
  {| Output := Output c; Creds := Creds c ++ [cred] |}.
End InputCell.

(** The five maps [dressTransactions] builds in its first pass. *)
Record dressMaps := {
  outputAddrs : gmap string (gset string);
  inputsMap : gmap string (gmap string InputCell.t);
  outputsMap : gmap string (gmap string nat);
  inputTotalsMap : gmap string (gmap string Z);
  outputTotalsMap : gmap string (gmap string Z)
}.

Definition emptyMaps : dressMaps :=
  {| outputAddrs := ∅; inputsMap := ∅; outputsMap := ∅;
     inputTotalsMap := ∅; outputTotalsMap := ∅ |}.

(** [if _, ok := m[k]; !ok { m[k] = empty }] *)
Definition ensure {V} `{Empty V} (k : string) (m : gmap string V)
    : gmap string V :=
  match m !! k with
  | Some _ => m
  | None => <[k := ∅]> m
  end.

Definition addToBigIntMap (m : gmap string Z) (assetID : StringID) (amt : Z)
    : gmap string Z :=
  let prevAmt := default 0 (m !! assetID) in
  <[assetID := amt + prevAmt]> m.

(** The body of the first loop, for the row at index [i]. *)
Definition collectRow (st : dressMaps) (i : nat) (output : compositeRecord.t)
    : result dressMaps :=
  let out := compositeRecord.Output output in
  match BigInt.SetString (Output.Amount out) with
  | None => Err ErrInvalidAmount
  | Some bigAmt =>
    let inputsMap1 := ensure (Output.RedeemingTransactionID out) (inputsMap st) in
    let inputTotalsMap1 :=
      ensure (Output.RedeemingTransactionID out) (inputTotalsMap st) in
    let outputsMap1 := ensure (Output.TransactionID out) (outputsMap st) in
    let outputTotalsMap1 :=
      ensure (Output.TransactionID out) (outputTotalsMap st) in
    let outputAddrs1 := ensure (Output.ID out) (outputAddrs st) in
    Ok {| outputAddrs :=
            alter (fun s => {[ OutputAddress.Address
                                 (compositeRecord.OutputAddress output) ]} ∪ s)
                  (Output.ID out) outputAddrs1;
          outputsMap :=
            alter (fun m => <[Output.ID out := i]> m)
                  (Output.TransactionID out) outputsMap1;
          inputsMap :=
            alter (fun m => <[Output.ID out :=
                               {| InputCell.Output := i;
                                  InputCell.Creds := [] |}]> m)
                  (Output.RedeemingTransactionID out) inputsMap1;
          outputTotalsMap :=
            alter (fun m => addToBigIntMap m (Output.AssetID out) bigAmt)
                  (Output.TransactionID out) outputTotalsMap1;
          inputTotalsMap :=
            alter (fun m => addToBigIntMap m (Output.AssetID out) bigAmt)
                  (Output.RedeemingTransactionID out) inputTotalsMap1 |}
  end.

(** The first loop over the rows from index [i] on. *)
Fixpoint collect (i : nat) (outputs : list compositeRecord.t) (st : dressMaps)
    : result dressMaps :=
  match outputs with
  | [] => Ok st
  | output :: rest =>
    match collectRow st i output with
    | Ok st' => collect (S i) rest st'
    | Err e => Err e
    end
  end.

(** The body of the second loop, for the row at index [i]: the row gets
    the addresses collected for its output and, when it carries a
    signature, the first input of its redeeming transaction that refers to
    the row's output gets a credential. *)
Definition attachRow (addrs : gmap string (gset string))
    (st : list compositeRecord.t * gmap string (gmap string InputCell.t))
    (i : nat) : list compositeRecord.t * gmap string (gmap string InputCell.t) :=
  let '(rows, inputs) := st in
  let out := rows !!! i in
  let o := compositeRecord.Output out in
  let a := compositeRecord.OutputAddress out in
  let rows' :=
    <[i := compositeRecord.setAddresses out
             (elements (default ∅ (addrs !! Output.ID o)))]> rows in
  if (length (OutputAddress.Signature a) =? 0)%nat then (rows', inputs)
  else
    let candidates := default ∅ (inputs !! Output.RedeemingTransactionID o) in
    match list_find
            (fun kv => Output.ID (compositeRecord.Output
                                    (rows' !!! InputCell.Output kv.2))
                       = OutputAddress.OutputID a)
            (map_to_list candidates) with
    | Some (_, (k, input)) =>
      (rows',
       <[Output.RedeemingTransactionID o :=
           <[k := InputCell.appendCred input
                    {| InputCredentials.Address := OutputAddress.Address a;
                       InputCredentials.PublicKey := OutputAddress.PublicKey a;
                       InputCredentials.Signature := OutputAddress.Signature a |}]>
             candidates]> inputs)
    | None => (rows', inputs)
    end.

Definition attach (addrs : gmap string (gset string))
    (rows : list compositeRecord.t)
    (inputs : gmap string (gmap string InputCell.t))
    : list compositeRecord.t * gmap string (gmap string InputCell.t) :=
  fold_left (attachRow addrs) (seq 0 (length rows)) (rows, inputs).

Definition derefOutput (rows : list compositeRecord.t) (ptr : nat) : Output.t :=
  compositeRecord.Output (rows !!! ptr).

Definition derefInput (rows : list compositeRecord.t) (c : InputCell.t)
    : Input.t :=
  {| Input.Output := derefOutput rows (InputCell.Output c);
     Input.Creds := InputCell.Creds c |}.

(** The body of the last loop: what transaction [tx] is given. *)
Definition dressOne (rows : list compositeRecord.t)
    (inputs : gmap string (gmap string InputCell.t)) (st : dressMaps)
    (tx : Transaction.t) : Transaction.t :=
  let ins :=
    match inputs !! Transaction.ID tx with
    | Some m => Transaction.Inputs tx ++ (derefInput rows <$> (map_to_list m).*2)
    | None => Transaction.Inputs tx
    end in
  let outs :=
    match outputsMap st !! Transaction.ID tx with
    | Some m => Transaction.Outputs tx ++ (derefOutput rows <$> (map_to_list m).*2)
    | None => Transaction.Outputs tx
    end in
  Transaction.dressed tx ins outs
    (BigInt.String <$> default ∅ (inputTotalsMap st !! Transaction.ID tx))
    (BigInt.String <$> default ∅ (outputTotalsMap st !! Transaction.ID tx)).

(** The three passes over the merged rows. *)
Definition dressRows (outputs : list compositeRecord.t)
    (txs : list Transaction.t) : result (list Transaction.t) :=
  match collect 0 outputs emptyMaps with
  | Err e => Err e
  | Ok st =>
    let '(rows, inputs) := attach (outputAddrs st) outputs (inputsMap st) in
    Ok (dressOne rows inputs st <$> txs)
  end.

Definition selectOutputs (dbRunner : string) : dbr.SelectStmt :=
  dbr.LeftJoin
    (dbr.LeftJoin
       (dbr.From
          (dbr.Select dbRunner
             ["avm_outputs.id"; "avm_outputs.transaction_id";
              "avm_outputs.output_index"; "avm_outputs.asset_id";
              "avm_outputs.output_type"; "avm_outputs.amount";
              "avm_outputs.locktime"; "avm_outputs.threshold";
              "avm_outputs.created_at"; "avm_outputs.redeeming_transaction_id";
              "avm_outputs.group_id";
              "avm_output_addresses.output_id AS output_id";
              "avm_output_addresses.address AS address";
              "avm_output_addresses.redeeming_signature AS signature";
              "addresses.public_key AS public_key"])
          "avm_outputs")
       "avm_output_addresses" "avm_outputs.id = avm_output_addresses.output_id")
    "addresses" "addresses.address = avm_output_addresses.address".

Definition dressTransactions {P} (conns : Connections) (dbRunner : string)
    (txs : list Transaction.t) : M P (list Transaction.t) :=
  if (length txs =? 0)%nat then ret txs
  else
    let txIDs := Transaction.ID <$> txs in
    outputs <- load (LoadCompositeRecords conns)
                 (dbr.Where (selectOutputs dbRunner)
                    "avm_outputs.transaction_id IN ?" txIDs) ;;
    inputs <- load (LoadCompositeRecords conns)
                (dbr.Where (selectOutputs dbRunner)
                   "avm_outputs.redeeming_transaction_id IN ?" txIDs) ;;
    match dressRows (outputs ++ inputs) txs with
    | Ok txs' => ret txs'
    | Err e => fail e
    end.

(** ** Address dressing *)

(** The grouped aggregate statement of [dressAddresses]. *)
Definition addressAssetsStmt (dbRunner : string) (addrIDs : list string)
    : dbr.SelectStmt :=
  dbr.GroupBy
    (dbr.GroupBy
       (dbr.Where
          (dbr.LeftJoin
             (dbr.From
                (dbr.Select dbRunner
                   ["avm_output_addresses.address"; "avm_outputs.asset_id";
                    "COUNT(DISTINCT(avm_outputs.transaction_id)) AS transaction_count";
                    "COALESCE(SUM(avm_outputs.amount), 0) AS total_received";
                    "COALESCE(SUM(CASE WHEN avm_outputs.redeeming_transaction_id != '' THEN avm_outputs.amount ELSE 0 END), 0) AS total_sent";
                    "COALESCE(SUM(CASE WHEN avm_outputs.redeeming_transaction_id = '' THEN avm_outputs.amount ELSE 0 END), 0) AS balance";
                    "COALESCE(SUM(CASE WHEN avm_outputs.redeeming_transaction_id = '' THEN 1 ELSE 0 END), 0) AS utxo_count"])
                "avm_outputs")
             "avm_output_addresses" "avm_output_addresses.output_id = avm_outputs.id")
          "avm_output_addresses.address IN ?" addrIDs)
       "avm_output_addresses.address")
    "avm_outputs.asset_id".

(** [addrsByID]: the last entry of the batch with a given address. *)
Fixpoint indexBy {A} (key : A -> string) (i : nat) (l : list A)
    (m : gmap string nat) : gmap string nat :=
  match l with
  | [] => m
  | a :: rest => indexBy key (S i) rest (<[key a := i]> m)
  end.

Definition accumulateRow (addrsByID : gmap string nat)
    (addrs : list AddressInfo.t) (row : string * AssetInfo.t)
    : list AddressInfo.t :=
  match addrsByID !! row.1 with
  | None => addrs
  | Some i =>
    match addrs !! i with
    | None => addrs
    | Some addr =>
      <[i := AddressInfo.setAssets addr
               (<[AssetInfo.AssetID row.2 := row.2]> (AddressInfo.Assets addr))]>
        addrs
    end
  end.

Definition dressAddresses {P} (conns : Connections) (dbRunner : string)
    (addrs : list AddressInfo.t) : M P (list AddressInfo.t) :=
  if (length addrs =? 0)%nat then ret addrs
  else
    let addrIDs := AddressInfo.Address <$> addrs in
    let addrsByID := indexBy AddressInfo.Address 0%nat addrs ∅ in
    let addrs0 := (fun a => AddressInfo.setAssets a ∅) <$> addrs in
    rows <- load (LoadAddressAssets conns) (addressAssetsStmt dbRunner addrIDs) ;;
    ret (fold_left (accumulateRow addrsByID) rows addrs0).

(** ** Entity list readers *)

Definition ge_int (a : nat) (b : Z) : bool := b <=? Z.of_nat a.

(** [uint64(p.Offset) + uint64(len(rows))] *)
Definition pageCount (l : ListParams.t) (rows : nat) : Z :=
  uint64 (uint64 (ListParams.Offset l) + uint64 (Z.of_nat rows)).

Definition listAssetsStmt (p : ListAssetsParams.t) : dbr.SelectStmt :=
  dbr.Apply (AppliedAssets p)
    (dbr.From
       (dbr.Select "list_assets"
          ["id"; "chain_id"; "name"; "symbol"; "alias"; "denomination";
           "current_supply"; "created_at"])
       "avm_assets").

Definition countAssetsStmt (p : ListAssetsParams.t) : dbr.SelectStmt :=
  dbr.Apply (AppliedAssets p)
    (dbr.From (dbr.Select "list_assets" ["COUNT(avm_assets.id)"]) "avm_assets").

Definition ListAssets (conns : Connections)
    : M ListAssetsParams.t AssetList.t :=
  p <- getObj ;;
  assets <- load (LoadAssets conns) (listAssetsStmt p) ;;
  count <-
    (if ListParams.DisableCounting (ListAssetsParams.ListParams p) then ret 0
     else
       if ge_int (length assets) (ListParams.Limit (ListAssetsParams.ListParams p))
       then
         setObj (ListAssetsParams.setListParams p ListParams.zero) ;;;
         p' <- getObj ;;
         load (LoadOne conns) (countAssetsStmt p')
       else ret (pageCount (ListAssetsParams.ListParams p) (length assets))) ;;
  ret {| AssetList.Count := count; AssetList.Assets := assets |}.

Definition listAddressesStmt (p : ListAddressesParams.t) : dbr.SelectStmt :=
  dbr.Apply (AppliedAddresses p)
    (dbr.LeftJoin
       (dbr.From
          (dbr.Select "list_addresses"
             ["DISTINCT(avm_output_addresses.address)"; "addresses.public_key"])
          "avm_output_addresses")
       "addresses" "addresses.address = avm_output_addresses.address").

Definition countAddressesStmt (p : ListAddressesParams.t) : dbr.SelectStmt :=
  dbr.Apply (AppliedAddresses p)
    (dbr.From
       (dbr.Select "list_addresses"
          ["COUNT(DISTINCT(avm_output_addresses.address))"])
       "avm_output_addresses").

Definition ListAddresses (conns : Connections)
    : M ListAddressesParams.t AddressList.t :=
  p <- getObj ;;
  addresses <- load (LoadAddresses conns) (listAddressesStmt p) ;;
  count <-
    (if ListParams.DisableCounting (ListAddressesParams.ListParams p) then ret 0
     else
       if ge_int (length addresses)
            (ListParams.Limit (ListAddressesParams.ListParams p))
       then
         setObj (ListAddressesParams.setListParams p ListParams.zero) ;;;
         p' <- getObj ;;
         load (LoadOne conns) (countAddressesStmt p')
       else ret (pageCount (ListAddressesParams.ListParams p)
                   (length addresses))) ;;
  addresses' <- dressAddresses conns "list_addresses" addresses ;;
  ret {| AddressList.Count := count; AddressList.Addresses := addresses' |}.

Definition outputSelectColumns : list string :=
  ["avm_outputs.id"; "avm_outputs.transaction_id"; "avm_outputs.output_index";
   "avm_outputs.asset_id"; "avm_outputs.output_type"; "avm_outputs.amount";
   "avm_outputs.locktime"; "avm_outputs.threshold"; "avm_outputs.created_at";
   "avm_outputs.redeeming_transaction_id"; "avm_outputs.group_id";
   "avm_outputs.payload"].

Definition listOutputsStmt (p : ListOutputsParams.t) : dbr.SelectStmt :=
  dbr.Apply (AppliedOutputs p)
    (dbr.From (dbr.Select "list_transaction_outputs" outputSelectColumns)
       "avm_outputs").

Definition outputAddressesStmt (outputIDs : list string) : dbr.SelectStmt :=
  dbr.Where
    (dbr.From
       (dbr.Select "list_transaction_outputs"
          ["avm_output_addresses.output_id"; "avm_output_addresses.address";
           "avm_output_addresses.redeeming_signature AS signature";
           "avm_output_addresses.created_at"])
       "avm_output_addresses")
    "avm_output_addresses.output_id IN ?" outputIDs.

Definition countOutputsStmt (p : ListOutputsParams.t) : dbr.SelectStmt :=
  dbr.Apply (AppliedOutputs p)
    (dbr.From (dbr.Select "list_transaction_outputs" ["COUNT(avm_outputs.id)"])
       "avm_outputs").

(** [output.Addresses = append(output.Addresses, address.Address)] on the
    output [outputMap] points to, if any. *)
Definition appendAddress (outputMap : gmap string nat)
    (outputs : list Output.t) (address : OutputAddress.t) : list Output.t :=
  match outputMap !! OutputAddress.OutputID address with
  | None => outputs
  | Some i =>
    match outputs !! i with
    | None => outputs
    | Some output =>
      <[i := Output.setAddresses output
               (Output.Addresses output ++ [OutputAddress.Address address])]>
        outputs
    end
  end.

Definition ListOutputs (conns : Connections)
    : M ListOutputsParams.t OutputList.t :=
  p <- getObj ;;
  outputs <- load (LoadOutputs conns) (listOutputsStmt p) ;;
  if (length outputs <? 1)%nat
  then ret {| OutputList.Count := 0; OutputList.Outputs := outputs |}
  else
    let outputIDs := Output.ID <$> outputs in
    let outputMap := indexBy Output.ID 0%nat outputs ∅ in
    addresses <- load (LoadOutputAddresses conns) (outputAddressesStmt outputIDs) ;;
    let outputs' := fold_left (appendAddress outputMap) addresses outputs in
    count <-
      (if ListParams.DisableCounting (ListOutputsParams.ListParams p) then ret 0
       else
         if ge_int (length outputs)
              (ListParams.Limit (ListOutputsParams.ListParams p))
         then
           setObj (ListOutputsParams.setListParams p ListParams.zero) ;;;
           p' <- getObj ;;
           load (LoadOne conns) (countOutputsStmt p')
         else ret (pageCount (ListOutputsParams.ListParams p)
                     (length outputs))) ;;
    ret {| OutputList.Count := count; OutputList.Outputs := outputs' |}.

(** The constants and helpers of the [params] and [ids] packages the
    reader relies on. *)
Section Reader.

(** [params.AddressFromString] and [ids.FromString]: the identifier a
    string parses to, if it does. *)
Variable AddressFromString : string -> option string.
Variable FromString : string -> option string.
(** [p.NeedsDistinct()] *)
Variable NeedsDistinct : ListTransactionsParams.t -> bool.
Variable PaginationMaxLimit : Z.
(** Modelled from the spec: the values of [params.TransactionSort].  The
    supported orders are ascending and descending creation time; any other
    value is unrecognised, and [TransactionSortDefault] is one of the two
    supported orders. *)
Variable TransactionSortTimestampAsc : TransactionSort.
Variable TransactionSortTimestampDesc : TransactionSort.
Variable TransactionSortDefault : Direction.

Variable conns : Connections.

Definition listTransactionsBuilder (p : ListTransactionsParams.t)
    : dbr.SelectStmt :=
  let builder :=
    dbr.Apply (AppliedTransactions p)
      (dbr.From
         (dbr.Select "get_transactions"
            ["avm_transactions.id"; "avm_transactions.chain_id";
             "avm_transactions.type"; "avm_transactions.memo";
             "avm_transactions.created_at"])
         "avm_transactions") in
  if NeedsDistinct p then dbr.Distinct builder else builder.

(** The [switch] of [applySort].  Its default case calls [applySort]
    again with [TransactionSortDefault], which is one of the two
    supported orders: the second call takes one of the first two cases. *)
Definition applySort (p : ListTransactionsParams.t) (builder : dbr.SelectStmt)
    (sort : TransactionSort) : dbr.SelectStmt :=
  if negb (String.eqb (ListTransactionsParams.Query p) "") then builder
  else
    if sort =? TransactionSortTimestampAsc then
      dbr.OrderAsc (dbr.OrderAsc builder "avm_transactions.chain_id")
        "avm_transactions.created_at"
    else if sort =? TransactionSortTimestampDesc then
      dbr.OrderDesc (dbr.OrderAsc builder "avm_transactions.chain_id")
        "avm_transactions.created_at"
    else
      match TransactionSortDefault with
      | asc =>
        dbr.OrderAsc (dbr.OrderAsc builder "avm_transactions.chain_id")
          "avm_transactions.created_at"
      | desc =>
        dbr.OrderDesc (dbr.OrderAsc builder "avm_transactions.chain_id")
          "avm_transactions.created_at"
      end.

Definition listTransactionsStmt (p : ListTransactionsParams.t)
    : dbr.SelectStmt :=
  applySort p (listTransactionsBuilder p) (ListTransactionsParams.Sort p).

Definition countTransactionsStmt (p : ListTransactionsParams.t)
    : dbr.SelectStmt :=
  if NeedsDistinct p then
    dbr.Apply (AppliedTransactions p)
      (dbr.From
         (dbr.Select "get_transactions" ["COUNT(DISTINCT(avm_transactions.id))"])
         "avm_transactions")
  else
    dbr.Apply (AppliedTransactions p)
      (dbr.From
         (dbr.Select "get_transactions" ["COUNT(avm_transactions.id)"])
         "avm_transactions").

Definition ListTransactions : M ListTransactionsParams.t TransactionList.t :=
  p <- getObj ;;
  txs <- load (LoadTransactions conns) (listTransactionsStmt p) ;;
  count <-
    (if ListParams.DisableCounting (ListTransactionsParams.ListParams p)
     then ret 0
     else
       if ge_int (length txs)
            (ListParams.Limit (ListTransactionsParams.ListParams p))
       then
         setObj (ListTransactionsParams.setListParams p ListParams.zero) ;;;
         p' <- getObj ;;
         load (LoadOne conns) (countTransactionsStmt p')
       else ret (pageCount (ListTransactionsParams.ListParams p)
                   (length txs))) ;;
  txs' <- dressTransactions conns "get_transactions" txs ;;
  ret {| TransactionList.Count := count;
         TransactionList.Transactions := txs' |}.

(** ** Search *)

Definition MinSearchQueryLength : Z := 1.

Definition collateSearchResults (assetResults : option AssetList.t)
    (addressResults : option AddressList.t)
    (transactionResults : option TransactionList.t)
    (_ : option OutputList.t) : SearchResults.t :=
  let assets := from_option AssetList.Assets [] assetResults in
  let addresses := from_option AddressList.Addresses [] addressResults in
  let transactions :=
    from_option TransactionList.Transactions [] transactionResults in
  let outputs : list Output.t := [] in
  let returnedResultCount :=
    Z.of_nat (length assets) + Z.of_nat (length addresses)
    + Z.of_nat (length transactions) + Z.of_nat (length outputs) in
  let returnedResultCount :=
    if PaginationMaxLimit <? returnedResultCount then PaginationMaxLimit
    else returnedResultCount in
  {| SearchResults.Count := uint64 returnedResultCount;
     SearchResults.Results :=
       (ResultTypeAsset <$> assets) ++ (ResultTypeAddress <$> addresses)
       ++ (ResultTypeTransaction <$> transactions) |}.

Definition searchByID {P} (id : string) : M P SearchResults.t :=
  let listParams := ListParams.withDisableCounting ListParams.zero true in
  assets <- call {| ListAssetsParams.ListParams := listParams;
                    ListAssetsParams.ID := Some id;
                    ListAssetsParams.Query := "";
                    ListAssetsParams.Alias := "" |}
              (ListAssets conns) ;;
  if (0 <? length (AssetList.Assets assets))%nat
  then ret (collateSearchResults (Some assets) None None None)
  else
    txs <- call {| ListTransactionsParams.ListParams := listParams;
                   ListTransactionsParams.ID := Some id;
                   ListTransactionsParams.Query := "";
                   ListTransactionsParams.Sort := 0 |}
             ListTransactions ;;
    if (0 <? length (TransactionList.Transactions txs))%nat
    then ret (collateSearchResults None None (Some txs) None)
    else ret SearchResults.zero.

Definition searchByShortID {P} (id : string) : M P SearchResults.t :=
  let listParams := ListParams.withDisableCounting ListParams.zero true in
  addrs <- call {| ListAddressesParams.ListParams := listParams;
                   ListAddressesParams.Address := Some id;
                   ListAddressesParams.Query := "" |}
             (ListAddresses conns) ;;
  if (0 <? length (AddressList.Addresses addrs))%nat
  then ret (collateSearchResults None (Some addrs) None None)
  else ret SearchResults.zero.

Definition Search : M SearchParams.t SearchResults.t :=
  p <- getObj ;;
  if Z.of_nat (String.length (SearchParams.Query p)) <? MinSearchQueryLength
  then fail ErrSearchQueryTooShort
  else
    match AddressFromString (SearchParams.Query p) with
    | Some shortID => searchByShortID shortID
    | None =>
      match FromString (SearchParams.Query p) with
      | Some id => searchByID id
      | None =>
        let cpListParams :=
          ListParams.withDisableCounting (SearchParams.ListParams p) true in
        let limit := ListParams.Limit (SearchParams.ListParams p) in
        assets <- call {| ListAssetsParams.ListParams := cpListParams;
                          ListAssetsParams.ID := None;
                          ListAssetsParams.Query := SearchParams.Query p;
                          ListAssetsParams.Alias := "" |}
                    (ListAssets conns) ;;
        if ge_int (length (AssetList.Assets assets)) limit
        then ret (collateSearchResults (Some assets) None None None)
        else
          transactions <-
            call {| ListTransactionsParams.ListParams := cpListParams;
                    ListTransactionsParams.ID := None;
                    ListTransactionsParams.Query := SearchParams.Query p;
                    ListTransactionsParams.Sort := 0 |}
              ListTransactions ;;
          if ge_int (length (TransactionList.Transactions transactions)) limit
          then ret (collateSearchResults (Some assets) None
                      (Some transactions) None)
          else
            addresses <-
              call {| ListAddressesParams.ListParams := cpListParams;
                      ListAddressesParams.Address := None;
                      ListAddressesParams.Query := SearchParams.Query p |}
                (ListAddresses conns) ;;
            if ge_int (length (AddressList.Addresses addresses)) limit
            then ret (collateSearchResults (Some assets) (Some addresses)
                        (Some transactions) None)
            else ret (collateSearchResults (Some assets) (Some addresses)
                        (Some transactions) None)
      end
    end.

(** ** Aggregation histogram *)

Definition MaxAggregateIntervalCount : Z := 20000.

Definition firstTransactionTimeStmt (chainIDs : list string)
    : dbr.SelectStmt :=
  let builder :=
    dbr.From
      (dbr.Select "get_first_transaction_time"
         ["COALESCE(UNIX_TIMESTAMP(MIN(created_at)), 0)"])
      "avm_transactions" in
  if (0 <? length chainIDs)%nat
  then dbr.Where builder "avm_transactions.chain_id = ?" chainIDs
  else builder.

Definition getFirstTransactionTime {P} (chainIDs : list string)
    : M P time.Time :=
  ts <- load (LoadOne conns) (firstTransactionTimeStmt chainIDs) ;;
  ret (time.FromUnix ts).

(** The interval count the request asks for: [Ok 0] when no interval size
    is given, the error when the count is over the maximum. *)
Definition requestedIntervalCount (params : AggregateParams.t) : result Z :=
  let intervalSeconds := time.wholeSeconds (AggregateParams.IntervalSize params) in
  if intervalSeconds =? 0 then Ok 0
  else
    let n :=
      time.ceilRatio
        (time.Sub (AggregateParams.EndTime params)
           (AggregateParams.StartTime params))
        (AggregateParams.IntervalSize params) in
    if MaxAggregateIntervalCount <? n then Err ErrAggregateIntervalCountTooLarge
    else if n <? 1 then Ok 1
    else Ok n.

Definition aggregateStmt (params : AggregateParams.t) (count : Z)
    : dbr.SelectStmt :=
  let intervalSeconds := time.wholeSeconds (AggregateParams.IntervalSize params) in
  let columns :=
    ["COALESCE(SUM(avm_outputs.amount), 0) AS transaction_volume";
     "COUNT(DISTINCT(avm_outputs.transaction_id)) AS transaction_count";
     "COUNT(DISTINCT(avm_output_addresses.address)) AS address_count";
     "COUNT(DISTINCT(avm_outputs.asset_id)) AS asset_count";
     "COUNT(avm_outputs.id) AS output_count"] in
  let columns :=
    if 0 <? count then
      columns ++
        [String.append "FLOOR((UNIX_TIMESTAMP(avm_outputs.created_at)-"
           (String.append
              (BigInt.String (time.Unix (AggregateParams.StartTime params)))
              (String.append ") / "
                 (String.append (BigInt.String intervalSeconds) ") AS idx")))]
    else columns in
  let builder :=
    dbr.Apply (AppliedAggregate params)
      (dbr.LeftJoin
         (dbr.From
            (dbr.Select "get_transaction_aggregates_histogram" columns)
            "avm_outputs")
         "avm_output_addresses"
         "avm_output_addresses.output_id = avm_outputs.id") in
  if 0 <? count
  then dbr.Limit (dbr.OrderAsc (dbr.GroupBy builder "idx") "idx") count
  else builder.

Definition timesForInterval (params : AggregateParams.t) (intervalIdx : Z)
    : time.Time * time.Time :=
  let intervalSeconds := time.wholeSeconds (AggregateParams.IntervalSize params) in
  let startTS :=
    time.Unix (AggregateParams.StartTime params) + intervalIdx * intervalSeconds in
  (time.FromUnix startTS, time.FromUnix (startTS + intervalSeconds - 1)).

(** [models.Aggregates{Idx: i}] with the times of interval [i]. *)
Definition emptyInterval (params : AggregateParams.t) (i : Z) : Aggregates.t :=
  let '(s, e) := timesForInterval params i in
  {| Aggregates.Idx := i; Aggregates.StartTime := s; Aggregates.EndTime := e;
     Aggregates.TransactionVolume := ""; Aggregates.TransactionCount := 0;
     Aggregates.AddressCount := 0; Aggregates.OutputCount := 0;
     Aggregates.AssetCount := 0 |}.

(** The loop of [padTo]; it runs at most [to - len(slice)] times. *)
Fixpoint padLoop (fuel : nat) (params : AggregateParams.t)
    (slice : list Aggregates.t) (to : Z) : list Aggregates.t :=
  match fuel with
  | O => slice
  | S fuel' =>
    let i := Z.of_nat (length slice) in
    if i <? to
    then padLoop fuel' params (slice ++ [emptyInterval params i]) to
    else slice
  end.

Definition padTo {P} (params : AggregateParams.t) (slice : list Aggregates.t)
    (to : Z) : M P (list Aggregates.t) :=
  emit (PadTo (Z.of_nat (length slice)) to) ;;;
  ret (padLoop (Z.to_nat (to - Z.of_nat (length slice))) params slice to).

(** The running state of the assembly loop: the intervals so far, the
    sum of the volumes ([totalVolume]) and the grand total's counters. *)
Record assembly := {
  asmIntervals : list Aggregates.t;
  asmVolume : Z;
  asmTotals : Aggregates.t
}.

Definition addCounts (total interval : Aggregates.t) : Aggregates.t :=
  {| Aggregates.Idx := Aggregates.Idx total;
     Aggregates.StartTime := Aggregates.StartTime total;
     Aggregates.EndTime := Aggregates.EndTime total;
     Aggregates.TransactionVolume := Aggregates.TransactionVolume total;
     Aggregates.TransactionCount :=
       uint64 (Aggregates.TransactionCount total
               + Aggregates.TransactionCount interval);
     Aggregates.AddressCount :=
       uint64 (Aggregates.AddressCount total + Aggregates.AddressCount interval);
     Aggregates.OutputCount :=
       uint64 (Aggregates.OutputCount total + Aggregates.OutputCount interval);
     Aggregates.AssetCount :=
       uint64 (Aggregates.AssetCount total + Aggregates.AssetCount interval) |}.

Definition setVolume (a : Aggregates.t) (v : TokenAmount) : Aggregates.t :=
  {| Aggregates.Idx := Aggregates.Idx a;
     Aggregates.StartTime := Aggregates.StartTime a;
     Aggregates.EndTime := Aggregates.EndTime a;
     Aggregates.TransactionVolume := v;
     Aggregates.TransactionCount := Aggregates.TransactionCount a;
     Aggregates.AddressCount := Aggregates.AddressCount a;
     Aggregates.OutputCount := Aggregates.OutputCount a;
     Aggregates.AssetCount := Aggregates.AssetCount a |}.

(** The loop over the loaded intervals. *)
Fixpoint addIntervals {P} (params : AggregateParams.t)
    (intervals : list Aggregates.t) (st : assembly) : M P assembly :=
  match intervals with
  | [] => ret st
  | interval :: rest =>
    padded <- padTo params (asmIntervals st) (Aggregates.Idx interval) ;;
    let '(s, e) := timesForInterval params (Aggregates.Idx interval) in
    let interval := Aggregates.setTimes interval s e in
    match BigInt.SetString (Aggregates.TransactionVolume interval) with
    | None => fail ErrFailedToParseStringAsBigInt
    | Some intervalVolume =>
      addIntervals params rest
        {| asmIntervals := padded ++ [interval];
           asmVolume := asmVolume st + intervalVolume;
           asmTotals := addCounts (asmTotals st) interval |}
    end
  end.

Definition Aggregate : M AggregateParams.t AggregatesHistogram.t :=
  params <- getObj ;;
  (if time.IsZero (AggregateParams.StartTime params)
   then
     t <- getFirstTransactionTime (AggregateParams.ChainIDs params) ;;
     setObj (AggregateParams.setStartTime params t)
   else ret tt) ;;;
  params <- getObj ;;
  match requestedIntervalCount params with
  | Err e => fail e
  | Ok count =>
    intervals <- load (LoadAggregates conns) (aggregateStmt params count) ;;
    if count =? 0 then
      match intervals with
      | first :: _ =>
        ret {| AggregatesHistogram.Aggregates :=
                 Aggregates.setTimes first (AggregateParams.StartTime params)
                   (AggregateParams.EndTime params);
               AggregatesHistogram.IntervalSize := 0;
               AggregatesHistogram.Intervals := [] |}
      | [] => ret AggregatesHistogram.zero
      end
    else
      st <- addIntervals params intervals
              {| asmIntervals := [];
                 asmVolume := 0;
                 asmTotals :=
                   Aggregates.setTimes Aggregates.zero
                     (AggregateParams.StartTime params)
                     (AggregateParams.EndTime params) |} ;;
      padded <- padTo params (asmIntervals st) count ;;
      ret {| AggregatesHistogram.Aggregates :=
               setVolume (asmTotals st) (BigInt.String (asmVolume st));
             AggregatesHistogram.IntervalSize :=
               AggregateParams.IntervalSize params;
             AggregatesHistogram.Intervals := padded |}
  end.

(** ** Singular accessors *)

Definition GetTransaction {P} (id : string) : M P (option Transaction.t) :=
  txList <- call {| ListTransactionsParams.ListParams := ListParams.zero;
                    ListTransactionsParams.ID := Some id;
                    ListTransactionsParams.Query := "";
                    ListTransactionsParams.Sort := 0 |}
              ListTransactions ;;
  ret (head (TransactionList.Transactions txList)).

Definition GetAsset {P} (idStrOrAlias : string) : M P (option Asset.t) :=
  let params :=
    match FromString idStrOrAlias with
    | Some id =>
      {| ListAssetsParams.ListParams := ListParams.zero;
         ListAssetsParams.ID := Some id;
         ListAssetsParams.Query := "";
         ListAssetsParams.Alias := "" |}
    | None =>
      {| ListAssetsParams.ListParams := ListParams.zero;
         ListAssetsParams.ID := None;
         ListAssetsParams.Query := "";
         ListAssetsParams.Alias := idStrOrAlias |}
    end in
  assetList <- call params (ListAssets conns) ;;
  ret (head (AssetList.Assets assetList)).

Definition GetAddress {P} (id : string) : M P (option AddressInfo.t) :=
  addressList <- call {| ListAddressesParams.ListParams := ListParams.zero;
                         ListAddressesParams.Address := Some id;
                         ListAddressesParams.Query := "" |}
                   (ListAddresses conns) ;;
  ret (head (AddressList.Addresses addressList)).

Definition GetOutput {P} (id : string) : M P (option Output.t) :=
  outputList <- call {| ListOutputsParams.ListParams := ListParams.zero;
                        ListOutputsParams.ID := Some id |}
                  (ListOutputs conns) ;;
  ret (head (OutputList.Outputs outputList)).

End Reader.

(** * Specification vocabulary *)

(** The order a sort value stands for: the two supported orders, and the
    default order for every other value. *)
Definition sortDirection (TransactionSortTimestampAsc
    TransactionSortTimestampDesc : TransactionSort)
    (TransactionSortDefault : Direction) (sort : TransactionSort) : Direction :=
  if sort =? TransactionSortTimestampAsc then asc
  else if sort =? TransactionSortTimestampDesc then desc
  else TransactionSortDefault.

(** A statement sorted by creation time first and chain identifier second. *)
Definition timeThenChain (stmt : dbr.SelectStmt) : Prop :=
  exists d d' : Direction,
    dbr.Order stmt
    = [("avm_transactions.created_at", d); ("avm_transactions.chain_id", d')].

(** The events a call appended to the trace [tr] it started from. *)
Definition issued {P} (tr : list Event) (s' : St P) : list Event :=
  drop (length tr) (trace s').

Definition isRun (e : Event) : bool :=
  match e with Run _ => true | PadTo _ _ => false end.

Definition isPadTo (e : Event) : bool :=
  match e with Run _ => false | PadTo _ _ => true end.

(** The interval count of a request as the reader computes it: the
    ceiling of the [float64] quotient of the seconds of the range and the
    seconds of the interval size. *)
Definition bucketCount (p : AggregateParams.t) : Z :=
  time.ceilRatio
    (time.Sub (AggregateParams.EndTime p) (AggregateParams.StartTime p))
    (AggregateParams.IntervalSize p).

(** Modelled from the spec: the interval count as a number,
    [ceil((endTime - startTime) / intervalSize)], for an interval size
    other than zero. *)
Definition exactBucketCount (p : AggregateParams.t) : Z :=
  - ((- time.Sub (AggregateParams.EndTime p) (AggregateParams.StartTime p))
     / AggregateParams.IntervalSize p).

(** No statement was run against the storage. *)
Definition noStorageQuery (evs : list Event) : Prop :=
  forall stmt, ~ In (Run stmt) evs.

(** An aggregate statement without GROUP BY yields a row, whatever the
    table holds. *)
Definition ungroupedYieldsRow (conns : Connections) : Prop :=
  forall stmt, dbr.Group stmt = [] -> LoadAggregates conns stmt <> Ok [].

(** The rows of the grouped aggregate statement come one per bucket index,
    in ascending order, with indices from [lo] up to [n - 1]: GROUP BY idx,
    ORDER BY idx ASC over rows of the requested time range. *)
Fixpoint bucketsInOrder (lo n : Z) (rows : list Aggregates.t) : bool :=
  match rows with
  | [] => true
  | r :: rest =>
    (lo <=? Aggregates.Idx r) && (Aggregates.Idx r <? n)
    && bucketsInOrder (Aggregates.Idx r + 1) n rest
  end.

(** Bucket [i] of a histogram over the loaded [rows]: the row of that
    index with the bucket's bounds, or an empty bucket. *)
Definition bucketAt (params : AggregateParams.t) (rows : list Aggregates.t)
    (i : Z) : Aggregates.t :=
  match List.find (fun r => Aggregates.Idx r =? i) rows with
  | Some r =>
    Aggregates.setTimes r (timesForInterval params i).1
      (timesForInterval params i).2
  | None => emptyInterval params i
  end.

(** The volume a bucket contributes: the value of its volume string; a
    synthesized bucket carries no volume string and contributes zero. *)
Definition bucketVolume (a : Aggregates.t) : Z :=
  default 0 (BigInt.SetString (Aggregates.TransactionVolume a)).

Definition sumZ (l : list Z) : Z := foldr Z.add 0 l.

(** A synthesized bucket: no volume, all counters zero. *)
Definition zeroed (a : Aggregates.t) : Prop :=
  Aggregates.TransactionVolume a = ""
  /\ Aggregates.TransactionCount a = 0 /\ Aggregates.AddressCount a = 0
  /\ Aggregates.OutputCount a = 0 /\ Aggregates.AssetCount a = 0.

(** A statement that counts rows: its only column is a COUNT. *)
Definition isCountStmt (stmt : dbr.SelectStmt) : bool :=
  match dbr.Column stmt with
  | [c] => String.prefix "COUNT(" c
  | _ => false
  end.

Definition isCountEvent (e : Event) : bool :=
  match e with
  | Run stmt => isCountStmt stmt
  | PadTo _ _ => false
  end.

(** Some count statement was run. *)
Definition countIssued (evs : list Event) : bool := existsb isCountEvent evs.

(** A statement of one of the dressing passes: over the outputs table,
    without the clauses of a parameter object. *)
Definition isDressEvent (e : Event) : bool :=
  match e with
  | Run stmt =>
    String.eqb (dbr.Table stmt) "avm_outputs"
    && negb (isCountStmt stmt)
    && match dbr.Applied stmt with NotApplied => true | _ => false end
  | PadTo _ _ => false
  end.

(** The state a list call leaves behind when it has run its count
    statement: the caller's object is [cleared], the object with the zero
    [ListParams]; the count statement was built from the cleared object;
    and the object differs from the one passed in unless that one had the
    zero [ListParams] already. *)
Definition clearedBy {P} (listParams : P -> ListParams.t) (cleared : P)
    (count : P -> dbr.SelectStmt) (p : P) (tr : list Event) (s' : St P) : Prop :=
  obj s' = cleared
  /\ listParams (obj s') = ListParams.zero
  /\ In (Run (count (obj s'))) (issued tr s')
  /\ (listParams p <> ListParams.zero -> obj s' <> p).

(** The entity type a statement lists, by the table it selects from. *)
Inductive Entity := EntityAssets | EntityTransactions | EntityAddresses.

Definition entityOf (e : Event) : option Entity :=
  match e with
  | Run stmt =>
    if String.eqb (dbr.Table stmt) "avm_assets" then Some EntityAssets
    else if String.eqb (dbr.Table stmt) "avm_transactions"
    then Some EntityTransactions
    else if String.eqb (dbr.Table stmt) "avm_output_addresses"
    then Some EntityAddresses
    else None
  | PadTo _ _ => None
  end.

(** The entity types queried, in the order of the queries. *)
Definition entities (evs : list Event) : list Entity := omap entityOf evs.

(** The statement is no count statement, and the parameter object it was
    applied with, if any, has counting disabled. *)
Definition countingDisabled (e : Event) : bool :=
  match e with
  | Run stmt =>
    negb (isCountStmt stmt)
    && match dbr.Applied stmt with
       | AppliedAssets p =>
         ListParams.DisableCounting (ListAssetsParams.ListParams p)
       | AppliedTransactions p =>
         ListParams.DisableCounting (ListTransactionsParams.ListParams p)
       | AppliedAddresses p =>
         ListParams.DisableCounting (ListAddressesParams.ListParams p)
       | AppliedOutputs p =>
         ListParams.DisableCounting (ListOutputsParams.ListParams p)
       | AppliedAggregate _ | NotApplied => true
       end
  | PadTo _ _ => true
  end.

(** The parameter objects of the three list calls of a free-text search. *)
Definition searchAssetsParams (p : SearchParams.t) : ListAssetsParams.t :=
  {| ListAssetsParams.ListParams :=
       ListParams.withDisableCounting (SearchParams.ListParams p) true;
     ListAssetsParams.ID := None;
     ListAssetsParams.Query := SearchParams.Query p;
     ListAssetsParams.Alias := "" |}.

Definition searchTransactionsParams (p : SearchParams.t)
    : ListTransactionsParams.t :=
  {| ListTransactionsParams.ListParams :=
       ListParams.withDisableCounting (SearchParams.ListParams p) true;
     ListTransactionsParams.ID := None;
     ListTransactionsParams.Query := SearchParams.Query p;
     ListTransactionsParams.Sort := 0 |}.

Definition searchAddressesParams (p : SearchParams.t) : ListAddressesParams.t :=
  {| ListAddressesParams.ListParams :=
       ListParams.withDisableCounting (SearchParams.ListParams p) true;
     ListAddressesParams.Address := None;
     ListAddressesParams.Query := SearchParams.Query p |}.

(** [m[t][k]], if both keys are there. *)
Definition lookup2 {V} (m : gmap string (gmap string V)) (t k : string)
    : option V :=
  m !! t ≫= (fun inner => inner !! k).

(** The amount of a row as a number; every amount parses where this is
    used. *)
Definition amountOf (r : compositeRecord.t) : Z :=
  default 0 (BigInt.SetString (Output.Amount (compositeRecord.Output r))).

Definition amountParses (r : compositeRecord.t) : Prop :=
  is_Some (BigInt.SetString (Output.Amount (compositeRecord.Output r))).

(** The rows that count for transaction [t] and asset [a]; [key] is the
    owning transaction for output totals and the redeeming transaction for
    input totals. *)
Definition countsFor (key : Output.t -> string) (t a : string)
    (r : compositeRecord.t) : bool :=
  bool_decide (key (compositeRecord.Output r) = t)
  && bool_decide (Output.AssetID (compositeRecord.Output r) = a).

(** The sum of the amounts of those rows. *)
Definition sumAmounts (key : Output.t -> string) (t a : string)
    (rows : list compositeRecord.t) : Z :=
  sumZ (amountOf <$> List.filter (countsFor key t a) rows).

(** The entry of a totals map of a dressed transaction: absent when no
    row counts, the decimal form of the sum otherwise. *)
Definition totalString (key : Output.t -> string) (t a : string)
    (rows : list compositeRecord.t) : option string :=
  match List.filter (countsFor key t a) rows with
  | [] => None
  | _ => Some (BigInt.String (sumAmounts key t a rows))
  end.

(** The credential a signed row stands for. *)
Definition credOf (r : compositeRecord.t) : InputCredentials.t :=
  let a := compositeRecord.OutputAddress r in
  {| InputCredentials.Address := OutputAddress.Address a;
     InputCredentials.PublicKey := OutputAddress.PublicKey a;
     InputCredentials.Signature := OutputAddress.Signature a |}.

(** The rows that sign for output [o] as an input of transaction [t]. *)
Definition signsFor (t o : string) (r : compositeRecord.t) : bool :=
  negb (length (OutputAddress.Signature (compositeRecord.OutputAddress r)) =? 0)%nat
  && bool_decide (Output.RedeemingTransactionID (compositeRecord.Output r) = t)
  && bool_decide (OutputAddress.OutputID (compositeRecord.OutputAddress r) = o).

Definition credsFor (t o : string) (rows : list compositeRecord.t)
    : list InputCredentials.t :=
  credOf <$> List.filter (signsFor t o) rows.

(** The two statements of [dressTransactions]: the rows of the outputs the
    batch owns and of the outputs it redeems. *)
Definition ownedRowsStmt (dbRunner : string) (txs : list Transaction.t)
    : dbr.SelectStmt :=
  dbr.Where (selectOutputs dbRunner) "avm_outputs.transaction_id IN ?"
    (Transaction.ID <$> txs).

Definition redeemedRowsStmt (dbRunner : string) (txs : list Transaction.t)
    : dbr.SelectStmt :=
  dbr.Where (selectOutputs dbRunner) "avm_outputs.redeeming_transaction_id IN ?"
    (Transaction.ID <$> txs).

(** The distinct addresses the rows give output [o]. *)
Definition addressesOf (o : string) (rows : list compositeRecord.t)
    : gset string :=
  list_to_set
    ((fun r => OutputAddress.Address (compositeRecord.OutputAddress r))
       <$> List.filter
             (fun r => bool_decide (Output.ID (compositeRecord.Output r) = o))
             rows).

(** The cell [c] with the credentials [creds]. *)
Definition withCreds (creds : list InputCredentials.t) (c : InputCell.t)
    : InputCell.t :=
  {| InputCell.Output := InputCell.Output c; InputCell.Creds := creds |}.

(** ** Vocabulary of the proofs *)

(** The call only appends to the trace. *)
Definition extends {P A} (m : M P A) : Prop :=
  forall s, exists evs, trace (m s).2 = trace s ++ evs.

(** The call leaves the parameter object as it found it. *)
Definition keeps {P A} (m : M P A) : Prop :=
  forall s, obj (m s).2 = obj s.

(** The call runs statements of the dressing passes only. *)
Definition dressOnly {P A} (m : M P A) : Prop :=
  forall s, exists evs,
    trace (m s).2 = trace s ++ evs
    /\ Forall (fun e => isDressEvent e = true) evs.

(** The rows whose volume parses. *)
Definition volumesParse (rows : list Aggregates.t) : Prop :=
  Forall (fun r => is_Some (BigInt.SetString (Aggregates.TransactionVolume r)))
    rows.

(** [Aggregate] once the start time is settled. *)
Definition aggregateFrom (conns : Connections) (params : AggregateParams.t)
    : M AggregateParams.t AggregatesHistogram.t :=
  match requestedIntervalCount params with
  | Err e => fail e
  | Ok count =>
    bind (load (LoadAggregates conns) (aggregateStmt params count))
      (fun intervals =>
         if count =? 0 then
           match intervals with
           | first :: _ =>
             ret {| AggregatesHistogram.Aggregates :=
                      Aggregates.setTimes first (AggregateParams.StartTime params)
                        (AggregateParams.EndTime params);
                    AggregatesHistogram.IntervalSize := 0;
                    AggregatesHistogram.Intervals := [] |}
           | [] => ret AggregatesHistogram.zero
           end
         else
           bind (addIntervals params intervals
                   {| asmIntervals := [];
                      asmVolume := 0;
                      asmTotals :=
                        Aggregates.setTimes Aggregates.zero
                          (AggregateParams.StartTime params)
                          (AggregateParams.EndTime params) |})
             (fun st =>
                bind (padTo params (asmIntervals st) count)
                  (fun padded =>
                     ret {| AggregatesHistogram.Aggregates :=
                              setVolume (asmTotals st)
                                (BigInt.String (asmVolume st));
                            AggregatesHistogram.IntervalSize :=
                              AggregateParams.IntervalSize params;
                            AggregatesHistogram.Intervals := padded |})))
  end.

(** What the storage and the dressing pass make of the loaded page. *)
Definition finishTransactions (conns : Connections) (count : result Z)
    (txs : list Transaction.t) (s : St ListTransactionsParams.t)
    : result TransactionList.t * St ListTransactionsParams.t :=
  match count with
  | Err e => (Err e, s)
  | Ok count =>
    let r := dressTransactions conns "get_transactions" txs s in
    (match r.1 with
     | Ok txs' =>
       Ok {| TransactionList.Count := count;
             TransactionList.Transactions := txs' |}
     | Err e => Err e
     end, r.2)
  end.

(** The same for a page of addresses. *)
Definition finishAddresses (conns : Connections) (count : result Z)
    (addresses : list AddressInfo.t) (s : St ListAddressesParams.t)
    : result AddressList.t * St ListAddressesParams.t :=
  match count with
  | Err e => (Err e, s)
  | Ok count =>
    let r := dressAddresses conns "list_addresses" addresses s in
    (match r.1 with
     | Ok addresses' =>
       Ok {| AddressList.Count := count; AddressList.Addresses := addresses' |}
     | Err e => Err e
     end, r.2)
  end.

(** The totals after the first pass: what was there, plus the amounts of
    the rows that count. *)
Definition addedTo (old : option Z) (key : Output.t -> string) (t a : string)
    (rows : list compositeRecord.t) : option Z :=
  match List.filter (countsFor key t a) rows with
  | [] => old
  | _ => Some (sumAmounts key t a rows + default 0 old)
  end.

(** [&models.Input{Output: out}] for the row at index [i]. *)
Definition newCell (i : nat) : InputCell.t :=
  {| InputCell.Output := i; InputCell.Creds := [] |}.

(** The cells the second pass starts from. *)
Definition cellsOK (merged : list compositeRecord.t)
    (cells : gmap string (gmap string InputCell.t)) : Prop :=
  forall t k c,
    lookup2 cells t k = Some c ->
    InputCell.Creds c = []
    /\ exists r,
        merged !! InputCell.Output c = Some r
        /\ Output.ID (compositeRecord.Output r) = k
        /\ Output.RedeemingTransactionID (compositeRecord.Output r) = t.

(** The row as the second pass leaves it. *)
Definition dressedRow (addrs : gmap string (gset string))
    (r : compositeRecord.t) : compositeRecord.t :=
  compositeRecord.setAddresses r
    (elements (default ∅ (addrs !! Output.ID (compositeRecord.Output r)))).

(** The state of the second pass after [n] rows. *)
Definition attachInv (merged : list compositeRecord.t)
    (addrs : gmap string (gset string))
    (cells : gmap string (gmap string InputCell.t)) (n : nat)
    (st : list compositeRecord.t * gmap string (gmap string InputCell.t))
    : Prop :=
  length st.1 = length merged
  /\ (forall j r, merged !! j = Some r ->
        st.1 !! j = Some (if decide (j < n)%nat then dressedRow addrs r else r))
  /\ (forall t k,
        lookup2 st.2 t k
        = withCreds (credsFor t k (take n merged)) <$> lookup2 cells t k).

(** * Concrete instances *)

(** A storage without rows. *)
Definition emptyConns : Connections :=
  {| LoadOne := fun _ => Ok 0;
     LoadAggregates := fun _ => Ok [];
     LoadTransactions := fun _ => Ok [];
     LoadAssets := fun _ => Ok [];
     LoadAddresses := fun _ => Ok [];
     LoadOutputs := fun _ => Ok [];
     LoadOutputAddresses := fun _ => Ok [];
     LoadCompositeRecords := fun _ => Ok [];
     LoadAddressAssets := fun _ => Ok [] |}.

Definition noDistinct (_ : ListTransactionsParams.t) : bool := false.

(** List transactions in ascending order, no free-text filter. *)
Definition ascendingParams : ListTransactionsParams.t :=
  {| ListTransactionsParams.ListParams := ListParams.zero;
     ListTransactionsParams.ID := None;
     ListTransactionsParams.Query := "";
     ListTransactionsParams.Sort := 1 |}.

(** 30000 one-second intervals, from the epoch on. *)
Definition setStartParams : AggregateParams.t :=
  {| AggregateParams.ChainIDs := [];
     AggregateParams.StartTime := time.FromUnix 0;
     AggregateParams.EndTime := time.FromUnix 30000;
     AggregateParams.IntervalSize := time.Second |}.

(** The same request without a start time. *)
Definition unsetStartParams : AggregateParams.t :=
  AggregateParams.setStartTime setStartParams time.zero.

(** 60000 intervals of half a second. *)
Definition halfSecondParams : AggregateParams.t :=
  {| AggregateParams.ChainIDs := [];
     AggregateParams.StartTime := time.FromUnix 0;
     AggregateParams.EndTime := time.FromUnix 30000;
     AggregateParams.IntervalSize := 500000000 |}.

(** 20000 hours and a nanosecond, in intervals of an hour. *)
Definition hourlyParams : AggregateParams.t :=
  {| AggregateParams.ChainIDs := [];
     AggregateParams.StartTime := time.FromUnix 0;
     AggregateParams.EndTime := time.FromUnix 72000000 + 1;
     AggregateParams.IntervalSize := 3600 * time.Second |}.

(** The whole range as one interval. *)
Definition wholeRangeParams : AggregateParams.t :=
  {| AggregateParams.ChainIDs := [];
     AggregateParams.StartTime := time.FromUnix 0;
     AggregateParams.EndTime := time.FromUnix 30000;
     AggregateParams.IntervalSize := 0 |}.

Definition bucket (idx : Z) (volume : TokenAmount) (txs : Z) : Aggregates.t :=
  {| Aggregates.Idx := idx; Aggregates.StartTime := time.zero;
     Aggregates.EndTime := time.zero; Aggregates.TransactionVolume := volume;
     Aggregates.TransactionCount := txs; Aggregates.AddressCount := 1;
     Aggregates.OutputCount := txs; Aggregates.AssetCount := 1 |}.

(** A storage answering every aggregate statement with one row. *)
Definition oneRowConns : Connections :=
  {| LoadOne := fun _ => Ok 0;
     LoadAggregates := fun _ => Ok [bucket 0 "42" 3];
     LoadTransactions := fun _ => Ok [];
     LoadAssets := fun _ => Ok [];
     LoadAddresses := fun _ => Ok [];
     LoadOutputs := fun _ => Ok [];
     LoadOutputAddresses := fun _ => Ok [];
     LoadCompositeRecords := fun _ => Ok [];
     LoadAddressAssets := fun _ => Ok [] |}.

Definition wholeRangeHistogram : AggregatesHistogram.t :=
  {| AggregatesHistogram.Aggregates :=
       Aggregates.setTimes (bucket 0 "42" 3) (time.FromUnix 0)
         (time.FromUnix 30000);
     AggregatesHistogram.IntervalSize := 0;
     AggregatesHistogram.Intervals := [] |}.

(** Five one-minute intervals from the epoch on, two of them with data. *)
Definition histParams : AggregateParams.t :=
  {| AggregateParams.ChainIDs := [];
     AggregateParams.StartTime := time.FromUnix 0;
     AggregateParams.EndTime := time.FromUnix 300;
     AggregateParams.IntervalSize := 60 * time.Second |}.

Definition histConns : Connections :=
  {| LoadOne := fun _ => Ok 0;
     LoadAggregates := fun _ => Ok [bucket 1 "7" 2; bucket 3 "11" 1];
     LoadTransactions := fun _ => Ok [];
     LoadAssets := fun _ => Ok [];
     LoadAddresses := fun _ => Ok [];
     LoadOutputs := fun _ => Ok [];
     LoadOutputAddresses := fun _ => Ok [];
     LoadCompositeRecords := fun _ => Ok [];
     LoadAddressAssets := fun _ => Ok [] |}.

Definition fiveBuckets : AggregatesHistogram.t :=
  Eval vm_compute in
    match (Aggregate histConns {| obj := histParams; trace := [] |}).1 with
    | Ok h => h
    | Err _ => AggregatesHistogram.zero
    end.

Definition fiveBucketsState : St AggregateParams.t :=
  Eval vm_compute in
    (Aggregate histConns {| obj := histParams; trace := [] |}).2.

(** The second page of ten, counting enabled. *)
Definition secondPage : ListParams.t :=
  {| ListParams.Limit := 10; ListParams.Offset := 5;
     ListParams.DisableCounting := false |}.

Definition pagedOutputs : ListOutputsParams.t :=
  {| ListOutputsParams.ListParams := secondPage;
     ListOutputsParams.ID := None |}.

Definition pagedAssets : ListAssetsParams.t :=
  {| ListAssetsParams.ListParams := secondPage;
     ListAssetsParams.ID := None;
     ListAssetsParams.Query := "";
     ListAssetsParams.Alias := "" |}.

(** The parameter objects [GetOutput] and [GetAsset] pass: no limit. *)
Definition unpagedOutputs : ListOutputsParams.t :=
  {| ListOutputsParams.ListParams := ListParams.zero;
     ListOutputsParams.ID := Some "o" |}.

Definition unpagedAssets : ListAssetsParams.t :=
  {| ListAssetsParams.ListParams := ListParams.zero;
     ListAssetsParams.ID := Some "o";
     ListAssetsParams.Query := "";
     ListAssetsParams.Alias := "" |}.

Definition asset (id : string) : Asset.t :=
  {| Asset.ID := id; Asset.ChainID := "chain"; Asset.Name := "name";
     Asset.Symbol := "SYM"; Asset.Alias := ""; Asset.Denomination := 0;
     Asset.CurrentSupply := "100"; Asset.CreatedAt := time.FromUnix 1 |}.

(** A storage with one asset (and nothing else). *)
Definition oneAssetConns : Connections :=
  {| LoadOne := fun _ => Ok 1;
     LoadAggregates := fun _ => Ok [];
     LoadTransactions := fun _ => Ok [];
     LoadAssets := fun _ => Ok [asset "A"];
     LoadAddresses := fun _ => Ok [];
     LoadOutputs := fun _ => Ok [];
     LoadOutputAddresses := fun _ => Ok [];
     LoadCompositeRecords := fun _ => Ok [];
     LoadAddressAssets := fun _ => Ok [] |}.

(** A page of one, counting enabled. *)
Definition firstOfOne : ListAssetsParams.t :=
  {| ListAssetsParams.ListParams :=
       {| ListParams.Limit := 1; ListParams.Offset := 0;
          ListParams.DisableCounting := false |};
     ListAssetsParams.ID := None;
     ListAssetsParams.Query := "";
     ListAssetsParams.Alias := "" |}.

Definition transaction (id : string) : Transaction.t :=
  {| Transaction.ID := id; Transaction.ChainID := "chain";
     Transaction.Type_ := "base"; Transaction.Memo := [];
     Transaction.CreatedAt := time.FromUnix 1; Transaction.Inputs := [];
     Transaction.Outputs := []; Transaction.InputTotals := ∅;
     Transaction.OutputTotals := ∅ |}.

Definition addressInfo (a : string) : AddressInfo.t :=
  {| AddressInfo.Address := a; AddressInfo.PublicKey := [];
     AddressInfo.Assets := ∅ |}.

(** A storage in which every list statement finds one row. *)
Definition oneEachConns : Connections :=
  {| LoadOne := fun _ => Ok 1;
     LoadAggregates := fun _ => Ok [];
     LoadTransactions := fun _ => Ok [transaction "T"];
     LoadAssets := fun _ => Ok [asset "A"];
     LoadAddresses := fun _ => Ok [addressInfo "a"];
     LoadOutputs := fun _ => Ok [];
     LoadOutputAddresses := fun _ => Ok [];
     LoadCompositeRecords := fun _ => Ok [];
     LoadAddressAssets := fun _ => Ok [] |}.

(** No string is an identifier. *)
Definition noID (_ : string) : option string := None.

(** A free-text search for at most two results. *)
Definition searchFoo : SearchParams.t :=
  {| SearchParams.ListParams :=
       {| ListParams.Limit := 2; ListParams.Offset := 0;
          ListParams.DisableCounting := false |};
     SearchParams.Query := "foo" |}.

(** Output O of asset A and amount 5, owned by T1, redeemed by T2, with the
    addresses a1 (which signed the redemption) and a2. *)
Definition outputO : Output.t :=
  {| Output.ID := "O"; Output.TransactionID := "T1"; Output.OutputIndex := 0;
     Output.AssetID := "A"; Output.OutputType := 7; Output.Amount := "5";
     Output.Locktime := 0; Output.Threshold := 1;
     Output.CreatedAt := time.FromUnix 1;
     Output.RedeemingTransactionID := "T2"; Output.GroupID := 0;
     Output.Payload := []; Output.Addresses := [] |}.

Definition rowO (address : string) (signature : list Byte.byte)
    : compositeRecord.t :=
  {| compositeRecord.Output := outputO;
     compositeRecord.OutputAddress :=
       {| OutputAddress.OutputID := "O"; OutputAddress.Address := address;
          OutputAddress.Signature := signature;
          OutputAddress.PublicKey := [Byte.x02];
          OutputAddress.CreatedAt := time.FromUnix 1 |} |}.

Definition tableO : list compositeRecord.t :=
  [rowO "a1" [Byte.x01]; rowO "a2" []].

(** The rows of a joined table a [selectOutputs] statement selects: those
    whose owning (or redeeming) transaction is among the identifiers of
    the statement's last condition. *)
Definition selectsRow (stmt : dbr.SelectStmt) (r : compositeRecord.t) : bool :=
  match last (dbr.WhereCond stmt) with
  | Some (query, ids) =>
    if String.eqb query "avm_outputs.transaction_id IN ?"
    then bool_decide (Output.TransactionID (compositeRecord.Output r) ∈ ids)
    else bool_decide
           (Output.RedeemingTransactionID (compositeRecord.Output r) ∈ ids)
  | None => true
  end.

(** A storage holding the joined rows [table]. *)
Definition tableConns (table : list compositeRecord.t) : Connections :=
  {| LoadOne := fun _ => Ok 0;
     LoadAggregates := fun _ => Ok [];
     LoadTransactions := fun _ => Ok [];
     LoadAssets := fun _ => Ok [];
     LoadAddresses := fun _ => Ok [];
     LoadOutputs := fun _ => Ok [];
     LoadOutputAddresses := fun _ => Ok [];
     LoadCompositeRecords :=
       fun stmt => Ok (List.filter (selectsRow stmt) table);
     LoadAddressAssets := fun _ => Ok [] |}.

(** The redeeming transaction alone, and together with the owner. *)
Definition batchT2 : list Transaction.t := [transaction "T2"].
Definition batchT1T2 : list Transaction.t :=
  [transaction "T1"; transaction "T2"].

Definition noObject : St unit := {| obj := tt; trace := [] |}.

(** What a dressed batch shows of each transaction: its identifier, the
    addresses and the credentials' addresses of each input, the addresses
    of each output, and both totals. *)
Definition summary (r : result (list Transaction.t))
    : list (string * list (list string * list string) * list (list string)
            * list (string * string) * list (string * string)) :=
  match r with
  | Err _ => []
  | Ok txs =>
    (fun tx =>
       (Transaction.ID tx,
        (fun inp => (Output.Addresses (Input.Output inp),
                     InputCredentials.Address <$> Input.Creds inp))
          <$> Transaction.Inputs tx,
        Output.Addresses <$> Transaction.Outputs tx,
        map_to_list (Transaction.InputTotals tx),
        map_to_list (Transaction.OutputTotals tx))) <$> txs
  end.

(** An output of the table: when it was created and its amount. *)
Record storedOutput := { createdAt : time.Time; storedAmount : Z }.

(** GROUP BY idx, ORDER BY idx ASC: the volume and the number of outputs
    per bucket index. *)
Fixpoint addToBucket (idx amount : Z) (buckets : list (Z * Z * Z))
    : list (Z * Z * Z) :=
  match buckets with
  | [] => [(idx, amount, 1)]
  | (i, volume, n) :: rest =>
    if idx <? i then (idx, amount, 1) :: buckets
    else if idx =? i then (i, volume + amount, n + 1) :: rest
    else (i, volume, n) :: addToBucket idx amount rest
  end.

Definition bucketRow (b : Z * Z * Z) : Aggregates.t :=
  let '(idx, volume, n) := b in
  {| Aggregates.Idx := idx; Aggregates.StartTime := time.zero;
     Aggregates.EndTime := time.zero;
     Aggregates.TransactionVolume := BigInt.String volume;
     Aggregates.TransactionCount := n; Aggregates.AddressCount := 1;
     Aggregates.OutputCount := n; Aggregates.AssetCount := 1 |}.

(** The rows of the grouped aggregate statement over a table of outputs
    created within the requested range, each output in a transaction of
    its own, all with one address and one asset:
    [FLOOR((UNIX_TIMESTAMP(created_at) - start) / intervalSeconds) AS idx],
    GROUP BY idx, ORDER BY idx ASC, LIMIT n. *)
Definition groupedRows (p : AggregateParams.t) (limit : Z)
    (table : list storedOutput) : list Aggregates.t :=
  let inRange :=
    List.filter
      (fun o => (AggregateParams.StartTime p <=? createdAt o)
                && (createdAt o <? AggregateParams.EndTime p)) table in
  let idx o :=
    (time.Unix (createdAt o) - time.Unix (AggregateParams.StartTime p))
    / time.wholeSeconds (AggregateParams.IntervalSize p) in
  take (Z.to_nat limit)
    (bucketRow
       <$> fold_left (fun bs o => addToBucket (idx o) (storedAmount o) bs)
             inRange []).

(** A storage holding the outputs [table]. *)
Definition outputsConns (table : list storedOutput) : Connections :=
  {| LoadOne := fun _ => Ok 0;
     LoadAggregates :=
       fun stmt =>
         match dbr.Applied stmt, dbr.LimitCount stmt with
         | AppliedAggregate p, Some limit => Ok (groupedRows p limit table)
         | _, _ => Ok []
         end;
     LoadTransactions := fun _ => Ok [];
     LoadAssets := fun _ => Ok [];
     LoadAddresses := fun _ => Ok [];
     LoadOutputs := fun _ => Ok [];
     LoadOutputAddresses := fun _ => Ok [];
     LoadCompositeRecords := fun _ => Ok [];
     LoadAddressAssets := fun _ => Ok [] |}.

(** Three seconds in intervals of a second and a half. *)
Definition fractionalParams : AggregateParams.t :=
  {| AggregateParams.ChainIDs := [];
     AggregateParams.StartTime := time.FromUnix 0;
     AggregateParams.EndTime := time.FromUnix 3;
     AggregateParams.IntervalSize := 1500000000 |}.

(** One output of amount 7, created in the third second. *)
Definition thirdSecond : list storedOutput :=
  [{| createdAt := time.FromUnix 2; storedAmount := 7 |}].

(** What a histogram shows of its intervals: index, first and last second. *)
Definition intervalBounds (r : result AggregatesHistogram.t)
    : list (Z * Z * Z) :=
  match r with
  | Err _ => []
  | Ok h =>
    (fun a => (Aggregates.Idx a, time.Unix (Aggregates.StartTime a),
               time.Unix (Aggregates.EndTime a)))
      <$> AggregatesHistogram.Intervals h
  end.

(** * Further vocabulary: the rest of the reader *)

(** A statement that groups its rows is limited to at least one and at
    most [MaxAggregateIntervalCount] rows; a statement that does not group
    has no limit. *)
Definition boundedStmt (e : Event) : bool :=
  match e with
  | Run stmt =>
    match dbr.Group stmt, dbr.LimitCount stmt with
    | [], None => true
    | _ :: _, Some n => (1 <=? n) && (n <=? MaxAggregateIntervalCount)
    | _, _ => false
    end
  | PadTo _ _ => true
  end.

(** The number of results three lists hold together. *)
Definition resultTotal (assets : option AssetList.t)
    (addresses : option AddressList.t) (transactions : option TransactionList.t)
    : Z :=
  Z.of_nat (length (from_option AssetList.Assets [] assets))
  + Z.of_nat (length (from_option AddressList.Addresses [] addresses))
  + Z.of_nat (length (from_option TransactionList.Transactions [] transactions)).

(** The fields of a transaction the storage loaded. *)
Definition sameHeader (tx tx' : Transaction.t) : Prop :=
  Transaction.ID tx' = Transaction.ID tx
  /\ Transaction.ChainID tx' = Transaction.ChainID tx
  /\ Transaction.Type_ tx' = Transaction.Type_ tx
  /\ Transaction.Memo tx' = Transaction.Memo tx
  /\ Transaction.CreatedAt tx' = Transaction.CreatedAt tx.

(** The addresses the rows give output [o], in the order of the rows. *)
Definition addressRowsOf (o : string) (addresses : list OutputAddress.t)
    : list string :=
  OutputAddress.Address
    <$> List.filter (fun a => bool_decide (OutputAddress.OutputID a = o))
          addresses.

(** A count statement over distinct identifiers. *)
Definition countsDistinct (stmt : dbr.SelectStmt) : bool :=
  match dbr.Column stmt with
  | [c] => String.prefix "COUNT(DISTINCT(" c
  | _ => false
  end.

Definition isAssetResult (r : SearchResult) : bool :=
  match r with ResultTypeAsset _ => true | _ => false end.

Definition isAddressResult (r : SearchResult) : bool :=
  match r with ResultTypeAddress _ => true | _ => false end.

Definition isTransactionResult (r : SearchResult) : bool :=
  match r with ResultTypeTransaction _ => true | _ => false end.

(** The parameter objects of the identifier searches. *)
Definition shortIDParams (id : string) : ListAddressesParams.t :=
  {| ListAddressesParams.ListParams :=
       ListParams.withDisableCounting ListParams.zero true;
     ListAddressesParams.Address := Some id;
     ListAddressesParams.Query := "" |}.

Definition idAssetsParams (id : string) : ListAssetsParams.t :=
  {| ListAssetsParams.ListParams :=
       ListParams.withDisableCounting ListParams.zero true;
     ListAssetsParams.ID := Some id;
     ListAssetsParams.Query := "";
     ListAssetsParams.Alias := "" |}.

Definition idTransactionsParams (id : string) : ListTransactionsParams.t :=
  {| ListTransactionsParams.ListParams :=
       ListParams.withDisableCounting ListParams.zero true;
     ListTransactionsParams.ID := Some id;
     ListTransactionsParams.Query := "";
     ListTransactionsParams.Sort := 0 |}.

(** The parameter objects of the singular accessors. *)
Definition getAssetParams (FromString : string -> option string)
    (idStrOrAlias : string) : ListAssetsParams.t :=
  match FromString idStrOrAlias with
  | Some id =>
    {| ListAssetsParams.ListParams := ListParams.zero;
       ListAssetsParams.ID := Some id;
       ListAssetsParams.Query := "";
       ListAssetsParams.Alias := "" |}
  | None =>
    {| ListAssetsParams.ListParams := ListParams.zero;
       ListAssetsParams.ID := None;
       ListAssetsParams.Query := "";
       ListAssetsParams.Alias := idStrOrAlias |}
  end.

Definition getOutputParams (id : string) : ListOutputsParams.t :=
  {| ListOutputsParams.ListParams := ListParams.zero;
     ListOutputsParams.ID := Some id |}.

Definition getTransactionParams (id : string) : ListTransactionsParams.t :=
  {| ListTransactionsParams.ListParams := ListParams.zero;
     ListTransactionsParams.ID := Some id;
     ListTransactionsParams.Query := "";
     ListTransactionsParams.Sort := 0 |}.

Definition getAddressParams (id : string) : ListAddressesParams.t :=
  {| ListAddressesParams.ListParams := ListParams.zero;
     ListAddressesParams.Address := Some id;
     ListAddressesParams.Query := "" |}.

(** Every string is the identifier it spells. *)
Definition anyID (s : string) : option string := Some s.

(** A storage whose count statements fail. *)
Definition noCountConns : Connections :=
  {| LoadOne := fun _ => Err (ErrStorage "count");
     LoadAggregates := fun _ => Ok [];
     LoadTransactions := fun _ => Ok [transaction "T"];
     LoadAssets := fun _ => Ok [asset "A"];
     LoadAddresses := fun _ => Ok [addressInfo "a"];
     LoadOutputs := fun _ => Ok [];
     LoadOutputAddresses := fun _ => Ok [];
     LoadCompositeRecords := fun _ => Ok [];
     LoadAddressAssets := fun _ => Ok [] |}.

(** Transaction [t] owns (redeems) output [k] according to the rows. *)
Definition ownsOutput (rows : list compositeRecord.t) (t k : string) : Prop :=
  exists r,
    r ∈ rows
    /\ Output.TransactionID (compositeRecord.Output r) = t
    /\ Output.ID (compositeRecord.Output r) = k.

Definition redeemsOutput (rows : list compositeRecord.t) (t k : string) : Prop :=
  exists r,
    r ∈ rows
    /\ Output.RedeemingTransactionID (compositeRecord.Output r) = t
    /\ Output.ID (compositeRecord.Output r) = k.

(** A row whose amount is no number. *)
Definition badRow : compositeRecord.t :=
  {| compositeRecord.Output :=
       {| Output.ID := "O"; Output.TransactionID := "T1";
          Output.OutputIndex := 0; Output.AssetID := "A";
          Output.OutputType := 7; Output.Amount := "five";
          Output.Locktime := 0; Output.Threshold := 1;
          Output.CreatedAt := time.FromUnix 1;
          Output.RedeemingTransactionID := "T2"; Output.GroupID := 0;
          Output.Payload := []; Output.Addresses := [] |};
     compositeRecord.OutputAddress := OutputAddress.zero |}.

(** The last row the storage returned for address [a] and asset [k]. *)
Definition assetRowFor (a k : string) (rows : list (string * AssetInfo.t))
    : option AssetInfo.t :=
  snd <$> last (List.filter
                  (fun row => bool_decide (row.1 = a)
                              && bool_decide (AssetInfo.AssetID row.2 = k))
                  rows).

(** The output as [ListOutputs] returns it. *)
Definition withAddressRows (addresses : list OutputAddress.t) (o : Output.t)
    : Output.t :=
  Output.setAddresses o
    (Output.Addresses o ++ addressRowsOf (Output.ID o) addresses).

Definition assetInfo (asset : string) (balance : TokenAmount) : AssetInfo.t :=
  {| AssetInfo.AssetID := asset; AssetInfo.TransactionCount := 1;
     AssetInfo.UTXOCount := 1; AssetInfo.Balance := balance;
     AssetInfo.TotalReceived := balance; AssetInfo.TotalSent := "0" |}.

(** A storage with the balances of two addresses. *)
Definition balancesConns : Connections :=
  {| LoadOne := fun _ => Ok 0;
     LoadAggregates := fun _ => Ok [];
     LoadTransactions := fun _ => Ok [];
     LoadAssets := fun _ => Ok [];
     LoadAddresses := fun _ => Ok [addressInfo "a"; addressInfo "b"];
     LoadOutputs := fun _ => Ok [];
     LoadOutputAddresses := fun _ => Ok [];
     LoadCompositeRecords := fun _ => Ok [];
     LoadAddressAssets :=
       fun _ => Ok [("a", assetInfo "A" "5"); ("c", assetInfo "A" "1");
                    ("b", assetInfo "B" "7"); ("a", assetInfo "B" "9")] |}.

Definition outputAddress (output address : string) : OutputAddress.t :=
  {| OutputAddress.OutputID := output; OutputAddress.Address := address;
     OutputAddress.Signature := []; OutputAddress.PublicKey := [];
     OutputAddress.CreatedAt := time.FromUnix 1 |}.

Definition outputQ : Output.t :=
  {| Output.ID := "Q"; Output.TransactionID := "T1"; Output.OutputIndex := 1;
     Output.AssetID := "A"; Output.OutputType := 7; Output.Amount := "6";
     Output.Locktime := 0; Output.Threshold := 1;
     Output.CreatedAt := time.FromUnix 1;
     Output.RedeemingTransactionID := ""; Output.GroupID := 0;
     Output.Payload := []; Output.Addresses := [] |}.

(** A storage with two outputs and the rows of their addresses. *)
Definition twoOutputsConns : Connections :=
  {| LoadOne := fun _ => Ok 2;
     LoadAggregates := fun _ => Ok [];
     LoadTransactions := fun _ => Ok [];
     LoadAssets := fun _ => Ok [];
     LoadAddresses := fun _ => Ok [];
     LoadOutputs := fun _ => Ok [outputO; outputQ];
     LoadOutputAddresses :=
       fun _ => Ok [outputAddress "O" "a1"; outputAddress "Q" "a3";
                    outputAddress "Z" "a4"; outputAddress "O" "a2"];
     LoadCompositeRecords := fun _ => Ok [];
     LoadAddressAssets := fun _ => Ok [] |}.

(** The parameters [Aggregate] works with once the start time is settled:
    an unset start time is looked up. *)
Definition settledParams (conns : Connections) (p : AggregateParams.t)
    : result AggregateParams.t :=
  if time.IsZero (AggregateParams.StartTime p) then
    match LoadOne conns (firstTransactionTimeStmt (AggregateParams.ChainIDs p))
    with
    | Ok ts => Ok (AggregateParams.setStartTime p (time.FromUnix ts))
    | Err e => Err e
    end
  else Ok p.

(** The trace at that point. *)
Definition settledTrace (p : AggregateParams.t) (tr : list Event)
    : list Event :=
  if time.IsZero (AggregateParams.StartTime p)
  then tr ++ [Run (firstTransactionTimeStmt (AggregateParams.ChainIDs p))]
  else tr.

(** A storage whose second bucket has an unreadable volume. *)
Definition badVolumeConns : Connections :=
  {| LoadOne := fun _ => Ok 0;
     LoadAggregates := fun _ => Ok [bucket 1 "7" 2; bucket 3 "x" 1];
     LoadTransactions := fun _ => Ok [];
     LoadAssets := fun _ => Ok [];
     LoadAddresses := fun _ => Ok [];
     LoadOutputs := fun _ => Ok [];
     LoadOutputAddresses := fun _ => Ok [];
     LoadCompositeRecords := fun _ => Ok [];
     LoadAddressAssets := fun _ => Ok [] |}.

(** A free-text search without a limit. *)
Definition searchNoLimit : SearchParams.t :=
  {| SearchParams.ListParams := ListParams.zero;
     SearchParams.Query := "foo" |}.

(** The fields of an address the storage loaded. *)
Definition sameAddress (a a' : AddressInfo.t) : Prop :=
  AddressInfo.Address a' = AddressInfo.Address a
  /\ AddressInfo.PublicKey a' = AddressInfo.PublicKey a.

(** * Properties *)

Arguments requestedIntervalCount : simpl never.
Arguments aggregateStmt : simpl never.
Arguments firstTransactionTimeStmt : simpl never.
Arguments listAssetsStmt : simpl never.
Arguments countAssetsStmt : simpl never.
Arguments listAddressesStmt : simpl never.
Arguments countAddressesStmt : simpl never.
Arguments listOutputsStmt : simpl never.
Arguments countOutputsStmt : simpl never.
Arguments outputAddressesStmt : simpl never.
Arguments listTransactionsStmt : simpl never.
Arguments countTransactionsStmt : simpl never.
Arguments addressAssetsStmt : simpl never.
Arguments selectOutputs : simpl never.
Arguments dressRows : simpl never.
Arguments pageCount : simpl never.
Arguments ge_int : simpl never.
Arguments time.IsZero : simpl never.
Arguments time.FromUnix : simpl never.
Arguments time.wholeSeconds : simpl never.
Arguments BigInt.SetString : simpl never.
Arguments BigInt.String : simpl never.
Arguments timesForInterval : simpl never.
Arguments emptyInterval : simpl never.

(** Unfold the reader's monad. *)
Ltac msimpl := cbn beta iota zeta delta [obj trace fst snd] in *.

Ltac unfold_m :=
  unfold bind, ret, fail, getObj, setObj, emit, load, call in *;
  cbn beta iota zeta delta [obj trace fst snd] in *.

(** ** Amount arithmetic *)

Lemma digits_string_of_uint (d : Decimal.uint) :
  d <> Decimal.Nil ->
  BigInt.digits (NilEmpty.string_of_uint d) = Some (Z.of_uint d).
Proof.
  intros Hd. unfold BigInt.digits. rewrite NilEmpty.usu.
  by destruct d.
Qed.

Lemma SetString_unsigned (d : Decimal.uint) :
  d <> Decimal.Nil ->
  BigInt.SetString (NilEmpty.string_of_uint d) = Some (Z.of_uint d).
Proof.
  intros Hd. rewrite <- (digits_string_of_uint d Hd).
  by destruct d.
Qed.

(** Printing a number and parsing it back gives the number. *)
Lemma SetString_String (x : Z) : BigInt.SetString (BigInt.String x) = Some x.
Proof.
  unfold BigInt.String. destruct x as [|p|p]; simpl Z.to_int.
  - reflexivity.
  - pose proof (DecimalPos.Unsigned.to_uint_nonnil p) as Hnil.
    unfold NilZero.string_of_int, NilZero.string_of_uint.
    destruct (Pos.to_uint p) eqn:Hp; [done|..];
      rewrite <- Hp in *; rewrite SetString_unsigned by done;
      unfold Z.of_uint; by rewrite DecimalPos.Unsigned.of_to.
  - pose proof (DecimalPos.Unsigned.to_uint_nonnil p) as Hnil.
    unfold NilZero.string_of_int, NilZero.string_of_uint.
    unfold BigInt.SetString.
    destruct (Pos.to_uint p) eqn:Hp; [done|..];
      rewrite <- Hp in *; rewrite digits_string_of_uint by done;
      unfold Z.of_uint; by rewrite DecimalPos.Unsigned.of_to.
Qed.

(** ** The trace only grows *)

Lemma extends_ret {P A} (a : A) : extends (@ret P A a).
Proof. intros s. exists []. simpl. by rewrite app_nil_r. Qed.

Lemma extends_fail {P A} (e : error) : extends (@fail P A e).
Proof. intros s. exists []. simpl. by rewrite app_nil_r. Qed.

Lemma extends_getObj {P} : extends (@getObj P).
Proof. intros s. exists []. simpl. by rewrite app_nil_r. Qed.

Lemma extends_setObj {P} (p : P) : extends (setObj p).
Proof. intros s. exists []. simpl. by rewrite app_nil_r. Qed.

Lemma extends_emit {P} (e : Event) : extends (@emit P e).
Proof. intros s. by exists [e]. Qed.

Lemma extends_load {P A} (ld : dbr.SelectStmt -> result A) (stmt : dbr.SelectStmt) :
  extends (@load P A ld stmt).
Proof. intros s. by exists [Run stmt]. Qed.

Lemma extends_bind {P A B} (m : M P A) (k : A -> M P B) :
  extends m -> (forall a, extends (k a)) -> extends (bind m k).
Proof.
  intros Hm Hk s. unfold bind.
  destruct (Hm s) as [evs Hevs]. destruct (m s) as [[a|e] s1]; simpl in *.
  - destruct (Hk a s1) as [evs' Hevs']. exists (evs ++ evs').
    by rewrite Hevs', Hevs, app_assoc.
  - by exists evs.
Qed.

Lemma extends_call {P Q A} (q : Q) (m : M Q A) :
  extends m -> extends (@call P Q A q m).
Proof.
  intros Hm s. unfold call.
  destruct (Hm {| obj := q; trace := trace s |}) as [evs Hevs].
  destruct (m _) as [r s1]. simpl in *. by exists evs.
Qed.

Lemma extends_if {P A} (b : bool) (m1 m2 : M P A) :
  extends m1 -> extends m2 -> extends (if b then m1 else m2).
Proof. by destruct b. Qed.

Create HintDb extends.

#[local] Hint Resolve extends_ret extends_fail extends_getObj extends_setObj
  extends_emit extends_load extends_call extends_if : extends.

Ltac extends_tac :=
  repeat first
    [ apply extends_bind; [|intros ?]
    | apply extends_if
    | apply extends_call
    | match goal with
      | |- extends (match ?x with _ => _ end) => destruct x
      end
    | solve [eauto with extends] ].

Lemma extends_dressTransactions {P} (conns : Connections) (dbRunner : string)
    (txs : list Transaction.t) :
  extends (@dressTransactions P conns dbRunner txs).
Proof. unfold dressTransactions. extends_tac. Qed.

Lemma extends_dressAddresses {P} (conns : Connections) (dbRunner : string)
    (addrs : list AddressInfo.t) :
  extends (@dressAddresses P conns dbRunner addrs).
Proof. unfold dressAddresses. extends_tac. Qed.

#[local] Hint Resolve extends_dressTransactions extends_dressAddresses : extends.

(** ** Calls that leave the parameter object alone *)

Lemma keeps_ret {P A} (a : A) : keeps (@ret P A a).
Proof. done. Qed.

Lemma keeps_fail {P A} (e : error) : keeps (@fail P A e).
Proof. done. Qed.

Lemma keeps_load {P A} (ld : dbr.SelectStmt -> result A) (stmt : dbr.SelectStmt) :
  keeps (@load P A ld stmt).
Proof. done. Qed.

Lemma keeps_bind {P A B} (m : M P A) (k : A -> M P B) :
  keeps m -> (forall a, keeps (k a)) -> keeps (bind m k).
Proof.
  intros Hm Hk s. unfold bind. specialize (Hm s).
  destruct (m s) as [[a|e] s1]; simpl in *; [|done]. by rewrite Hk.
Qed.

Lemma keeps_dressTransactions {P} (conns : Connections) (dbRunner : string)
    (txs : list Transaction.t) :
  keeps (@dressTransactions P conns dbRunner txs).
Proof.
  unfold dressTransactions. destruct (_ =? _)%nat; [apply keeps_ret|].
  apply keeps_bind; [apply keeps_load|intros outputs].
  apply keeps_bind; [apply keeps_load|intros inputs].
  destruct (dressRows _ _); [apply keeps_ret|apply keeps_fail].
Qed.

Lemma keeps_dressAddresses {P} (conns : Connections) (dbRunner : string)
    (addrs : list AddressInfo.t) :
  keeps (@dressAddresses P conns dbRunner addrs).
Proof.
  unfold dressAddresses. destruct (_ =? _)%nat; [apply keeps_ret|].
  apply keeps_bind; [apply keeps_load|intros rows]. apply keeps_ret.
Qed.

(** ** What the dressing passes run *)

Lemma dressTransactions_trace {P} (conns : Connections) (dbRunner : string)
    (txs : list Transaction.t) :
  dressOnly (@dressTransactions P conns dbRunner txs).
Proof.
  intros s. unfold dressTransactions. destruct (_ =? _)%nat.
  { exists []. simpl. by rewrite app_nil_r. }
  unfold_m.
  destruct (LoadCompositeRecords conns _) as [outputs|e]; msimpl.
  - exists [Run (dbr.Where (selectOutputs dbRunner)
                   "avm_outputs.transaction_id IN ?" (Transaction.ID <$> txs));
            Run (dbr.Where (selectOutputs dbRunner)
                   "avm_outputs.redeeming_transaction_id IN ?"
                   (Transaction.ID <$> txs))].
    split; [|by repeat constructor].
    destruct (LoadCompositeRecords conns _) as [inputs|e]; msimpl.
    + destruct (dressRows _ _); simpl; by rewrite <- app_assoc.
    + simpl. by rewrite <- app_assoc.
  - eexists [_]. split; [done|]. by repeat constructor.
Qed.

Lemma dressAddresses_trace {P} (conns : Connections) (dbRunner : string)
    (addrs : list AddressInfo.t) :
  dressOnly (@dressAddresses P conns dbRunner addrs).
Proof.
  intros s. unfold dressAddresses. destruct (_ =? _)%nat.
  { exists []. simpl. by rewrite app_nil_r. }
  unfold_m. eexists [_]. split.
  - by destruct (LoadAddressAssets conns _).
  - by repeat constructor.
Qed.

Lemma dress_not_count (evs : list Event) :
  Forall (fun e => isDressEvent e = true) evs -> countIssued evs = false.
Proof.
  unfold countIssued. induction 1 as [|e evs He _ IH]; [done|].
  simpl. rewrite IH, orb_false_r. destruct e as [stmt|]; [|done].
  simpl in *. by destruct (isCountStmt stmt), (String.eqb _ _).
Qed.

(** ** Transaction sort policy *)

Lemma applySort_order (asc_ desc_ : TransactionSort) (dflt : Direction)
    (p : ListTransactionsParams.t) (builder : dbr.SelectStmt)
    (sort : TransactionSort) :
  dbr.Order (applySort asc_ desc_ dflt p builder sort)
  = if String.eqb (ListTransactionsParams.Query p) ""
    then dbr.Order builder
           ++ [("avm_transactions.chain_id", asc);
               ("avm_transactions.created_at",
                sortDirection asc_ desc_ dflt sort)]
    else dbr.Order builder.
Proof.
  unfold applySort, sortDirection.
  destruct (String.eqb (ListTransactionsParams.Query p) ""); simpl; [|done].
  unfold dbr.OrderAsc, dbr.OrderDesc.
  destruct (sort =? asc_); [simpl; by rewrite <- app_assoc|].
  destruct (sort =? desc_); [simpl; by rewrite <- app_assoc|].
  destruct dflt; simpl; by rewrite <- app_assoc.
Qed.

Lemma listTransactionsBuilder_order (needsDistinct : ListTransactionsParams.t -> bool)
    (p : ListTransactionsParams.t) :
  dbr.Order (listTransactionsBuilder needsDistinct p) = [].
Proof. unfold listTransactionsBuilder. by destruct (needsDistinct p). Qed.

(** C8, as the claim states it, fails: for an ascending listing without a
    free-text filter the statement is sorted by chain identifier first and
    creation time second, not by creation time first. *)
Lemma C8_counterexample :
  ~ timeThenChain (listTransactionsStmt noDistinct 1 2 asc ascendingParams).
Proof.
  intros (d & d' & H). vm_compute in H. discriminate H.
Qed.

(** C8 (amended): with a free-text query [ListTransactions] adds no ORDER
    BY; otherwise it orders by chain identifier ascending first and by
    creation time second, ascending or descending as the sort value says,
    an unrecognised sort value standing for the default order; whatever
    the sort value, that statement is the one the call runs. *)
Theorem C8_sort_policy (needsDistinct : ListTransactionsParams.t -> bool)
    (asc_ desc_ : TransactionSort) (dflt : Direction) (conns : Connections)
    (p : ListTransactionsParams.t) (tr : list Event) :
  let stmt := listTransactionsStmt needsDistinct asc_ desc_ dflt p in
  dbr.Order stmt
  = (if String.eqb (ListTransactionsParams.Query p) ""
     then [("avm_transactions.chain_id", asc);
           ("avm_transactions.created_at",
            sortDirection asc_ desc_ dflt (ListTransactionsParams.Sort p))]
     else [])
  /\ exists rest,
      trace (ListTransactions needsDistinct asc_ desc_ dflt conns
               {| obj := p; trace := tr |}).2
      = tr ++ Run stmt :: rest.
Proof.
  split.
  - unfold listTransactionsStmt.
    rewrite applySort_order, listTransactionsBuilder_order.
    by destruct (String.eqb _ _).
  - unfold ListTransactions, bind at 1 2; simpl.
    destruct (LoadTransactions conns _) as [txs|e]; simpl.
    + match goal with
      | |- context [bind ?m ?k ?s] =>
          assert (Hext : extends (bind m k)) by extends_tac;
          destruct (Hext s) as [evs Hevs]
      end.
      rewrite Hevs. simpl. exists evs. by rewrite <- app_assoc.
    + by exists [].
Qed.

(** ** Aggregate: validation of the interval count *)

Lemma requestedIntervalCount_too_large (p : AggregateParams.t) :
  time.wholeSeconds (AggregateParams.IntervalSize p) <> 0 ->
  MaxAggregateIntervalCount < bucketCount p ->
  requestedIntervalCount p = Err ErrAggregateIntervalCountTooLarge.
Proof.
  intros Hs Hn. unfold requestedIntervalCount.
  destruct (Z.eqb_spec (time.wholeSeconds (AggregateParams.IntervalSize p)) 0);
    [done|].
  fold (bucketCount p).
  by destruct (Z.ltb_spec MaxAggregateIntervalCount (bucketCount p)); [|lia].
Qed.

(** C5 (amended): a call whose interval size has whole seconds other
    than zero and whose interval count, as the reader computes it in
    [float64], exceeds 20000 fails with the over-large error and never
    runs the aggregate statement.  With a start time set it issues no
    storage query at all; with the start time unset the one query it
    issues is the lookup of the first transaction time, which supplies the
    start time the count is computed from. *)
Theorem C5_over_large (conns : Connections) (p : AggregateParams.t)
    (tr : list Event) :
  (time.IsZero (AggregateParams.StartTime p) = false ->
   time.wholeSeconds (AggregateParams.IntervalSize p) <> 0 ->
   MaxAggregateIntervalCount < bucketCount p ->
   Aggregate conns {| obj := p; trace := tr |}
   = (Err ErrAggregateIntervalCountTooLarge, {| obj := p; trace := tr |}))
  /\ (time.IsZero (AggregateParams.StartTime p) = true ->
      forall ts,
        LoadOne conns (firstTransactionTimeStmt (AggregateParams.ChainIDs p))
        = Ok ts ->
        let p' := AggregateParams.setStartTime p (time.FromUnix ts) in
        time.wholeSeconds (AggregateParams.IntervalSize p) <> 0 ->
        MaxAggregateIntervalCount < bucketCount p' ->
        Aggregate conns {| obj := p; trace := tr |}
        = (Err ErrAggregateIntervalCountTooLarge,
           {| obj := p';
              trace := tr ++ [Run (firstTransactionTimeStmt
                                     (AggregateParams.ChainIDs p))] |})).
Proof.
  split.
  - intros Hz Hs Hn. unfold Aggregate. unfold_m. rewrite Hz. msimpl.
    by rewrite (requestedIntervalCount_too_large p Hs Hn).
  - intros Hz ts Hts p' Hs Hn. unfold Aggregate, getFirstTransactionTime.
    unfold_m. rewrite Hz. msimpl. rewrite Hts. msimpl. fold p'.
    by rewrite (requestedIntervalCount_too_large p' Hs Hn).
Qed.

Lemma C5_over_large_witness :
  Aggregate emptyConns {| obj := setStartParams; trace := [] |}
  = (Err ErrAggregateIntervalCountTooLarge,
     {| obj := setStartParams; trace := [] |})
  /\ Aggregate emptyConns {| obj := unsetStartParams; trace := [] |}
     = (Err ErrAggregateIntervalCountTooLarge,
        {| obj := AggregateParams.setStartTime unsetStartParams (time.FromUnix 0);
           trace := [Run (firstTransactionTimeStmt [])] |}).
Proof.
  split.
  - apply (proj1 (C5_over_large emptyConns setStartParams []));
      vm_compute; congruence.
  - apply (proj2 (C5_over_large emptyConns unsetStartParams []) eq_refl 0 eq_refl);
      vm_compute; congruence.
Defined.

(** ** Aggregate without an interval size *)

Lemma requestedIntervalCount_no_interval (p : AggregateParams.t) :
  AggregateParams.IntervalSize p = 0 -> requestedIntervalCount p = Ok 0.
Proof. intros H. unfold requestedIntervalCount. by rewrite H. Qed.

Lemma requestedIntervalCount_setStartTime_0 (p : AggregateParams.t) (t : time.Time) :
  AggregateParams.IntervalSize p = 0 ->
  requestedIntervalCount (AggregateParams.setStartTime p t) = Ok 0.
Proof. intros H. by apply requestedIntervalCount_no_interval. Qed.

Lemma aggregateStmt_ungrouped (p : AggregateParams.t) :
  dbr.Group (aggregateStmt p 0) = [].
Proof. reflexivity. Qed.

(** C9: a call with [intervalSize = 0] that succeeds returns a histogram
    whose only interval is the total, the row of the ungrouped aggregate
    statement with the bounds [startTime] (as looked up, when it was unset)
    and [endTime]; its interval sequence is empty and [padTo] has not been
    called.  That an aggregate statement without GROUP BY yields a row is
    the storage's part. *)
Theorem C9_single_interval (conns : Connections) (p : AggregateParams.t)
    (tr : list Event) (h : AggregatesHistogram.t) (s' : St AggregateParams.t) :
  AggregateParams.IntervalSize p = 0 ->
  ungroupedYieldsRow conns ->
  Aggregate conns {| obj := p; trace := tr |} = (Ok h, s') ->
  AggregatesHistogram.Intervals h = []
  /\ Aggregates.StartTime (AggregatesHistogram.Aggregates h)
     = AggregateParams.StartTime (obj s')
  /\ Aggregates.EndTime (AggregatesHistogram.Aggregates h)
     = AggregateParams.EndTime p
  /\ (time.IsZero (AggregateParams.StartTime p) = false -> obj s' = p)
  /\ (exists first rest,
        LoadAggregates conns (aggregateStmt (obj s') 0) = Ok (first :: rest)
        /\ AggregatesHistogram.Aggregates h
           = Aggregates.setTimes first (AggregateParams.StartTime (obj s'))
               (AggregateParams.EndTime p))
  /\ Forall (fun e => isPadTo e = false) (issued tr s').
Proof.
  intros Hsize Hrow. unfold Aggregate, getFirstTransactionTime, issued.
  unfold_m.
  destruct (time.IsZero (AggregateParams.StartTime p)); msimpl.
  - destruct (LoadOne conns _) as [ts|e]; msimpl; [|done].
    rewrite (requestedIntervalCount_setStartTime_0 p _ Hsize). msimpl.
    destruct (LoadAggregates conns _) as [rows|e] eqn:Hload; msimpl; [|done].
    change (0 =? 0) with true. msimpl.
    destruct rows as [|first rest].
    { by apply Hrow in Hload. }
    intros [= <- <-]. simpl. repeat split; try done.
    + by exists first, rest.
    + rewrite <- app_assoc, drop_app_length. by repeat constructor.
  - rewrite (requestedIntervalCount_no_interval p Hsize). msimpl.
    destruct (LoadAggregates conns _) as [rows|e] eqn:Hload; msimpl; [|done].
    change (0 =? 0) with true. msimpl.
    destruct rows as [|first rest].
    { by apply Hrow in Hload. }
    intros [= <- <-]. simpl. repeat split; try done.
    + by exists first, rest.
    + rewrite drop_app_length. by repeat constructor.
Qed.

Lemma C9_single_interval_witness :
  AggregatesHistogram.Intervals wholeRangeHistogram = []
  /\ Aggregates.StartTime (AggregatesHistogram.Aggregates wholeRangeHistogram)
     = time.FromUnix 0
  /\ Aggregates.EndTime (AggregatesHistogram.Aggregates wholeRangeHistogram)
     = time.FromUnix 30000.
Proof.
  destruct (C9_single_interval oneRowConns wholeRangeParams [] wholeRangeHistogram
              {| obj := wholeRangeParams; trace := [Run (aggregateStmt wholeRangeParams 0)] |})
    as (H1 & H2 & H3 & _).
  - reflexivity.
  - intros stmt _ H. vm_compute in H. discriminate H.
  - vm_compute. reflexivity.
  - done.
Defined.

(** ** Aggregate: assembling the histogram *)

Lemma padLoop_seqZ (params : AggregateParams.t) (fuel : nat)
    (slice : list Aggregates.t) (to : Z) :
  fuel = Z.to_nat (to - Z.of_nat (length slice)) ->
  padLoop fuel params slice to
  = slice ++ (emptyInterval params
                <$> seqZ (Z.of_nat (length slice)) (to - Z.of_nat (length slice))).
Proof.
  revert slice. induction fuel as [|fuel IH]; intros slice Hfuel; simpl.
  - rewrite seqZ_nil by lia. by rewrite app_nil_r.
  - destruct (Z.ltb_spec (Z.of_nat (length slice)) to) as [Hlt|Hge]; [|lia].
    rewrite IH by (rewrite length_app; simpl; lia).
    rewrite length_app. simpl.
    rewrite (seqZ_cons (Z.of_nat (length slice))) by lia.
    rewrite fmap_cons, <- app_assoc. simpl. repeat f_equal; lia.
Qed.

Lemma padTo_run {P} (params : AggregateParams.t) (slice : list Aggregates.t)
    (to : Z) (s : St P) :
  padTo params slice to s
  = (Ok (slice ++ (emptyInterval params
                     <$> seqZ (Z.of_nat (length slice))
                           (to - Z.of_nat (length slice)))),
     {| obj := obj s;
        trace := trace s ++ [PadTo (Z.of_nat (length slice)) to] |}).
Proof. unfold padTo. unfold_m. by rewrite padLoop_seqZ. Qed.

Lemma emptyInterval_volume (params : AggregateParams.t) (i : Z) :
  bucketVolume (emptyInterval params i) = 0.
Proof. unfold emptyInterval. by destruct (timesForInterval params i). Qed.

Lemma emptyInterval_zeroed (params : AggregateParams.t) (i : Z) :
  zeroed (emptyInterval params i).
Proof. unfold emptyInterval. by destruct (timesForInterval params i). Qed.

Lemma sumZ_app (l1 l2 : list Z) : sumZ (l1 ++ l2) = sumZ l1 + sumZ l2.
Proof. unfold sumZ. induction l1; simpl; lia. Qed.

Lemma sumZ_cons (x : Z) (l : list Z) : sumZ (x :: l) = x + sumZ l.
Proof. reflexivity. Qed.

Lemma sumZ_zero (l : list Z) : Forall (fun z => z = 0) l -> sumZ l = 0.
Proof. unfold sumZ. induction 1; simpl; lia. Qed.

Lemma sum_empty_intervals (params : AggregateParams.t) (l : list Z) :
  sumZ (bucketVolume <$> (emptyInterval params <$> l)) = 0.
Proof.
  apply sumZ_zero. rewrite <- list_fmap_compose.
  apply Forall_fmap, Forall_forall. intros i _. apply emptyInterval_volume.
Qed.

Lemma find_below (lo n i : Z) (rows : list Aggregates.t) :
  bucketsInOrder lo n rows = true -> i < lo ->
  List.find (fun r => Aggregates.Idx r =? i) rows = None.
Proof.
  revert lo. induction rows as [|r rows IH]; intros lo Hord Hi; [done|].
  simpl in *. apply andb_prop in Hord as [Hr Hrest].
  apply andb_prop in Hr as [Hlo Hn].
  destruct (Z.eqb_spec (Aggregates.Idx r) i); [lia|].
  apply (IH (Aggregates.Idx r + 1)); [done|lia].
Qed.

Lemma bucketAt_below (params : AggregateParams.t) (lo n i : Z)
    (rows : list Aggregates.t) :
  bucketsInOrder lo n rows = true -> i < lo ->
  bucketAt params rows i = emptyInterval params i.
Proof. intros. unfold bucketAt. by erewrite find_below. Qed.

Lemma bucketAt_head (params : AggregateParams.t) (r : Aggregates.t)
    (rows : list Aggregates.t) :
  bucketAt params (r :: rows) (Aggregates.Idx r)
  = Aggregates.setTimes r (timesForInterval params (Aggregates.Idx r)).1
      (timesForInterval params (Aggregates.Idx r)).2.
Proof. unfold bucketAt. simpl. by rewrite Z.eqb_refl. Qed.

Lemma bucketAt_tail (params : AggregateParams.t) (r : Aggregates.t)
    (rows : list Aggregates.t) (i : Z) :
  Aggregates.Idx r <> i ->
  bucketAt params (r :: rows) i = bucketAt params rows i.
Proof.
  intros Hne. unfold bucketAt. simpl.
  by destruct (Z.eqb_spec (Aggregates.Idx r) i).
Qed.

Lemma addIntervals_cons {P} (params : AggregateParams.t) (interval : Aggregates.t)
    (rest : list Aggregates.t) (st : assembly) :
  @addIntervals P params (interval :: rest) st
  = bind (padTo params (asmIntervals st) (Aggregates.Idx interval))
      (fun padded =>
         let '(s, e) := timesForInterval params (Aggregates.Idx interval) in
         let interval := Aggregates.setTimes interval s e in
         match BigInt.SetString (Aggregates.TransactionVolume interval) with
         | None => fail ErrFailedToParseStringAsBigInt
         | Some intervalVolume =>
           addIntervals params rest
             {| asmIntervals := padded ++ [interval];
                asmVolume := asmVolume st + intervalVolume;
                asmTotals := addCounts (asmTotals st) interval |}
         end).
Proof. reflexivity. Qed.

(** The assembly loop: where it ends, as long as every volume parses. *)
Lemma addIntervals_run {P} (params : AggregateParams.t)
    (rows : list Aggregates.t) (st : assembly) (s : St P) :
  volumesParse rows ->
  exists st' s',
    addIntervals params rows st s = (Ok st', s')
    /\ obj s' = obj s
    /\ asmVolume st' = asmVolume st + sumZ (bucketVolume <$> rows)
    /\ sumZ (bucketVolume <$> asmIntervals st')
       = sumZ (bucketVolume <$> asmIntervals st) + sumZ (bucketVolume <$> rows)
    /\ Aggregates.StartTime (asmTotals st') = Aggregates.StartTime (asmTotals st)
    /\ Aggregates.EndTime (asmTotals st') = Aggregates.EndTime (asmTotals st)
    /\ (forall b, b ∈ asmIntervals st' ->
          b ∈ asmIntervals st
          \/ is_Some (BigInt.SetString (Aggregates.TransactionVolume b))
          \/ zeroed b)
    /\ (forall lo n,
          Z.of_nat (length (asmIntervals st)) = lo ->
          bucketsInOrder lo n rows = true ->
          exists hi,
            lo <= hi <= Z.max lo n
            /\ Z.of_nat (length (asmIntervals st')) = hi
            /\ asmIntervals st'
               = asmIntervals st ++ (bucketAt params rows <$> seqZ lo (hi - lo))
            /\ forall i, hi <= i ->
                 bucketAt params rows i = emptyInterval params i).
Proof.
  revert st s. induction rows as [|r rows IH]; intros st s Hparse.
  - exists st, s. simpl. unfold ret.
    repeat split; try (unfold sumZ; simpl; lia); auto.
    intros lo n Hlen _. exists lo. repeat split; try lia.
    rewrite Z.sub_diag. simpl. by rewrite app_nil_r.
  - apply Forall_cons in Hparse as [[v Hv] Hparse].
    rewrite addIntervals_cons. unfold bind at 1. rewrite padTo_run.
    destruct (timesForInterval params (Aggregates.Idx r)) as [ts te] eqn:Htimes.
    cbv zeta.
    change (Aggregates.TransactionVolume (Aggregates.setTimes r ts te))
      with (Aggregates.TransactionVolume r).
    rewrite Hv.
    set (r' := Aggregates.setTimes r ts te).
    set (pads := emptyInterval params
                   <$> seqZ (Z.of_nat (length (asmIntervals st)))
                         (Aggregates.Idx r - Z.of_nat (length (asmIntervals st)))).
    match goal with
    | |- context [addIntervals params rows ?st1 ?s1] =>
        destruct (IH st1 s1 Hparse)
          as (st' & s' & Hrun & Hobj & Hvol & Hsum & Hst & Het & Hmem & Hord)
    end.
    exists st', s'. cbn [asmIntervals asmVolume asmTotals] in *.
    simpl in Hst, Het.
    assert (Hr' : bucketVolume r' = v).
    { unfold bucketVolume, r'. simpl. by rewrite Hv. }
    assert (Hr : bucketVolume r = v).
    { unfold bucketVolume. by rewrite Hv. }
    split; [done|]. split; [done|].
    split. { rewrite Hvol, fmap_cons, sumZ_cons, Hr. lia. }
    split.
    { rewrite Hsum, !fmap_app, !sumZ_app. unfold pads.
      rewrite sum_empty_intervals, !fmap_cons, !sumZ_cons, Hr, Hr'.
      unfold sumZ. simpl. lia. }
    split; [done|]. split; [done|].
    split.
    { intros b Hb. destruct (Hmem b Hb) as [Hin|Hb']; [|by right].
      apply elem_of_app in Hin as [Hin|Hin].
      - apply elem_of_app in Hin as [Hin|Hin]; [by left|].
        right; right. unfold pads in Hin.
        apply list_elem_of_fmap in Hin as (i & -> & _).
        apply emptyInterval_zeroed.
      - apply list_elem_of_singleton in Hin as ->. right; left.
        unfold r'. simpl. by rewrite Hv. }
    intros lo n Hlen Hin. subst lo.
    apply andb_prop in Hin as [Hr0 Hrest]. apply andb_prop in Hr0 as [Hlo Hn].
    apply Z.leb_le in Hlo. apply Z.ltb_lt in Hn.
    destruct (Hord (Aggregates.Idx r + 1) n) as (hi & Hhi & Hlenhi & Heq & Habove);
      [|done|].
    { rewrite !length_app. unfold pads. rewrite length_fmap, length_seqZ.
      simpl. lia. }
    exists hi. split; [lia|]. split; [done|].
    split; [|intros i Hi; rewrite bucketAt_tail by lia; by apply Habove].
    rewrite Heq, <- !app_assoc. f_equal.
    set (lo := Z.of_nat (length (asmIntervals st))) in *.
    replace (hi - lo)
      with ((Aggregates.Idx r - lo) + (1 + (hi - (Aggregates.Idx r + 1))))
      by lia.
    rewrite seqZ_app by lia. rewrite fmap_app.
    replace (lo + (Aggregates.Idx r - lo)) with (Aggregates.Idx r) by lia.
    rewrite (seqZ_cons (Aggregates.Idx r)) by lia.
    rewrite fmap_cons, bucketAt_head, Htimes. simpl.
    replace (Z.succ (Aggregates.Idx r)) with (Aggregates.Idx r + 1) by lia.
    replace (Z.pred (1 + (hi - (Aggregates.Idx r + 1))))
      with (hi - (Aggregates.Idx r + 1)) by lia.
    f_equal; [|f_equal].
    + unfold pads. apply Forall_fmap_ext, Forall_forall. intros i Hi.
      apply elem_of_seqZ in Hi. symmetry.
      rewrite bucketAt_tail by lia.
      apply (bucketAt_below params (Aggregates.Idx r + 1) n); [done|lia].
    + apply Forall_fmap_ext, Forall_forall. intros i Hi.
      apply elem_of_seqZ in Hi. symmetry. apply bucketAt_tail. lia.
Qed.

Lemma addIntervals_ok {P} (params : AggregateParams.t)
    (rows : list Aggregates.t) (st st' : assembly) (s s' : St P) :
  addIntervals params rows st s = (Ok st', s') -> volumesParse rows.
Proof.
  revert st s. induction rows as [|r rows IH]; intros st s; [by constructor|].
  rewrite addIntervals_cons. unfold bind at 1. rewrite padTo_run.
  destruct (timesForInterval params (Aggregates.Idx r)) as [ts te].
  cbv zeta.
  change (Aggregates.TransactionVolume (Aggregates.setTimes r ts te))
    with (Aggregates.TransactionVolume r).
  destruct (BigInt.SetString (Aggregates.TransactionVolume r)) as [v|] eqn:Hv;
    [|done].
  intros Hrun. constructor; [by eexists|by eapply IH].
Qed.

Lemma Aggregate_unfold (conns : Connections) :
  Aggregate conns
  = bind getObj
      (fun params =>
         bind (if time.IsZero (AggregateParams.StartTime params)
               then bind (getFirstTransactionTime conns
                            (AggregateParams.ChainIDs params))
                      (fun t => setObj (AggregateParams.setStartTime params t))
               else ret tt)
           (fun _ => bind getObj (aggregateFrom conns))).
Proof. reflexivity. Qed.

Lemma requestedIntervalCount_range (params : AggregateParams.t) (n : Z) :
  requestedIntervalCount params = Ok n ->
  (n = 0 /\ time.wholeSeconds (AggregateParams.IntervalSize params) = 0)
  \/ (1 <= n <= MaxAggregateIntervalCount
      /\ time.wholeSeconds (AggregateParams.IntervalSize params) <> 0).
Proof.
  unfold requestedIntervalCount.
  destruct (Z.eqb_spec (time.wholeSeconds (AggregateParams.IntervalSize params)) 0).
  { intros [= <-]. by left. }
  destruct (_ <? time.ceilRatio _ _) eqn:Hmax; [done|].
  apply Z.ltb_ge in Hmax.
  destruct (Z.ltb_spec (time.ceilRatio
                          (time.Sub (AggregateParams.EndTime params)
                             (AggregateParams.StartTime params))
                          (AggregateParams.IntervalSize params)) 1);
    intros [= <-]; right; split; try done; unfold MaxAggregateIntervalCount in *;
    lia.
Qed.

(** The multi-bucket path of [Aggregate], when it succeeds. *)
Lemma aggregateFrom_intervals (conns : Connections) (params : AggregateParams.t)
    (s s' : St AggregateParams.t) (h : AggregatesHistogram.t) :
  time.wholeSeconds (AggregateParams.IntervalSize params) <> 0 ->
  aggregateFrom conns params s = (Ok h, s') ->
  exists n rows,
    requestedIntervalCount params = Ok n
    /\ 1 <= n <= MaxAggregateIntervalCount
    /\ LoadAggregates conns (aggregateStmt params n) = Ok rows
    /\ volumesParse rows
    /\ obj s' = obj s
    /\ Aggregates.TransactionVolume (AggregatesHistogram.Aggregates h)
       = BigInt.String (sumZ (bucketVolume <$> rows))
    /\ Aggregates.StartTime (AggregatesHistogram.Aggregates h)
       = AggregateParams.StartTime params
    /\ Aggregates.EndTime (AggregatesHistogram.Aggregates h)
       = AggregateParams.EndTime params
    /\ sumZ (bucketVolume <$> AggregatesHistogram.Intervals h)
       = sumZ (bucketVolume <$> rows)
    /\ (forall b, b ∈ AggregatesHistogram.Intervals h ->
          is_Some (BigInt.SetString (Aggregates.TransactionVolume b))
          \/ zeroed b)
    /\ (bucketsInOrder 0 n rows = true ->
        AggregatesHistogram.Intervals h = bucketAt params rows <$> seqZ 0 n).
Proof.
  intros Hw. unfold aggregateFrom.
  destruct (requestedIntervalCount params) as [n|e] eqn:Hn; [|done].
  destruct (requestedIntervalCount_range params n Hn) as [[_ H0]|[Hrange _]];
    [done|].
  unfold bind at 1, load. msimpl.
  destruct (LoadAggregates conns _) as [rows|e] eqn:Hload; [|done].
  destruct (Z.eqb_spec n 0) as [?|_]; [lia|].
  unfold bind at 1.
  match goal with
  | |- context [addIntervals params rows ?st0 ?s0] =>
      destruct (addIntervals params rows st0 s0) as [[st1|e] s1] eqn:Hrun;
        [|done];
      pose proof (addIntervals_ok _ _ _ _ _ _ Hrun) as Hparse;
      destruct (addIntervals_run params rows st0 s0 Hparse)
        as (st1' & s1' & Hrun' & Hobj & Hvol & Hsum & Hst & Het & Hmem & Hord);
      rewrite Hrun in Hrun'; injection Hrun' as <- <-
  end.
  unfold bind at 1. rewrite padTo_run. unfold ret. intros [= <- <-].
  exists n, rows. cbn [asmIntervals asmVolume asmTotals] in *.
  simpl in Hst, Het, Hobj.
  repeat (split; [done|]).
  split. { simpl. by rewrite Hvol. }
  split; [done|]. split; [done|].
  split.
  { simpl. rewrite fmap_app, sumZ_app, sum_empty_intervals, Hsum.
    unfold sumZ. simpl. lia. }
  split.
  { simpl. intros b Hb. apply elem_of_app in Hb as [Hb|Hb].
    - destruct (Hmem b Hb) as [Hin|Hb']; [|done]. by apply elem_of_nil in Hin.
    - right. apply list_elem_of_fmap in Hb as (i & -> & _).
      apply emptyInterval_zeroed. }
  intros Hin. destruct (Hord 0 n eq_refl Hin) as (hi & Hhi & Hlen & Heq & Habove).
  simpl. rewrite Hlen, Heq. simpl.
  replace n with (hi + (n - hi)) at 2 by lia.
  rewrite seqZ_app by lia. rewrite fmap_app, Z.sub_0_r. f_equal.
  apply Forall_fmap_ext, Forall_forall. intros i Hi.
  apply elem_of_seqZ in Hi. symmetry. apply Habove. lia.
Qed.

Lemma addIntervals_obj {P} (params : AggregateParams.t)
    (rows : list Aggregates.t) (st : assembly) (s : St P) :
  obj (addIntervals params rows st s).2 = obj s.
Proof.
  revert st s. induction rows as [|r rows IH]; intros st s; [done|].
  rewrite addIntervals_cons. unfold bind at 1. rewrite padTo_run.
  destruct (timesForInterval params (Aggregates.Idx r)) as [ts te]. cbv zeta.
  destruct (BigInt.SetString _); [|done]. by rewrite IH.
Qed.

Lemma aggregateFrom_obj (conns : Connections) (params : AggregateParams.t)
    (s : St AggregateParams.t) :
  obj (aggregateFrom conns params s).2 = obj s.
Proof.
  unfold aggregateFrom. destruct (requestedIntervalCount params) as [n|e]; [|done].
  unfold bind at 1, load. msimpl.
  destruct (LoadAggregates conns _) as [rows|e]; [|done].
  destruct (n =? 0).
  - by destruct rows.
  - unfold bind at 1.
    match goal with
    | |- context [addIntervals params rows ?st0 ?s0] =>
        pose proof (addIntervals_obj params rows st0 s0) as Hobj;
        destruct (addIntervals params rows st0 s0) as [[st1|e] s1]
    end; [|done].
    unfold bind at 1. by rewrite padTo_run.
Qed.

(** A successful [Aggregate]: the start time it settled on and the rest of
    the call. *)
Lemma Aggregate_inv (conns : Connections) (p : AggregateParams.t)
    (tr : list Event) (h : AggregatesHistogram.t) (s' : St AggregateParams.t) :
  Aggregate conns {| obj := p; trace := tr |} = (Ok h, s') ->
  exists tr0,
    aggregateFrom conns (obj s') {| obj := obj s'; trace := tr0 |} = (Ok h, s')
    /\ AggregateParams.IntervalSize (obj s') = AggregateParams.IntervalSize p
    /\ AggregateParams.EndTime (obj s') = AggregateParams.EndTime p
    /\ (time.IsZero (AggregateParams.StartTime p) = false -> obj s' = p).
Proof.
  rewrite Aggregate_unfold. unfold getFirstTransactionTime. unfold_m.
  destruct (time.IsZero (AggregateParams.StartTime p)); msimpl.
  - destruct (LoadOne conns _) as [ts|e]; msimpl; [|done].
    intros Hrun.
    pose proof (aggregateFrom_obj conns
                  (AggregateParams.setStartTime p (time.FromUnix ts))
                  {| obj := AggregateParams.setStartTime p (time.FromUnix ts);
                     trace := tr ++ [Run (firstTransactionTimeStmt
                                            (AggregateParams.ChainIDs p))] |})
      as Hobj.
    rewrite Hrun in Hobj. simpl in Hobj. rewrite Hobj.
    eexists. split; [exact Hrun|]. by repeat split.
  - intros Hrun.
    pose proof (aggregateFrom_obj conns p {| obj := p; trace := tr |}) as Hobj.
    rewrite Hrun in Hobj. simpl in Hobj. rewrite Hobj.
    eexists. split; [exact Hrun|]. by repeat split.
Qed.

(** A request with a start time whose statement finds no rows. *)
Lemma Aggregate_no_rows (conns : Connections) (p : AggregateParams.t)
    (tr : list Event) (n : Z) :
  time.IsZero (AggregateParams.StartTime p) = false ->
  requestedIntervalCount p = Ok n ->
  LoadAggregates conns (aggregateStmt p n) = Ok [] ->
  (exists h, (Aggregate conns {| obj := p; trace := tr |}).1 = Ok h)
  /\ In (Run (aggregateStmt p n))
       (trace (Aggregate conns {| obj := p; trace := tr |}).2).
Proof.
  intros Hz Hn Hload. rewrite Aggregate_unfold. unfold_m. rewrite Hz. msimpl.
  unfold aggregateFrom. rewrite Hn. unfold_m. rewrite Hload.
  destruct (n =? 0); msimpl.
  - split; [by eexists|]. apply in_or_app. right. by left.
  - split; [by eexists|].
    unfold padTo. unfold_m. apply in_or_app. left.
    apply in_or_app. right. by left.
Qed.

(** C5, as the claim states it, fails in three ways.  With an unset start
    time the call first asks the storage for the time of the first
    transaction, and only then finds the interval count over the maximum.
    With an interval size below a second the count is not computed at all:
    60000 intervals of half a second are answered by the single total.
    And the count is the ceiling of a [float64] quotient: for 20000 hours
    and a nanosecond in intervals of an hour the quotient rounds to 20000,
    where the number is 20001, and the aggregate statement is run. *)
Lemma C5_counterexample :
  let unset := Aggregate emptyConns {| obj := unsetStartParams; trace := [] |} in
  let half := Aggregate emptyConns {| obj := halfSecondParams; trace := [] |} in
  let hourly := Aggregate emptyConns {| obj := hourlyParams; trace := [] |} in
  (MaxAggregateIntervalCount < bucketCount unsetStartParams
   /\ MaxAggregateIntervalCount < bucketCount (obj unset.2)
   /\ unset.1 = Err ErrAggregateIntervalCountTooLarge
   /\ ~ noStorageQuery (trace unset.2))
  /\ (exactBucketCount halfSecondParams = 60000
      /\ (exists h, half.1 = Ok h)
      /\ ~ noStorageQuery (trace half.2))
  /\ (exactBucketCount hourlyParams = 20001
      /\ bucketCount hourlyParams = 20000
      /\ (exists h, hourly.1 = Ok h)
      /\ ~ noStorageQuery (trace hourly.2)).
Proof.
  split; [|split].
  - repeat split; try (vm_compute; reflexivity).
    intros H. apply (H (firstTransactionTimeStmt [])). vm_compute. by left.
  - destruct (Aggregate_no_rows emptyConns halfSecondParams [] 0)
      as [Hok Hin]; [reflexivity|vm_compute; reflexivity|reflexivity|].
    split; [vm_compute; reflexivity|]. split; [exact Hok|].
    intros H. exact (H _ Hin).
  - destruct (Aggregate_no_rows emptyConns hourlyParams [] 20000)
      as [Hok Hin]; [reflexivity|vm_compute; reflexivity|reflexivity|].
    split; [vm_compute; reflexivity|]. split; [vm_compute; reflexivity|].
    split; [exact Hok|]. intros H. exact (H _ Hin).
Qed.

Lemma timesForInterval_eq (params : AggregateParams.t) (i : Z) :
  timesForInterval params i
  = (time.FromUnix
       (time.Unix (AggregateParams.StartTime params)
        + i * time.wholeSeconds (AggregateParams.IntervalSize params)),
     time.FromUnix
       (time.Unix (AggregateParams.StartTime params)
        + (i + 1) * time.wholeSeconds (AggregateParams.IntervalSize params) - 1)).
Proof. unfold timesForInterval. do 2 f_equal. lia. Qed.

Lemma bucketAt_shape (params : AggregateParams.t) (rows : list Aggregates.t)
    (lo n i : Z) :
  bucketsInOrder lo n rows = true ->
  let b := bucketAt params rows i in
  Aggregates.Idx b = i
  /\ Aggregates.StartTime b = (timesForInterval params i).1
  /\ Aggregates.EndTime b = (timesForInterval params i).2
  /\ match List.find (fun r => Aggregates.Idx r =? i) rows with
     | Some r =>
       r ∈ rows
       /\ b = Aggregates.setTimes r (timesForInterval params i).1
               (timesForInterval params i).2
     | None => zeroed b
     end.
Proof.
  intros _. unfold bucketAt.
  destruct (List.find _ rows) as [r|] eqn:Hfind; simpl.
  - apply find_some in Hfind as [Hin Hidx]. apply Z.eqb_eq in Hidx.
    repeat split; try done. by apply list_elem_of_In.
  - unfold emptyInterval. destruct (timesForInterval params i). by repeat split.
Qed.

(** When the rows of the grouped statement come in ascending index order
    within [0, n), a successful histogram request with an interval size of
    [w > 0] seconds and requested count [n] returns exactly [n] intervals;
    the interval at position [i] has index [i], starts at second
    [startTime + i*w] and ends at second [startTime + (i+1)*w - 1]; it is
    the loaded row of that index when there is one and otherwise a
    synthesized interval with zeroed counters. *)
Lemma Aggregate_intervals (conns : Connections) (p : AggregateParams.t)
    (tr : list Event) (h : AggregatesHistogram.t) (s' : St AggregateParams.t)
    (n : Z) :
  0 < time.wholeSeconds (AggregateParams.IntervalSize p) ->
  Aggregate conns {| obj := p; trace := tr |} = (Ok h, s') ->
  requestedIntervalCount (obj s') = Ok n ->
  (forall rows, LoadAggregates conns (aggregateStmt (obj s') n) = Ok rows ->
                bucketsInOrder 0 n rows = true) ->
  let w := time.wholeSeconds (AggregateParams.IntervalSize p) in
  let start := time.Unix (AggregateParams.StartTime (obj s')) in
  1 <= n
  /\ Z.of_nat (length (AggregatesHistogram.Intervals h)) = n
  /\ forall (i : nat) (b : Aggregates.t),
      AggregatesHistogram.Intervals h !! i = Some b ->
      Aggregates.Idx b = Z.of_nat i
      /\ Aggregates.StartTime b = time.FromUnix (start + Z.of_nat i * w)
      /\ Aggregates.EndTime b = time.FromUnix (start + (Z.of_nat i + 1) * w - 1)
      /\ (zeroed b
          \/ exists r rows,
              LoadAggregates conns (aggregateStmt (obj s') n) = Ok rows
              /\ r ∈ rows /\ Aggregates.Idx r = Z.of_nat i
              /\ b = Aggregates.setTimes r (Aggregates.StartTime b)
                      (Aggregates.EndTime b)).
Proof.
  intros Hw Hrun Hn Hstorage w start.
  destruct (Aggregate_inv conns p tr h s' Hrun) as (tr0 & Hfrom & Hsize & _ & _).
  apply aggregateFrom_intervals in Hfrom; [|rewrite Hsize; lia].
  destruct Hfrom as (n' & rows & Hn' & Hrange & Hload & _ & _ & _ & _ & _ & _ & _
                     & Hintervals).
  rewrite Hn in Hn'. injection Hn' as <-.
  specialize (Hstorage rows Hload). specialize (Hintervals Hstorage).
  split; [lia|]. split.
  { rewrite Hintervals, length_fmap, length_seqZ. lia. }
  intros i b Hb. rewrite Hintervals, list_lookup_fmap in Hb.
  destruct (seqZ 0 n !! i) as [z|] eqn:Hz; [|done].
  apply lookup_seqZ in Hz as [-> _]. simpl in Hb. injection Hb as <-.
  rewrite Z.add_0_l.
  destruct (bucketAt_shape (obj s') rows 0 n (Z.of_nat i) Hstorage)
    as (Hidx & Hs & He & Hrow).
  rewrite timesForInterval_eq in Hs, He, Hrow. simpl in Hs, He, Hrow.
  rewrite Hsize in Hs, He, Hrow. fold w start in Hs, He, Hrow.
  repeat (split; [done|]).
  destruct (List.find _ rows) as [r|] eqn:Hfind; [|by left].
  right. exists r, rows. destruct Hrow as [Hin Hb].
  apply find_some in Hfind as [_ Hri]. apply Z.eqb_eq in Hri.
  repeat (split; [done|]). by rewrite Hs, He.
Qed.

Example Aggregate_intervals_five :
  Z.of_nat (length (AggregatesHistogram.Intervals fiveBuckets)) = 5.
Proof.
  refine (proj1 (proj2 (Aggregate_intervals histConns histParams []
                          fiveBuckets fiveBucketsState 5 _ _ _ _))).
  - vm_compute. reflexivity.
  - vm_compute. reflexivity.
  - vm_compute. reflexivity.
  - intros rows H. vm_compute in H. injection H as <-. vm_compute. reflexivity.
Qed.

(** C2 fails when the interval size is not a whole number of seconds:
    the count is computed from the interval size as given (3 s / 1.5 s, two
    intervals), the bucket indices and bounds from its whole seconds (one
    second wide), so an output created in the third second comes back with
    index 2 and the histogram has three intervals where two were
    requested. *)
Theorem C2_fractional_interval :
  let r := Aggregate (outputsConns thirdSecond)
             {| obj := fractionalParams; trace := [] |} in
  requestedIntervalCount fractionalParams = Ok 2
  /\ time.wholeSeconds (AggregateParams.IntervalSize fractionalParams) = 1
  /\ LoadAggregates (outputsConns thirdSecond) (aggregateStmt fractionalParams 2)
     = Ok [bucketRow (2, 7, 1)]
  /\ intervalBounds r.1 = [(0, 0, 0); (1, 1, 1); (2, 2, 2)].
Proof. repeat split; vm_compute; reflexivity. Qed.

(** C3: in a successful histogram with an interval size, every interval
    either carries a volume that parses or is a synthesized one without a
    volume, and the total's volume is the decimal form of the exact sum of
    the intervals' volumes, synthesized intervals counting zero. *)
Theorem C3_total_volume (conns : Connections) (p : AggregateParams.t)
    (tr : list Event) (h : AggregatesHistogram.t) (s' : St AggregateParams.t) :
  time.wholeSeconds (AggregateParams.IntervalSize p) <> 0 ->
  Aggregate conns {| obj := p; trace := tr |} = (Ok h, s') ->
  let total := sumZ (bucketVolume <$> AggregatesHistogram.Intervals h) in
  Aggregates.TransactionVolume (AggregatesHistogram.Aggregates h)
  = BigInt.String total
  /\ BigInt.SetString
       (Aggregates.TransactionVolume (AggregatesHistogram.Aggregates h))
     = Some total
  /\ forall b, b ∈ AggregatesHistogram.Intervals h ->
       is_Some (BigInt.SetString (Aggregates.TransactionVolume b)) \/ zeroed b.
Proof.
  intros Hw Hrun total.
  destruct (Aggregate_inv conns p tr h s' Hrun) as (tr0 & Hfrom & Hsize & _ & _).
  apply aggregateFrom_intervals in Hfrom; [|by rewrite Hsize].
  destruct Hfrom as (n & rows & _ & _ & _ & _ & _ & Hvol & _ & _ & Hsum & Hmem & _).
  unfold total. rewrite Hsum, Hvol. split; [done|]. split; [|done].
  apply SetString_String.
Qed.

Lemma C3_total_volume_witness :
  Aggregates.TransactionVolume (AggregatesHistogram.Aggregates fiveBuckets)
  = "18".
Proof.
  refine (proj1 (C3_total_volume histConns histParams [] fiveBuckets
                   fiveBucketsState _ _)).
  - vm_compute. congruence.
  - vm_compute. reflexivity.
Defined.

(** ** The list readers, step by step *)

Lemma ListAssets_run (conns : Connections) (p : ListAssetsParams.t)
    (tr : list Event) :
  ListAssets conns {| obj := p; trace := tr |}
  = match LoadAssets conns (listAssetsStmt p) with
    | Err e => (Err e, {| obj := p; trace := tr ++ [Run (listAssetsStmt p)] |})
    | Ok assets =>
      if ListParams.DisableCounting (ListAssetsParams.ListParams p)
      then (Ok {| AssetList.Count := 0; AssetList.Assets := assets |},
            {| obj := p; trace := tr ++ [Run (listAssetsStmt p)] |})
      else if ge_int (length assets)
                (ListParams.Limit (ListAssetsParams.ListParams p))
      then
        let p0 := ListAssetsParams.setListParams p ListParams.zero in
        (match LoadOne conns (countAssetsStmt p0) with
         | Ok count =>
           Ok {| AssetList.Count := count; AssetList.Assets := assets |}
         | Err e => Err e
         end,
         {| obj := p0;
            trace := (tr ++ [Run (listAssetsStmt p)])
                     ++ [Run (countAssetsStmt p0)] |})
      else (Ok {| AssetList.Count :=
                    pageCount (ListAssetsParams.ListParams p) (length assets);
                  AssetList.Assets := assets |},
            {| obj := p; trace := tr ++ [Run (listAssetsStmt p)] |})
    end.
Proof.
  unfold ListAssets. unfold_m.
  destruct (LoadAssets conns _) as [assets|e]; [|done].
  destruct (ListParams.DisableCounting _); [done|].
  destruct (ge_int _ _); [|done]. msimpl.
  by destruct (LoadOne conns _).
Qed.

Lemma ListTransactions_run (needsDistinct : ListTransactionsParams.t -> bool)
    (asc_ desc_ : TransactionSort) (dflt : Direction) (conns : Connections)
    (p : ListTransactionsParams.t) (tr : list Event) :
  let list := listTransactionsStmt needsDistinct asc_ desc_ dflt p in
  ListTransactions needsDistinct asc_ desc_ dflt conns {| obj := p; trace := tr |}
  = match LoadTransactions conns list with
    | Err e => (Err e, {| obj := p; trace := tr ++ [Run list] |})
    | Ok txs =>
      if ListParams.DisableCounting (ListTransactionsParams.ListParams p)
      then finishTransactions conns (Ok 0) txs
             {| obj := p; trace := tr ++ [Run list] |}
      else if ge_int (length txs)
                (ListParams.Limit (ListTransactionsParams.ListParams p))
      then
        let p0 := ListTransactionsParams.setListParams p ListParams.zero in
        finishTransactions conns
          (LoadOne conns (countTransactionsStmt needsDistinct p0)) txs
          {| obj := p0;
             trace := (tr ++ [Run list])
                      ++ [Run (countTransactionsStmt needsDistinct p0)] |}
      else finishTransactions conns
             (Ok (pageCount (ListTransactionsParams.ListParams p) (length txs)))
             txs {| obj := p; trace := tr ++ [Run list] |}
    end.
Proof.
  intros list. unfold ListTransactions, finishTransactions. unfold_m.
  fold list. destruct (LoadTransactions conns list) as [txs|e]; [|done].
  destruct (ListParams.DisableCounting _).
  { msimpl. by destruct (dressTransactions _ _ _ _) as [[?|?] ?]. }
  destruct (ge_int _ _); msimpl.
  - destruct (LoadOne conns _); [|done].
    by destruct (dressTransactions _ _ _ _) as [[?|?] ?].
  - by destruct (dressTransactions _ _ _ _) as [[?|?] ?].
Qed.

Lemma ListAddresses_run (conns : Connections) (p : ListAddressesParams.t)
    (tr : list Event) :
  ListAddresses conns {| obj := p; trace := tr |}
  = match LoadAddresses conns (listAddressesStmt p) with
    | Err e =>
      (Err e, {| obj := p; trace := tr ++ [Run (listAddressesStmt p)] |})
    | Ok addresses =>
      if ListParams.DisableCounting (ListAddressesParams.ListParams p)
      then finishAddresses conns (Ok 0) addresses
             {| obj := p; trace := tr ++ [Run (listAddressesStmt p)] |}
      else if ge_int (length addresses)
                (ListParams.Limit (ListAddressesParams.ListParams p))
      then
        let p0 := ListAddressesParams.setListParams p ListParams.zero in
        finishAddresses conns (LoadOne conns (countAddressesStmt p0)) addresses
          {| obj := p0;
             trace := (tr ++ [Run (listAddressesStmt p)])
                      ++ [Run (countAddressesStmt p0)] |}
      else finishAddresses conns
             (Ok (pageCount (ListAddressesParams.ListParams p)
                    (length addresses)))
             addresses
             {| obj := p; trace := tr ++ [Run (listAddressesStmt p)] |}
    end.
Proof.
  unfold ListAddresses, finishAddresses. unfold_m.
  destruct (LoadAddresses conns _) as [addresses|e]; [|done].
  destruct (ListParams.DisableCounting _).
  { msimpl. by destruct (dressAddresses _ _ _ _) as [[?|?] ?]. }
  destruct (ge_int _ _); msimpl.
  - destruct (LoadOne conns _); [|done].
    by destruct (dressAddresses _ _ _ _) as [[?|?] ?].
  - by destruct (dressAddresses _ _ _ _) as [[?|?] ?].
Qed.

Lemma ListOutputs_run (conns : Connections) (p : ListOutputsParams.t)
    (tr : list Event) :
  let list := listOutputsStmt p in
  ListOutputs conns {| obj := p; trace := tr |}
  = match LoadOutputs conns list with
    | Err e => (Err e, {| obj := p; trace := tr ++ [Run list] |})
    | Ok outputs =>
      if (length outputs <? 1)%nat
      then (Ok {| OutputList.Count := 0; OutputList.Outputs := outputs |},
            {| obj := p; trace := tr ++ [Run list] |})
      else
        let addrs := outputAddressesStmt (Output.ID <$> outputs) in
        match LoadOutputAddresses conns addrs with
        | Err e => (Err e, {| obj := p; trace := (tr ++ [Run list]) ++ [Run addrs] |})
        | Ok addresses =>
          let outputs' :=
            fold_left (appendAddress (indexBy Output.ID 0%nat outputs ∅))
              addresses outputs in
          if ListParams.DisableCounting (ListOutputsParams.ListParams p)
          then (Ok {| OutputList.Count := 0; OutputList.Outputs := outputs' |},
                {| obj := p; trace := (tr ++ [Run list]) ++ [Run addrs] |})
          else if ge_int (length outputs)
                    (ListParams.Limit (ListOutputsParams.ListParams p))
          then
            let p0 := ListOutputsParams.setListParams p ListParams.zero in
            (match LoadOne conns (countOutputsStmt p0) with
             | Ok count =>
               Ok {| OutputList.Count := count; OutputList.Outputs := outputs' |}
             | Err e => Err e
             end,
             {| obj := p0;
                trace := ((tr ++ [Run list]) ++ [Run addrs])
                         ++ [Run (countOutputsStmt p0)] |})
          else (Ok {| OutputList.Count :=
                        pageCount (ListOutputsParams.ListParams p)
                          (length outputs);
                      OutputList.Outputs := outputs' |},
                {| obj := p; trace := (tr ++ [Run list]) ++ [Run addrs] |})
        end
    end.
Proof.
  intros list. unfold ListOutputs. unfold_m. fold list.
  destruct (LoadOutputs conns list) as [outputs|e]; [|done].
  destruct (_ <? _)%nat; [done|]. msimpl.
  destruct (LoadOutputAddresses conns _) as [addresses|e]; [|done].
  destruct (ListParams.DisableCounting _); [done|].
  destruct (ge_int _ _); [|done]. msimpl.
  by destruct (LoadOne conns _).
Qed.

(** ** Counting *)

Lemma issued_app {P} (tr evs : list Event) (p : P) :
  issued tr {| obj := p; trace := tr ++ evs |} = evs.
Proof. unfold issued. simpl. apply drop_app_length. Qed.

Lemma issued_app2 {P} (tr : list Event) (e1 e2 : Event) (p : P) :
  issued tr {| obj := p; trace := (tr ++ [e1]) ++ [e2] |} = [e1; e2].
Proof. rewrite <- app_assoc. apply issued_app. Qed.

Lemma issued_app3 {P} (tr : list Event) (e1 e2 e3 : Event) (p : P) :
  issued tr {| obj := p; trace := ((tr ++ [e1]) ++ [e2]) ++ [e3] |}
  = [e1; e2; e3].
Proof. rewrite <- !app_assoc. apply issued_app. Qed.

(** [ListAssets] does what C6 says: with counting enabled and the page
    loaded, the count statement is run exactly when the page is saturated,
    and otherwise the count is [offset] plus the number of rows. *)
Lemma ListAssets_counting (conns : Connections) (p : ListAssetsParams.t)
    (tr : list Event) (assets : list Asset.t) :
  ListParams.DisableCounting (ListAssetsParams.ListParams p) = false ->
  LoadAssets conns (listAssetsStmt p) = Ok assets ->
  let r := ListAssets conns {| obj := p; trace := tr |} in
  let saturated :=
    ge_int (length assets) (ListParams.Limit (ListAssetsParams.ListParams p)) in
  countIssued (issued tr r.2) = saturated
  /\ (saturated = false ->
      r.1 = Ok {| AssetList.Count :=
                    pageCount (ListAssetsParams.ListParams p) (length assets);
                  AssetList.Assets := assets |}).
Proof.
  intros Hcount Hload r saturated. unfold r, saturated.
  rewrite ListAssets_run, Hload, Hcount.
  destruct (ge_int _ _); cbv zeta.
  - split; [|done]. cbn [snd]. by rewrite issued_app2.
  - split; [|done]. cbn [snd]. by rewrite issued_app.
Qed.

(** [ListOutputs] does the same as long as the page is not empty. *)
Lemma ListOutputs_counting (conns : Connections) (p : ListOutputsParams.t)
    (tr : list Event) (outputs : list Output.t)
    (addresses : list OutputAddress.t) :
  ListParams.DisableCounting (ListOutputsParams.ListParams p) = false ->
  LoadOutputs conns (listOutputsStmt p) = Ok outputs ->
  outputs <> [] ->
  LoadOutputAddresses conns (outputAddressesStmt (Output.ID <$> outputs))
  = Ok addresses ->
  let r := ListOutputs conns {| obj := p; trace := tr |} in
  let saturated :=
    ge_int (length outputs) (ListParams.Limit (ListOutputsParams.ListParams p)) in
  countIssued (issued tr r.2) = saturated
  /\ (saturated = false ->
      OutputList.Count <$> (match r.1 with Ok l => Some l | Err _ => None end)
      = Some (pageCount (ListOutputsParams.ListParams p) (length outputs))).
Proof.
  intros Hcount Hload Hne Haddrs r saturated. unfold r, saturated.
  rewrite ListOutputs_run. cbv zeta. rewrite Hload.
  destruct outputs as [|o outputs]; [done|].
  change (length (o :: outputs) <? 1)%nat with false. cbv iota.
  rewrite Haddrs, Hcount.
  destruct (ge_int _ _).
  - split; [|done]. cbn [snd]. by rewrite issued_app3.
  - split; [|done]. cbn [snd]. by rewrite issued_app2.
Qed.

(** C6 fails on [ListOutputs] when the page is empty: the early return
    reports count 0 where [offset + 0 = 5] is due, and with no limit (the
    page is saturated) it runs no count statement; [ListAssets] on the same
    parameters reports 5 and runs the count statement. *)
Theorem C6_ListOutputs_empty_page :
  ListOutputs emptyConns {| obj := pagedOutputs; trace := [] |}
  = (Ok {| OutputList.Count := 0; OutputList.Outputs := [] |},
     {| obj := pagedOutputs; trace := [Run (listOutputsStmt pagedOutputs)] |})
  /\ pageCount (ListOutputsParams.ListParams pagedOutputs) 0 = 5
  /\ ListAssets emptyConns {| obj := pagedAssets; trace := [] |}
     = (Ok {| AssetList.Count := 5; AssetList.Assets := [] |},
        {| obj := pagedAssets; trace := [Run (listAssetsStmt pagedAssets)] |})
  /\ ge_int 0 (ListParams.Limit (ListOutputsParams.ListParams unpagedOutputs))
     = true
  /\ countIssued
       (trace (ListOutputs emptyConns {| obj := unpagedOutputs; trace := [] |}).2)
     = false
  /\ countIssued
       (trace (ListAssets emptyConns {| obj := unpagedAssets; trace := [] |}).2)
     = true.
Proof. repeat split; vm_compute; reflexivity. Qed.

(** ** The parameter object after the count statement *)

Lemma finishTransactions_state (conns : Connections) (count : result Z)
    (txs : list Transaction.t) (s : St ListTransactionsParams.t) :
  let s' := (finishTransactions conns count txs s).2 in
  obj s' = obj s /\ exists evs, trace s' = trace s ++ evs.
Proof.
  unfold finishTransactions. destruct count as [c|e]; cbn [snd].
  - split; [apply keeps_dressTransactions|apply extends_dressTransactions].
  - split; [done|]. exists []. by rewrite app_nil_r.
Qed.

Lemma finishAddresses_state (conns : Connections) (count : result Z)
    (addresses : list AddressInfo.t) (s : St ListAddressesParams.t) :
  let s' := (finishAddresses conns count addresses s).2 in
  obj s' = obj s /\ exists evs, trace s' = trace s ++ evs.
Proof.
  unfold finishAddresses. destruct count as [c|e]; cbn [snd].
  - split; [apply keeps_dressAddresses|apply extends_dressAddresses].
  - split; [done|]. exists []. by rewrite app_nil_r.
Qed.

(** C10: when a list call runs its count statement, the parameter object
    the caller passed holds the zero [ListParams] from then on: the count
    statement is built from the cleared object, nothing restores it, and
    the object no longer equals the one passed in (unless its [ListParams]
    were the zero value to begin with).  The other fields stay as they
    were. *)
Theorem C10_params_cleared :
  (forall (conns : Connections) (p : ListAssetsParams.t) (tr : list Event)
          (assets : list Asset.t),
      ListParams.DisableCounting (ListAssetsParams.ListParams p) = false ->
      LoadAssets conns (listAssetsStmt p) = Ok assets ->
      ge_int (length assets) (ListParams.Limit (ListAssetsParams.ListParams p))
      = true ->
      clearedBy ListAssetsParams.ListParams
        (ListAssetsParams.setListParams p ListParams.zero) countAssetsStmt
        p tr (ListAssets conns {| obj := p; trace := tr |}).2)
  /\ (forall (needsDistinct : ListTransactionsParams.t -> bool)
             (asc_ desc_ : TransactionSort) (dflt : Direction)
             (conns : Connections) (p : ListTransactionsParams.t)
             (tr : list Event) (txs : list Transaction.t),
        ListParams.DisableCounting (ListTransactionsParams.ListParams p) = false ->
        LoadTransactions conns
          (listTransactionsStmt needsDistinct asc_ desc_ dflt p) = Ok txs ->
        ge_int (length txs)
          (ListParams.Limit (ListTransactionsParams.ListParams p)) = true ->
        clearedBy ListTransactionsParams.ListParams
          (ListTransactionsParams.setListParams p ListParams.zero)
          (countTransactionsStmt needsDistinct) p tr
          (ListTransactions needsDistinct asc_ desc_ dflt conns
             {| obj := p; trace := tr |}).2)
  /\ (forall (conns : Connections) (p : ListAddressesParams.t)
             (tr : list Event) (addresses : list AddressInfo.t),
        ListParams.DisableCounting (ListAddressesParams.ListParams p) = false ->
        LoadAddresses conns (listAddressesStmt p) = Ok addresses ->
        ge_int (length addresses)
          (ListParams.Limit (ListAddressesParams.ListParams p)) = true ->
        clearedBy ListAddressesParams.ListParams
          (ListAddressesParams.setListParams p ListParams.zero)
          countAddressesStmt p tr
          (ListAddresses conns {| obj := p; trace := tr |}).2)
  /\ (forall (conns : Connections) (p : ListOutputsParams.t)
             (tr : list Event) (outputs : list Output.t)
             (addresses : list OutputAddress.t),
        ListParams.DisableCounting (ListOutputsParams.ListParams p) = false ->
        LoadOutputs conns (listOutputsStmt p) = Ok outputs ->
        outputs <> [] ->
        LoadOutputAddresses conns (outputAddressesStmt (Output.ID <$> outputs))
        = Ok addresses ->
        ge_int (length outputs)
          (ListParams.Limit (ListOutputsParams.ListParams p)) = true ->
        clearedBy ListOutputsParams.ListParams
          (ListOutputsParams.setListParams p ListParams.zero)
          countOutputsStmt p tr
          (ListOutputs conns {| obj := p; trace := tr |}).2).
Proof.
  repeat apply conj.
  - intros conns p tr assets Hcount Hload Hsat.
    rewrite ListAssets_run, Hload, Hcount, Hsat. cbv zeta. cbn [snd].
    unfold clearedBy. cbn [obj]. rewrite issued_app2.
    repeat split; try done; [simpl; tauto|].
    intros Hne Heq. apply Hne. by rewrite <- Heq.
  - intros needsDistinct asc_ desc_ dflt conns p tr txs Hcount Hload Hsat.
    rewrite ListTransactions_run. cbv zeta. rewrite Hload, Hcount, Hsat.
    match goal with
    | |- clearedBy _ _ _ _ _ (finishTransactions ?c ?r ?t ?s).2 =>
        destruct (finishTransactions_state c r t s) as [Hobj [evs Hevs]]
    end.
    unfold clearedBy, issued. rewrite Hobj, Hevs. cbn [obj trace].
    rewrite <- !app_assoc, drop_app_length.
    repeat split; try done; [simpl; tauto|].
    intros Hne Heq. apply Hne. by rewrite <- Heq.
  - intros conns p tr addresses Hcount Hload Hsat.
    rewrite ListAddresses_run, Hload, Hcount, Hsat. cbv zeta.
    match goal with
    | |- clearedBy _ _ _ _ _ (finishAddresses ?c ?r ?t ?s).2 =>
        destruct (finishAddresses_state c r t s) as [Hobj [evs Hevs]]
    end.
    unfold clearedBy, issued. rewrite Hobj, Hevs. cbn [obj trace].
    rewrite <- !app_assoc, drop_app_length.
    repeat split; try done; [simpl; tauto|].
    intros Hne Heq. apply Hne. by rewrite <- Heq.
  - intros conns p tr outputs addresses Hcount Hload Hne Haddrs Hsat.
    rewrite ListOutputs_run. cbv zeta. rewrite Hload.
    destruct outputs as [|o outputs]; [done|].
    change (length (o :: outputs) <? 1)%nat with false. cbv iota.
    rewrite Haddrs, Hcount, Hsat. cbn [snd].
    unfold clearedBy. cbn [obj]. rewrite issued_app3.
    repeat split; try done; [simpl; tauto|].
    intros Hne' Heq. apply Hne'. by rewrite <- Heq.
Qed.

Lemma C10_params_cleared_witness :
  obj (ListAssets oneAssetConns {| obj := firstOfOne; trace := [] |}).2
  = ListAssetsParams.setListParams firstOfOne ListParams.zero
  /\ obj (ListAssets oneAssetConns {| obj := firstOfOne; trace := [] |}).2
     <> firstOfOne.
Proof.
  destruct (proj1 C10_params_cleared oneAssetConns firstOfOne [] [asset "A"])
    as (H1 & _ & _ & H4).
  - reflexivity.
  - reflexivity.
  - reflexivity.
  - split; [exact H1|]. apply H4. vm_compute. discriminate.
Defined.

(** ** Search *)

Lemma dress_entities (evs : list Event) :
  Forall (fun e => isDressEvent e = true) evs -> entities evs = [].
Proof.
  unfold entities. induction 1 as [|e evs He _ IH]; [done|].
  change (omap entityOf (e :: evs))
    with (match entityOf e with
          | Some y => y :: omap entityOf evs
          | None => omap entityOf evs
          end).
  rewrite IH. destruct e as [stmt|]; [|done]. simpl in *.
  destruct (String.eqb_spec (dbr.Table stmt) "avm_outputs") as [->|]; [done|].
  done.
Qed.

Lemma dress_countingDisabled (evs : list Event) :
  Forall (fun e => isDressEvent e = true) evs ->
  Forall (fun e => countingDisabled e = true) evs.
Proof.
  intros H. eapply Forall_impl; [exact H|].
  intros [stmt|] He; [|done]. simpl in *.
  destruct (isCountStmt stmt); [by rewrite andb_false_r in He|].
  by destruct (dbr.Applied stmt), (String.eqb _ _).
Qed.

Lemma ListAssets_nocount (conns : Connections) (p : ListAssetsParams.t)
    (tr : list Event) :
  ListParams.DisableCounting (ListAssetsParams.ListParams p) = true ->
  ListAssets conns {| obj := p; trace := tr |}
  = (match LoadAssets conns (listAssetsStmt p) with
     | Ok assets => Ok {| AssetList.Count := 0; AssetList.Assets := assets |}
     | Err e => Err e
     end,
     {| obj := p; trace := tr ++ [Run (listAssetsStmt p)] |}).
Proof.
  intros H. rewrite ListAssets_run, H. by destruct (LoadAssets conns _).
Qed.

Lemma ListTransactions_nocount (needsDistinct : ListTransactionsParams.t -> bool)
    (asc_ desc_ : TransactionSort) (dflt : Direction) (conns : Connections)
    (p : ListTransactionsParams.t) (tr : list Event) :
  ListParams.DisableCounting (ListTransactionsParams.ListParams p) = true ->
  exists devs,
    Forall (fun e => isDressEvent e = true) devs
    /\ (ListTransactions needsDistinct asc_ desc_ dflt conns
          {| obj := p; trace := tr |}).2
       = {| obj := p;
            trace := (tr ++ [Run (listTransactionsStmt needsDistinct asc_ desc_
                                    dflt p)]) ++ devs |}.
Proof.
  intros H. rewrite ListTransactions_run. cbv zeta. rewrite H.
  destruct (LoadTransactions conns _) as [txs|e].
  - unfold finishTransactions. cbn [snd].
    match goal with
    | |- context [dressTransactions ?c ?d ?t ?s] =>
        destruct (dressTransactions_trace c d t s) as (devs & Htr & Hdress);
        pose proof (keeps_dressTransactions c d t s) as Hobj;
        destruct (dressTransactions c d t s) as [r s1]
    end.
    exists devs. split; [done|]. destruct s1. simpl in *. by subst.
  - exists []. split; [done|]. simpl. by rewrite app_nil_r.
Qed.

Lemma ListAddresses_nocount (conns : Connections) (p : ListAddressesParams.t)
    (tr : list Event) :
  ListParams.DisableCounting (ListAddressesParams.ListParams p) = true ->
  exists devs,
    Forall (fun e => isDressEvent e = true) devs
    /\ (ListAddresses conns {| obj := p; trace := tr |}).2
       = {| obj := p; trace := (tr ++ [Run (listAddressesStmt p)]) ++ devs |}.
Proof.
  intros H. rewrite ListAddresses_run, H.
  destruct (LoadAddresses conns _) as [addresses|e].
  - unfold finishAddresses. cbn [snd].
    match goal with
    | |- context [dressAddresses ?c ?d ?t ?s] =>
        destruct (dressAddresses_trace c d t s) as (devs & Htr & Hdress);
        pose proof (keeps_dressAddresses c d t s) as Hobj;
        destruct (dressAddresses c d t s) as [r s1]
    end.
    exists devs. split; [done|]. destruct s1. simpl in *. by subst.
  - exists []. split; [done|]. simpl. by rewrite app_nil_r.
Qed.

Lemma listTransactionsStmt_shape (needsDistinct : ListTransactionsParams.t -> bool)
    (asc_ desc_ : TransactionSort) (dflt : Direction)
    (p : ListTransactionsParams.t) :
  let stmt := listTransactionsStmt needsDistinct asc_ desc_ dflt p in
  dbr.Table stmt = "avm_transactions"
  /\ dbr.Applied stmt = AppliedTransactions p
  /\ isCountStmt stmt = false.
Proof.
  unfold listTransactionsStmt, applySort, listTransactionsBuilder.
  destruct (negb _), (needsDistinct p),
    (ListTransactionsParams.Sort p =? asc_),
    (ListTransactionsParams.Sort p =? desc_), dflt;
    by repeat split.
Qed.

Lemma entityOf_listAssets (p : ListAssetsParams.t) :
  entityOf (Run (listAssetsStmt p)) = Some EntityAssets.
Proof. reflexivity. Qed.

Lemma entityOf_listAddresses (p : ListAddressesParams.t) :
  entityOf (Run (listAddressesStmt p)) = Some EntityAddresses.
Proof. reflexivity. Qed.

Lemma entityOf_listTransactions (needsDistinct : ListTransactionsParams.t -> bool)
    (asc_ desc_ : TransactionSort) (dflt : Direction)
    (p : ListTransactionsParams.t) :
  entityOf (Run (listTransactionsStmt needsDistinct asc_ desc_ dflt p))
  = Some EntityTransactions.
Proof.
  destruct (listTransactionsStmt_shape needsDistinct asc_ desc_ dflt p)
    as (Htable & _ & _).
  unfold entityOf. by rewrite Htable.
Qed.

Lemma countingDisabled_listAssets (p : ListAssetsParams.t) :
  ListParams.DisableCounting (ListAssetsParams.ListParams p) = true ->
  countingDisabled (Run (listAssetsStmt p)) = true.
Proof. intros H. unfold countingDisabled. simpl. exact H. Qed.

Lemma countingDisabled_listAddresses (p : ListAddressesParams.t) :
  ListParams.DisableCounting (ListAddressesParams.ListParams p) = true ->
  countingDisabled (Run (listAddressesStmt p)) = true.
Proof. intros H. unfold countingDisabled. simpl. exact H. Qed.

Lemma countingDisabled_listTransactions
    (needsDistinct : ListTransactionsParams.t -> bool)
    (asc_ desc_ : TransactionSort) (dflt : Direction)
    (p : ListTransactionsParams.t) :
  ListParams.DisableCounting (ListTransactionsParams.ListParams p) = true ->
  countingDisabled (Run (listTransactionsStmt needsDistinct asc_ desc_ dflt p))
  = true.
Proof.
  intros H.
  destruct (listTransactionsStmt_shape needsDistinct asc_ desc_ dflt p)
    as (_ & Happlied & Hcount).
  unfold countingDisabled. by rewrite Hcount, Happlied.
Qed.

Lemma entities_cons (e : Event) (evs : list Event) :
  entities (e :: evs)
  = match entityOf e with
    | Some y => y :: entities evs
    | None => entities evs
    end.
Proof. reflexivity. Qed.

Lemma entities_app (evs1 evs2 : list Event) :
  entities (evs1 ++ evs2) = entities evs1 ++ entities evs2.
Proof. apply omap_app. Qed.

(** C4, as the claim states it, fails: one asset and one transaction
    together reach the limit of two, yet the addresses are queried; each
    list is compared with the limit on its own. *)
Lemma C4_counterexample :
  let s' := (Search noID noID noDistinct 5000 1 2 asc oneEachConns
               {| obj := searchFoo; trace := [] |}).2 in
  LoadAssets oneEachConns (listAssetsStmt (searchAssetsParams searchFoo))
  = Ok [asset "A"]
  /\ LoadTransactions oneEachConns
       (listTransactionsStmt noDistinct 1 2 asc
          (searchTransactionsParams searchFoo))
     = Ok [transaction "T"]
  /\ ge_int (length [asset "A"] + length [transaction "T"])
       (ListParams.Limit (SearchParams.ListParams searchFoo)) = true
  /\ entities (trace s') = [EntityAssets; EntityTransactions; EntityAddresses].
Proof. repeat split; vm_compute; reflexivity. Qed.

(** C4 (amended): a search whose query is neither a short identifier nor
    a full identifier lists assets, then transactions, then addresses, each
    with counting disabled and without any count statement, and it skips
    the entity types still to come as soon as the list just loaded holds
    at least [limit] results by itself (or a call fails). *)
Theorem C4_search_order (AddressFromString FromString : string -> option string)
    (needsDistinct : ListTransactionsParams.t -> bool) (maxLimit : Z)
    (asc_ desc_ : TransactionSort) (dflt : Direction) (conns : Connections)
    (p : SearchParams.t) (tr : list Event) :
  MinSearchQueryLength <= Z.of_nat (String.length (SearchParams.Query p)) ->
  AddressFromString (SearchParams.Query p) = None ->
  FromString (SearchParams.Query p) = None ->
  let limit := ListParams.Limit (SearchParams.ListParams p) in
  let s' := (Search AddressFromString FromString needsDistinct maxLimit asc_
               desc_ dflt conns {| obj := p; trace := tr |}).2 in
  entities (issued tr s')
  = match LoadAssets conns (listAssetsStmt (searchAssetsParams p)) with
    | Err _ => [EntityAssets]
    | Ok assets =>
      if ge_int (length assets) limit then [EntityAssets]
      else
        match (ListTransactions needsDistinct asc_ desc_ dflt conns
                 {| obj := searchTransactionsParams p;
                    trace := tr ++ [Run (listAssetsStmt (searchAssetsParams p))] |}).1
        with
        | Err _ => [EntityAssets; EntityTransactions]
        | Ok transactions =>
          if ge_int (length (TransactionList.Transactions transactions)) limit
          then [EntityAssets; EntityTransactions]
          else [EntityAssets; EntityTransactions; EntityAddresses]
        end
    end
  /\ Forall (fun e => countingDisabled e = true) (issued tr s')
  /\ obj s' = p.
Proof.
  intros Hlen Hshort Hid limit s'. unfold s'. clear s'.
  remember (Search AddressFromString FromString needsDistinct maxLimit asc_
              desc_ dflt conns {| obj := p; trace := tr |}) as rs eqn:Hrs.
  unfold Search in Hrs. unfold bind at 1, getObj in Hrs. cbn [obj] in Hrs.
  destruct (Z.ltb_spec (Z.of_nat (String.length (SearchParams.Query p)))
              MinSearchQueryLength) as [|_]; [lia|].
  rewrite Hshort, Hid in Hrs. cbv zeta in Hrs.
  fold (searchAssetsParams p) (searchTransactionsParams p)
    (searchAddressesParams p) limit in Hrs.
  set (la := Run (listAssetsStmt (searchAssetsParams p))) in *.
  set (lt := Run (listTransactionsStmt needsDistinct asc_ desc_ dflt
                    (searchTransactionsParams p))) in *.
  set (ld := Run (listAddressesStmt (searchAddressesParams p))) in *.
  assert (Hla : entityOf la = Some EntityAssets) by apply entityOf_listAssets.
  assert (Hlt : entityOf lt = Some EntityTransactions)
    by apply entityOf_listTransactions.
  assert (Hld : entityOf ld = Some EntityAddresses)
    by apply entityOf_listAddresses.
  assert (Hca : countingDisabled la = true)
    by by apply countingDisabled_listAssets.
  assert (Hct : countingDisabled lt = true)
    by by apply countingDisabled_listTransactions.
  assert (Hcd : countingDisabled ld = true)
    by by apply countingDisabled_listAddresses.
  unfold bind at 1, call at 1 in Hrs. cbn [trace obj] in Hrs.
  rewrite ListAssets_nocount in Hrs by done. fold la in Hrs.
  destruct (LoadAssets conns _) as [assets|e];
    cbn [AssetList.Assets trace obj snd] in Hrs.
  2:{ subst rs. cbn [snd]. rewrite issued_app, entities_cons, Hla.
      repeat split; by repeat constructor. }
  destruct (ge_int (length assets) limit).
  { subst rs. unfold ret. cbn [snd]. rewrite issued_app, entities_cons, Hla.
    repeat split; by repeat constructor. }
  unfold bind at 1, call at 1 in Hrs. cbn [trace obj] in Hrs.
  destruct (ListTransactions_nocount needsDistinct asc_ desc_ dflt conns
              (searchTransactionsParams p) (tr ++ [la]) eq_refl)
    as (devs & Hdevs & Hs1).
  fold lt in Hs1.
  destruct (ListTransactions _ _ _ _ _ _) as [rt s1]. cbn [fst snd] in *.
  subst s1. cbn [trace obj] in Hrs.
  pose proof (dress_entities devs Hdevs) as Hedevs.
  pose proof (dress_countingDisabled devs Hdevs) as Hcdevs.
  destruct rt as [transactions|e].
  2:{ subst rs. cbn [snd]. rewrite <- !app_assoc, issued_app. simpl app.
      rewrite !entities_cons, Hla, Hlt, Hedevs.
      repeat split; by repeat constructor. }
  cbn [TransactionList.Transactions] in Hrs.
  destruct (ge_int (length (TransactionList.Transactions transactions)) limit).
  { subst rs. unfold ret. cbn [snd]. rewrite <- !app_assoc, issued_app.
    simpl app. rewrite !entities_cons, Hla, Hlt, Hedevs.
    repeat split; by repeat constructor. }
  unfold bind at 1, call at 1 in Hrs. cbn [trace obj] in Hrs.
  destruct (ListAddresses_nocount conns (searchAddressesParams p)
              (((tr ++ [la]) ++ [lt]) ++ devs) eq_refl)
    as (devs' & Hdevs' & Hs2).
  fold ld in Hs2.
  destruct (ListAddresses _ _) as [rd s2]. cbn [fst snd] in *.
  subst s2. cbn [trace obj] in Hrs.
  pose proof (dress_entities devs' Hdevs') as Hedevs'.
  pose proof (dress_countingDisabled devs' Hdevs') as Hcdevs'.
  assert (Hfinal :
            issued tr {| obj := p;
                         trace := ((((tr ++ [la]) ++ [lt]) ++ devs) ++ [ld])
                                  ++ devs' |}
            = la :: lt :: devs ++ ld :: devs').
  { rewrite <- !app_assoc. by rewrite issued_app. }
  assert (Hent : entities (la :: lt :: devs ++ ld :: devs')
                 = [EntityAssets; EntityTransactions; EntityAddresses]).
  { rewrite !entities_cons, Hla, Hlt, entities_app, entities_cons, Hld,
      Hedevs, Hedevs'. done. }
  assert (Hcnt : Forall (fun e => countingDisabled e = true)
                   (la :: lt :: devs ++ ld :: devs')).
  { repeat constructor; try done. apply Forall_app. split; [done|].
    by constructor. }
  destruct rd as [addresses|e]; cbn [snd AddressList.Addresses] in Hrs.
  - destruct (ge_int _ _); subst rs; unfold ret; cbn [snd];
      rewrite Hfinal, Hent; by repeat split.
  - subst rs. cbn [snd]. rewrite Hfinal, Hent. by repeat split.
Qed.

Lemma C4_search_order_witness :
  entities
    (issued []
       (Search noID noID noDistinct 5000 1 2 asc oneEachConns
          {| obj := searchFoo; trace := [] |}).2)
  = [EntityAssets; EntityTransactions; EntityAddresses].
Proof.
  refine (proj1 (C4_search_order noID noID noDistinct 5000 1 2 asc oneEachConns
                   searchFoo [] _ _ _)).
  - vm_compute. congruence.
  - reflexivity.
  - reflexivity.
Defined.

(** ** Transaction dressing: the maps of the first pass *)

Lemma alter_ensure {V} `{Empty V} (f : V -> V) (k : string) (m : gmap string V) :
  alter f k (ensure k m) = <[k := f (default ∅ (m !! k))]> m.
Proof.
  unfold ensure. apply map_eq. intros j.
  destruct (m !! k) as [v|] eqn:Hk; simpl.
  - destruct (decide (k = j)) as [->|Hne].
    + by rewrite lookup_alter_eq, lookup_insert_eq, Hk.
    + by rewrite lookup_alter_ne, lookup_insert_ne.
  - destruct (decide (k = j)) as [->|Hne].
    + by rewrite lookup_alter_eq, !lookup_insert_eq.
    + by rewrite lookup_alter_ne, !lookup_insert_ne.
Qed.

Lemma lookup2_insert {V} (m : gmap string (gmap string V)) (t k t' k' : string)
    (v : V) :
  lookup2 (<[t := <[k := v]> (default ∅ (m !! t))]> m) t' k'
  = if decide (t' = t /\ k' = k) then Some v else lookup2 m t' k'.
Proof.
  unfold lookup2. destruct (decide (t = t')) as [->|Hne].
  - rewrite lookup_insert_eq. simpl.
    destruct (decide (k = k')) as [->|Hne'].
    + rewrite lookup_insert_eq. by rewrite decide_True.
    + rewrite lookup_insert_ne by done.
      rewrite decide_False by (intros [_ ?]; congruence).
      by destruct (m !! t').
  - rewrite lookup_insert_ne by done.
    by rewrite decide_False by (intros [? _]; congruence).
Qed.

Lemma lookup2_fmap {V W} (f : V -> W) (m : gmap string (gmap string V))
    (t k : string) :
  (f <$> default ∅ (m !! t)) !! k = f <$> lookup2 m t k.
Proof.
  unfold lookup2. rewrite lookup_fmap. by destruct (m !! t).
Qed.

(** What the body of the first loop does to the maps. *)
Lemma collectRow_Ok (st st' : dressMaps) (i : nat) (r : compositeRecord.t) :
  collectRow st i r = Ok st' ->
  let out := compositeRecord.Output r in
  exists v,
    BigInt.SetString (Output.Amount out) = Some v
    /\ outputAddrs st'
       = <[Output.ID out :=
             {[ OutputAddress.Address (compositeRecord.OutputAddress r) ]}
             ∪ default ∅ (outputAddrs st !! Output.ID out)]> (outputAddrs st)
    /\ outputsMap st'
       = <[Output.TransactionID out :=
             <[Output.ID out := i]>
               (default ∅ (outputsMap st !! Output.TransactionID out))]>
           (outputsMap st)
    /\ inputsMap st'
       = <[Output.RedeemingTransactionID out :=
             <[Output.ID out := {| InputCell.Output := i; InputCell.Creds := [] |}]>
               (default ∅ (inputsMap st !! Output.RedeemingTransactionID out))]>
           (inputsMap st)
    /\ outputTotalsMap st'
       = <[Output.TransactionID out :=
             <[Output.AssetID out :=
                 v + default 0 (lookup2 (outputTotalsMap st)
                                  (Output.TransactionID out) (Output.AssetID out))]>
               (default ∅ (outputTotalsMap st !! Output.TransactionID out))]>
           (outputTotalsMap st)
    /\ inputTotalsMap st'
       = <[Output.RedeemingTransactionID out :=
             <[Output.AssetID out :=
                 v + default 0 (lookup2 (inputTotalsMap st)
                                  (Output.RedeemingTransactionID out)
                                  (Output.AssetID out))]>
               (default ∅ (inputTotalsMap st
                             !! Output.RedeemingTransactionID out))]>
           (inputTotalsMap st).
Proof.
  unfold collectRow. cbv zeta.
  destruct (BigInt.SetString _) as [v|]; [|done].
  intros [= <-]. exists v. cbn [outputAddrs outputsMap inputsMap
                                  outputTotalsMap inputTotalsMap].
  rewrite !alter_ensure. unfold addToBigIntMap, lookup2.
  repeat split; try done.
  - by destruct (outputTotalsMap st !! _).
  - by destruct (inputTotalsMap st !! _).
Qed.

Lemma collectRow_parses (st : dressMaps) (i : nat) (r : compositeRecord.t) :
  amountParses r -> exists st', collectRow st i r = Ok st'.
Proof.
  intros [v Hv]. unfold collectRow. cbv zeta. rewrite Hv. by eexists.
Qed.

Lemma collect_cons (i : nat) (r : compositeRecord.t)
    (rows : list compositeRecord.t) (st st' : dressMaps) :
  collect i (r :: rows) st = Ok st' ->
  exists st1, collectRow st i r = Ok st1 /\ collect (S i) rows st1 = Ok st'.
Proof.
  simpl. destruct (collectRow st i r) as [st1|e]; [|done]. by exists st1.
Qed.

Lemma collect_parses (i : nat) (rows : list compositeRecord.t) (st : dressMaps) :
  Forall amountParses rows -> exists st', collect i rows st = Ok st'.
Proof.
  revert i st. induction rows as [|r rows IH]; intros i st Hparse.
  - by exists st.
  - apply Forall_cons in Hparse as [Hr Hrows].
    destruct (collectRow_parses st i r Hr) as [st1 Hst1].
    simpl. rewrite Hst1. apply IH, Hrows.
Qed.

Lemma collect_Ok_parses (i : nat) (rows : list compositeRecord.t)
    (st st' : dressMaps) :
  collect i rows st = Ok st' -> Forall amountParses rows.
Proof.
  revert i st. induction rows as [|r rows IH]; intros i st Hrun; [by constructor|].
  apply collect_cons in Hrun as (st1 & Hrow & Hrest).
  constructor; [|by eapply IH].
  apply collectRow_Ok in Hrow as (v & Hv & _). by exists v.
Qed.

Lemma sumAmounts_cons (key : Output.t -> string) (t a : string)
    (r : compositeRecord.t) (rows : list compositeRecord.t) :
  sumAmounts key t a (r :: rows)
  = (if countsFor key t a r then amountOf r else 0) + sumAmounts key t a rows.
Proof.
  unfold sumAmounts. simpl. destruct (countsFor key t a r); [|lia].
  by rewrite fmap_cons, sumZ_cons.
Qed.

Lemma countsFor_decide (key : Output.t -> string) (t a : string)
    (r : compositeRecord.t) :
  countsFor key t a r
  = bool_decide (t = key (compositeRecord.Output r)
                 /\ a = Output.AssetID (compositeRecord.Output r)).
Proof.
  unfold countsFor.
  destruct (decide (key (compositeRecord.Output r) = t)) as [<-|Hne].
  - rewrite bool_decide_eq_true_2 by done. simpl.
    destruct (decide (Output.AssetID (compositeRecord.Output r) = a)) as [<-|Hne].
    + by rewrite !bool_decide_eq_true_2.
    + rewrite !bool_decide_eq_false_2; [done|intros [_ ?]; congruence|done].
  - rewrite bool_decide_eq_false_2 by done. simpl.
    by rewrite bool_decide_eq_false_2 by (intros [? _]; congruence).
Qed.

Lemma addedTo_cons (old : option Z) (key : Output.t -> string) (t a : string)
    (r : compositeRecord.t) (rows : list compositeRecord.t) :
  addedTo old key t a (r :: rows)
  = addedTo (if countsFor key t a r then Some (amountOf r + default 0 old)
             else old) key t a rows.
Proof.
  unfold addedTo. rewrite sumAmounts_cons. simpl.
  destruct (countsFor key t a r); [|done].
  unfold sumAmounts.
  destruct (List.filter (countsFor key t a) rows); simpl.
  - f_equal. unfold sumZ. simpl. lia.
  - f_equal. lia.
Qed.

Lemma collect_totals (i : nat) (rows : list compositeRecord.t)
    (st st' : dressMaps) (t a : string) :
  collect i rows st = Ok st' ->
  lookup2 (outputTotalsMap st') t a
  = addedTo (lookup2 (outputTotalsMap st) t a) Output.TransactionID t a rows
  /\ lookup2 (inputTotalsMap st') t a
     = addedTo (lookup2 (inputTotalsMap st) t a) Output.RedeemingTransactionID
         t a rows.
Proof.
  revert i st. induction rows as [|r rows IH]; intros i st Hrun.
  - by injection Hrun as <-.
  - apply collect_cons in Hrun as (st1 & Hrow & Hrest).
    destruct (IH _ _ Hrest) as [IHo IHi]. rewrite IHo, IHi, !addedTo_cons.
    apply collectRow_Ok in Hrow as (v & Hv & _ & _ & _ & Ho & Hi).
    rewrite Ho, Hi, !lookup2_insert, !countsFor_decide.
    assert (Hamt : amountOf r = v) by (unfold amountOf; by rewrite Hv).
    rewrite Hamt. split.
    + destruct (decide (t = Output.TransactionID (compositeRecord.Output r)
                        /\ a = Output.AssetID (compositeRecord.Output r)))
        as [[-> ->]|Hne].
      * by rewrite bool_decide_eq_true_2.
      * by rewrite bool_decide_eq_false_2.
    + destruct (decide (t = Output.RedeemingTransactionID
                              (compositeRecord.Output r)
                        /\ a = Output.AssetID (compositeRecord.Output r)))
        as [[-> ->]|Hne].
      * by rewrite bool_decide_eq_true_2.
      * by rewrite bool_decide_eq_false_2.
Qed.

(** ** Transaction dressing: the call *)

Lemma dressTransactions_result {P} (conns : Connections) (dbRunner : string)
    (txs : list Transaction.t) (s : St P) :
  txs <> [] ->
  (dressTransactions conns dbRunner txs s).1
  = match LoadCompositeRecords conns (ownedRowsStmt dbRunner txs) with
    | Err e => Err e
    | Ok outputs =>
      match LoadCompositeRecords conns (redeemedRowsStmt dbRunner txs) with
      | Err e => Err e
      | Ok inputs => dressRows (outputs ++ inputs) txs
      end
    end.
Proof.
  intros Hne. unfold dressTransactions, ownedRowsStmt, redeemedRowsStmt.
  destruct txs as [|tx txs]; [done|].
  change (length (tx :: txs) =? 0)%nat with false. cbv iota. unfold_m.
  destruct (LoadCompositeRecords conns _) as [outputs|e]; [|done]. msimpl.
  destruct (LoadCompositeRecords conns _) as [inputs|e]; [|done]. msimpl.
  by destruct (dressRows _ _).
Qed.

Lemma dressRows_Ok (merged : list compositeRecord.t) (txs txs' : list Transaction.t) :
  dressRows merged txs = Ok txs' ->
  exists st,
    collect 0 merged emptyMaps = Ok st
    /\ txs' = dressOne (attach (outputAddrs st) merged (inputsMap st)).1
               (attach (outputAddrs st) merged (inputsMap st)).2 st <$> txs.
Proof.
  unfold dressRows. destruct (collect 0 merged emptyMaps) as [st|e]; [|done].
  destruct (attach _ _ _) as [rows inputs] eqn:Hattach. intros [= <-].
  exists st. by rewrite Hattach.
Qed.

Lemma dressRows_parses (merged : list compositeRecord.t) (txs : list Transaction.t) :
  Forall amountParses merged -> exists txs', dressRows merged txs = Ok txs'.
Proof.
  intros Hparse. unfold dressRows.
  destruct (collect_parses 0 merged emptyMaps Hparse) as [st ->].
  destruct (attach _ _ _). by eexists.
Qed.

Lemma sumAmounts_delete (key : Output.t -> string) (t a : string)
    (rows : list compositeRecord.t) (j : nat) (row : compositeRecord.t) :
  rows !! j = Some row ->
  countsFor key t a row = true ->
  sumAmounts key t a rows = amountOf row + sumAmounts key t a (delete j rows).
Proof.
  revert j. induction rows as [|r rows IH]; intros [|j] Hj Hrow; try done.
  - injection Hj as ->. rewrite sumAmounts_cons, Hrow. done.
  - simpl in Hj. change (delete (S j) (r :: rows)) with (r :: delete j rows).
    rewrite !sumAmounts_cons, (IH j Hj Hrow). lia.
Qed.

Lemma totalString_counts (key : Output.t -> string) (t a : string)
    (rows : list compositeRecord.t) (j : nat) (row : compositeRecord.t) :
  rows !! j = Some row ->
  countsFor key t a row = true ->
  totalString key t a rows
  = Some (BigInt.String (amountOf row + sumAmounts key t a (delete j rows))).
Proof.
  intros Hj Hrow. unfold totalString.
  rewrite <- (sumAmounts_delete key t a rows j row Hj Hrow).
  destruct (List.filter _ rows) eqn:Hfilter; [|done].
  assert (Hin : In row (List.filter (countsFor key t a) rows)).
  { apply filter_In. split; [|done]. apply list_elem_of_In.
    by eapply list_elem_of_lookup_2. }
  by rewrite Hfilter in Hin.
Qed.

Lemma dressOne_totals (rows : list compositeRecord.t)
    (inputs : gmap string (gmap string InputCell.t)) (st : dressMaps)
    (merged : list compositeRecord.t) (i : nat) (tx : Transaction.t) (a : string) :
  collect i merged emptyMaps = Ok st ->
  let tx' := dressOne rows inputs st tx in
  Transaction.ID tx' = Transaction.ID tx
  /\ Transaction.InputTotals tx' !! a
     = totalString Output.RedeemingTransactionID (Transaction.ID tx) a merged
  /\ Transaction.OutputTotals tx' !! a
     = totalString Output.TransactionID (Transaction.ID tx) a merged.
Proof.
  intros Hcollect. unfold dressOne. cbv zeta.
  cbn [Transaction.dressed Transaction.ID Transaction.InputTotals
         Transaction.OutputTotals].
  split; [done|]. rewrite !lookup2_fmap.
  destruct (collect_totals i merged emptyMaps st (Transaction.ID tx) a Hcollect)
    as [-> ->].
  unfold addedTo, totalString, lookup2. cbn [outputTotalsMap inputTotalsMap emptyMaps].
  rewrite !lookup_empty. simpl.
  split.
  - destruct (List.filter _ merged); [done|]. simpl. by rewrite Z.add_0_r.
  - destruct (List.filter _ merged); [done|]. simpl. by rewrite Z.add_0_r.
Qed.

(** C1: when every amount of the merged rows parses, dressing succeeds and
    each per-asset total of each transaction of the batch is the decimal
    form of the sum of the amounts over the merged rows (the rows the
    transaction redeems for [InputTotals], the rows it owns for
    [OutputTotals]).  A row of asset [a] and amount [v] owned by [t1] and
    redeemed by [t2] is one summand of [InputTotals[a]] of [t2] and of
    [OutputTotals[a]] of [t1]: both are [v] plus the sum over the other
    rows. *)
Theorem C1_totals {P} (conns : Connections) (dbRunner : string)
    (txs : list Transaction.t) (s : St P)
    (outputs inputs : list compositeRecord.t) :
  txs <> [] ->
  LoadCompositeRecords conns (ownedRowsStmt dbRunner txs) = Ok outputs ->
  LoadCompositeRecords conns (redeemedRowsStmt dbRunner txs) = Ok inputs ->
  let merged := outputs ++ inputs in
  Forall amountParses merged ->
  exists txs',
    (dressTransactions conns dbRunner txs s).1 = Ok txs'
    /\ Transaction.ID <$> txs' = Transaction.ID <$> txs
    /\ (forall tx a,
          tx ∈ txs' ->
          Transaction.InputTotals tx !! a
          = totalString Output.RedeemingTransactionID (Transaction.ID tx) a merged
          /\ Transaction.OutputTotals tx !! a
             = totalString Output.TransactionID (Transaction.ID tx) a merged)
    /\ (forall (j : nat) (row : compositeRecord.t) (v : Z) (t1 t2 a : string),
          merged !! j = Some row ->
          Output.AssetID (compositeRecord.Output row) = a ->
          BigInt.SetString (Output.Amount (compositeRecord.Output row)) = Some v ->
          Output.TransactionID (compositeRecord.Output row) = t1 ->
          Output.RedeemingTransactionID (compositeRecord.Output row) = t2 ->
          (forall tx2, tx2 ∈ txs' -> Transaction.ID tx2 = t2 ->
             Transaction.InputTotals tx2 !! a
             = Some (BigInt.String
                       (v + sumAmounts Output.RedeemingTransactionID t2 a
                              (delete j merged))))
          /\ (forall tx1, tx1 ∈ txs' -> Transaction.ID tx1 = t1 ->
                Transaction.OutputTotals tx1 !! a
                = Some (BigInt.String
                          (v + sumAmounts Output.TransactionID t1 a
                                 (delete j merged))))).
Proof.
  intros Hne Houts Hins merged Hparse.
  destruct (dressRows_parses merged txs Hparse) as [txs' Hrows].
  exists txs'. rewrite dressTransactions_result, Houts, Hins by done.
  split; [done|].
  apply dressRows_Ok in Hrows as (st & Hcollect & ->).
  set (rows := (attach (outputAddrs st) merged (inputsMap st)).1).
  set (ins := (attach (outputAddrs st) merged (inputsMap st)).2).
  assert (Htotals : forall tx a,
            tx ∈ dressOne rows ins st <$> txs ->
            Transaction.InputTotals tx !! a
            = totalString Output.RedeemingTransactionID (Transaction.ID tx) a merged
            /\ Transaction.OutputTotals tx !! a
               = totalString Output.TransactionID (Transaction.ID tx) a merged).
  { intros tx a Htx. apply list_elem_of_fmap in Htx as (tx0 & -> & _).
    destruct (dressOne_totals rows ins st merged 0 tx0 a Hcollect)
      as (Hid & Hi & Ho).
    by rewrite Hid. }
  split.
  { rewrite <- list_fmap_compose. apply list_fmap_ext. intros i tx _. simpl.
    by destruct (dressOne_totals rows ins st merged 0 tx "" Hcollect). }
  split; [done|].
  intros j row v t1 t2 a Hj Ha Hv Ht1 Ht2.
  assert (Hamt : amountOf row = v) by (unfold amountOf; by rewrite Hv).
  split.
  - intros tx2 Htx2 Hid. destruct (Htotals tx2 a Htx2) as [-> _].
    rewrite Hid, <- Hamt. apply totalString_counts; [done|].
    unfold countsFor. by rewrite !bool_decide_eq_true_2.
  - intros tx1 Htx1 Hid. destruct (Htotals tx1 a Htx1) as [_ ->].
    rewrite Hid, <- Hamt. apply totalString_counts; [done|].
    unfold countsFor. by rewrite !bool_decide_eq_true_2.
Qed.

Lemma C1_totals_witness :
  exists txs',
    (dressTransactions (tableConns tableO) "get_transactions" batchT1T2
       noObject).1 = Ok txs'
    /\ Transaction.ID <$> txs' = ["T1"; "T2"]
    /\ forall tx2, tx2 ∈ txs' -> Transaction.ID tx2 = "T2" ->
         Transaction.InputTotals tx2 !! "A" = Some "20".
Proof.
  destruct (C1_totals (tableConns tableO) "get_transactions" batchT1T2 noObject
              tableO tableO)
    as (txs' & Hrun & Hids & _ & Hrow).
  - done.
  - vm_compute. reflexivity.
  - vm_compute. reflexivity.
  - repeat constructor; by eexists.
  - exists txs'. split; [exact Hrun|]. split; [exact Hids|].
    intros tx2 Htx2 Hid.
    destruct (Hrow 0%nat (rowO "a1" [Byte.x01]) 5 "T1" "T2" "A"
                eq_refl eq_refl eq_refl eq_refl eq_refl) as [Hin _].
    exact (Hin tx2 Htx2 Hid).
Defined.

(** ** Transaction dressing: cells, addresses and credentials *)

(** Every cell of the first pass is fresh and points to a row of its
    output and redeeming transaction; every pointer of [outputsMap] points
    to a row of its output and owning transaction. *)
Lemma collect_cells (i0 : nat) (rows : list compositeRecord.t)
    (st st' : dressMaps) :
  collect i0 rows st = Ok st' ->
  (forall t k c,
      lookup2 (inputsMap st') t k = Some c ->
      lookup2 (inputsMap st) t k = Some c
      \/ exists j r,
          rows !! j = Some r /\ c = newCell (i0 + j)
          /\ Output.RedeemingTransactionID (compositeRecord.Output r) = t
          /\ Output.ID (compositeRecord.Output r) = k)
  /\ (forall t k i,
        lookup2 (outputsMap st') t k = Some i ->
        lookup2 (outputsMap st) t k = Some i
        \/ exists j r,
            rows !! j = Some r /\ i = (i0 + j)%nat
            /\ Output.TransactionID (compositeRecord.Output r) = t
            /\ Output.ID (compositeRecord.Output r) = k).
Proof.
  revert i0 st. induction rows as [|r rows IH]; intros i0 st Hrun.
  - injection Hrun as <-. split; intros; by left.
  - apply collect_cons in Hrun as (st1 & Hrow & Hrest).
    destruct (IH _ _ Hrest) as [IHc IHo].
    apply collectRow_Ok in Hrow as (v & _ & _ & Ho & Hi & _ & _).
    split.
    + intros t k c Hc. destruct (IHc t k c Hc) as [Hold|(j & r' & Hj & -> & Ht & Hk)].
      * rewrite Hi, lookup2_insert in Hold. case_decide as Hd.
        -- destruct Hd as [-> ->]. injection Hold as <-. right.
           exists 0%nat, r. rewrite Nat.add_0_r. by repeat split.
        -- by left.
      * right. exists (S j), r'. repeat split; try done.
        unfold newCell. f_equal. lia.
    + intros t k i Hc. destruct (IHo t k i Hc) as [Hold|(j & r' & Hj & -> & Ht & Hk)].
      * rewrite Ho, lookup2_insert in Hold. case_decide as Hd.
        -- destruct Hd as [-> ->]. injection Hold as <-. right.
           exists 0%nat, r. rewrite Nat.add_0_r. by repeat split.
        -- by left.
      * right. exists (S j), r'. repeat split; try done. lia.
Qed.

Lemma addressesOf_cons (o : string) (r : compositeRecord.t)
    (rows : list compositeRecord.t) :
  addressesOf o (r :: rows)
  = if decide (Output.ID (compositeRecord.Output r) = o)
    then {[ OutputAddress.Address (compositeRecord.OutputAddress r) ]}
         ∪ addressesOf o rows
    else addressesOf o rows.
Proof.
  unfold addressesOf. simpl. case_decide.
  - by rewrite bool_decide_eq_true_2.
  - by rewrite bool_decide_eq_false_2.
Qed.

(** The address sets after the first pass. *)
Lemma collect_addrs (i0 : nat) (rows : list compositeRecord.t)
    (st st' : dressMaps) (o : string) :
  collect i0 rows st = Ok st' ->
  default ∅ (outputAddrs st' !! o)
  = default ∅ (outputAddrs st !! o) ∪ addressesOf o rows.
Proof.
  revert i0 st. induction rows as [|r rows IH]; intros i0 st Hrun.
  - injection Hrun as <-. unfold addressesOf. simpl. set_solver.
  - apply collect_cons in Hrun as (st1 & Hrow & Hrest).
    rewrite (IH _ _ Hrest), addressesOf_cons.
    apply collectRow_Ok in Hrow as (v & _ & Ha & _).
    rewrite Ha. case_decide as Hd.
    + rewrite <- Hd, lookup_insert_eq. simpl. set_solver.
    + by rewrite lookup_insert_ne.
Qed.

Lemma credsFor_snoc (t k : string) (rows : list compositeRecord.t)
    (r : compositeRecord.t) :
  credsFor t k (rows ++ [r])
  = credsFor t k rows ++ (if signsFor t k r then [credOf r] else []).
Proof.
  unfold credsFor. rewrite List.filter_app, fmap_app. simpl.
  by destruct (signsFor t k r).
Qed.

Lemma dressedRow_ID (addrs : gmap string (gset string)) (r : compositeRecord.t)
    (Q : Prop) (d : Decision Q) :
  Output.ID (compositeRecord.Output (if d then dressedRow addrs r else r))
  = Output.ID (compositeRecord.Output r).
Proof. by destruct d. Qed.

Lemma lookup2_default {V} (m : gmap string (gmap string V)) (t k : string) :
  default ∅ (m !! t) !! k = lookup2 m t k.
Proof. unfold lookup2. by destruct (m !! t). Qed.

Lemma attachRow_inv (merged : list compositeRecord.t)
    (addrs : gmap string (gset string))
    (cells : gmap string (gmap string InputCell.t)) (n : nat)
    (st : list compositeRecord.t * gmap string (gmap string InputCell.t)) :
  (n < length merged)%nat ->
  cellsOK merged cells ->
  attachInv merged addrs cells n st ->
  attachInv merged addrs cells (S n) (attachRow addrs st n).
Proof.
  intros Hn Hcells (Hlen & Hrows & Hin). destruct st as [rows inputs].
  cbn [fst snd] in *.
  destruct (lookup_lt_is_Some_2 merged n Hn) as [r Hr].
  pose proof (Hrows n r Hr) as Hrn.
  rewrite decide_False in Hrn by lia.
  assert (Htotal : rows !!! n = r) by by apply list_lookup_total_correct.
  unfold attachRow. rewrite Htotal. cbv zeta.
  fold (dressedRow addrs r).
  set (rows' := <[n := dressedRow addrs r]> rows).
  assert (Hrows' : forall j rj, merged !! j = Some rj ->
            rows' !! j
            = Some (if decide (j < S n)%nat then dressedRow addrs rj else rj)).
  { intros j rj Hj. unfold rows'. destruct (decide (j = n)) as [->|Hne].
    - rewrite list_lookup_insert_eq by lia. rewrite decide_True by lia.
      congruence.
    - rewrite list_lookup_insert_ne by done. rewrite (Hrows j rj Hj).
      destruct (decide (j < n)%nat), (decide (j < S n)%nat); try done; lia. }
  assert (Hlen' : length rows' = length merged)
    by (unfold rows'; by rewrite length_insert).
  unfold attachInv. rewrite (take_S_r merged n r Hr).
  destruct (Nat.eqb_spec
              (length (OutputAddress.Signature (compositeRecord.OutputAddress r)))
              0) as [Hsig|Hsig].
  { (* the row carries no signature *)
    split; [done|]. split; [done|]. cbn [snd]. intros t k.
    rewrite credsFor_snoc, Hin. unfold signsFor. rewrite Hsig. simpl.
    by rewrite app_nil_r. }
  set (t0 := Output.RedeemingTransactionID (compositeRecord.Output r)).
  set (k0 := OutputAddress.OutputID (compositeRecord.OutputAddress r)).
  set (cand := default ∅ (inputs !! t0)).
  assert (Hpoint : forall k c,
            cand !! k = Some c ->
            Output.ID (compositeRecord.Output (rows' !!! InputCell.Output c)) = k).
  { intros k c Hc. unfold cand in Hc. rewrite lookup2_default, Hin in Hc.
    destruct (lookup2 cells t0 k) as [c0|] eqn:Hc0; [|done].
    injection Hc as <-. destruct (Hcells t0 k c0 Hc0) as (_ & r0 & Hr0 & Hid & _).
    cbn [withCreds InputCell.Output].
    rewrite (list_lookup_total_correct _ _ _ (Hrows' _ _ Hr0)).
    by rewrite dressedRow_ID. }
  assert (Hsigned : forall t k,
            signsFor t k r = bool_decide (t = t0 /\ k = k0)).
  { intros t k. unfold signsFor.
    destruct (Nat.eqb_spec
                (length (OutputAddress.Signature
                           (compositeRecord.OutputAddress r))) 0); [done|].
    simpl. unfold t0, k0.
    repeat case_bool_decide; simpl; try done; naive_solver. }
  destruct (list_find _ (map_to_list cand)) as [[idx [k c]]|] eqn:Hfind.
  - apply list_find_Some in Hfind as (Hidx & HP & _). cbn [snd] in HP.
    assert (Hc : cand !! k = Some c).
    { apply elem_of_map_to_list. by eapply list_elem_of_lookup_2. }
    rewrite (Hpoint k c Hc) in HP. fold k0 in HP. subst k.
    split; [done|]. split; [done|]. cbn [snd]. intros t k.
    unfold cand. rewrite lookup2_insert, credsFor_snoc, Hsigned.
    case_decide as Hd.
    + destruct Hd as [-> ->]. rewrite bool_decide_eq_true_2 by done.
      unfold cand in Hc. rewrite lookup2_default, Hin in Hc.
      destruct (lookup2 cells t0 k0) as [c0|]; [|done].
      injection Hc as <-. done.
    + rewrite bool_decide_eq_false_2 by done. by rewrite app_nil_r.
  - apply list_find_None in Hfind.
    split; [done|]. split; [done|]. cbn [snd]. intros t k.
    rewrite credsFor_snoc, Hsigned, Hin.
    case_bool_decide as Hd; [|by rewrite app_nil_r].
    destruct Hd as [-> ->].
    destruct (lookup2 cells t0 k0) as [c0|] eqn:Hc0; [|done].
    exfalso.
    assert (Hc : cand !! k0
                 = Some (withCreds (credsFor t0 k0 (take n merged)) c0)).
    { unfold cand. by rewrite lookup2_default, Hin, Hc0. }
    apply elem_of_map_to_list in Hc.
    rewrite Forall_forall in Hfind. apply (Hfind _ Hc). cbn [snd].
    apply (Hpoint k0). by apply elem_of_map_to_list.
Qed.

Lemma attach_inv (merged : list compositeRecord.t)
    (addrs : gmap string (gset string))
    (cells : gmap string (gmap string InputCell.t)) :
  cellsOK merged cells ->
  attachInv merged addrs cells (length merged) (attach addrs merged cells).
Proof.
  intros Hcells. unfold attach.
  assert (Hgen : forall n, (n <= length merged)%nat ->
            attachInv merged addrs cells n
              (fold_left (attachRow addrs) (seq 0 n) (merged, cells))).
  { induction n as [|n IH]; intros Hn.
    - cbn [seq fold_left]. split; [done|]. split.
      + intros j r Hj. cbn [fst]. by rewrite decide_False by lia.
      + intros t k. cbn [snd take]. unfold credsFor. simpl.
        destruct (lookup2 cells t k) as [c|] eqn:Hc; [|done].
        destruct (Hcells t k c Hc) as [Hcreds _]. simpl. f_equal.
        destruct c. simpl in *. by subst.
    - rewrite seq_S, fold_left_app. simpl.
      apply attachRow_inv; [lia|done|]. apply IH. lia. }
  by apply Hgen.
Qed.

Lemma collect_cellsOK (merged : list compositeRecord.t) (st : dressMaps) :
  collect 0 merged emptyMaps = Ok st -> cellsOK merged (inputsMap st).
Proof.
  intros Hrun t k c Hc.
  destruct (proj1 (collect_cells 0 merged emptyMaps st Hrun) t k c Hc)
    as [Hold|(j & r & Hj & -> & Ht & Hk)].
  - unfold lookup2 in Hold. simpl in Hold. by rewrite lookup_empty in Hold.
  - split; [done|]. by exists r.
Qed.

Lemma collect_outputsOK (merged : list compositeRecord.t) (st : dressMaps)
    (t k : string) (i : nat) :
  collect 0 merged emptyMaps = Ok st ->
  lookup2 (outputsMap st) t k = Some i ->
  exists r,
    merged !! i = Some r
    /\ Output.ID (compositeRecord.Output r) = k
    /\ Output.TransactionID (compositeRecord.Output r) = t.
Proof.
  intros Hrun Hi.
  destruct (proj2 (collect_cells 0 merged emptyMaps st Hrun) t k i Hi)
    as [Hold|(j & r & Hj & -> & Ht & Hk)].
  - unfold lookup2 in Hold. simpl in Hold. by rewrite lookup_empty in Hold.
  - by exists r.
Qed.

Lemma collect_addressesOf (merged : list compositeRecord.t) (st : dressMaps)
    (o : string) :
  collect 0 merged emptyMaps = Ok st ->
  default ∅ (outputAddrs st !! o) = addressesOf o merged.
Proof.
  intros Hrun. rewrite (collect_addrs 0 merged emptyMaps st o Hrun).
  simpl. rewrite lookup_empty. simpl. set_solver.
Qed.

(** What the last pass attaches to a transaction: every output added is a
    row the transaction owns, every input added a row it redeems, each with
    the distinct addresses of its output; the input carries the credentials
    of the signed rows of that output and redeeming transaction, in the
    order of the rows. *)
Lemma dressOne_shape (merged : list compositeRecord.t) (st : dressMaps)
    (tx : Transaction.t) :
  collect 0 merged emptyMaps = Ok st ->
  let rows := (attach (outputAddrs st) merged (inputsMap st)).1 in
  let inputs := (attach (outputAddrs st) merged (inputsMap st)).2 in
  let tx' := dressOne rows inputs st tx in
  exists newIns newOuts,
    Transaction.Inputs tx' = Transaction.Inputs tx ++ newIns
    /\ Transaction.Outputs tx' = Transaction.Outputs tx ++ newOuts
    /\ (forall o, o ∈ newOuts ->
          exists r,
            r ∈ merged
            /\ Output.TransactionID (compositeRecord.Output r) = Transaction.ID tx
            /\ o = Output.setAddresses (compositeRecord.Output r)
                     (elements (addressesOf
                                  (Output.ID (compositeRecord.Output r)) merged)))
    /\ (forall inp, inp ∈ newIns ->
          exists r,
            r ∈ merged
            /\ Output.RedeemingTransactionID (compositeRecord.Output r)
               = Transaction.ID tx
            /\ Input.Output inp
               = Output.setAddresses (compositeRecord.Output r)
                   (elements (addressesOf
                                (Output.ID (compositeRecord.Output r)) merged))
            /\ Input.Creds inp
               = credsFor (Transaction.ID tx)
                   (Output.ID (compositeRecord.Output r)) merged).
Proof.
  intros Hrun rows inputs tx'.
  pose proof (collect_cellsOK merged st Hrun) as Hcells.
  destruct (attach_inv merged (outputAddrs st) (inputsMap st) Hcells)
    as (Hlen & Hrows & Hin).
  fold rows in Hlen, Hrows. fold inputs in Hin.
  rewrite firstn_all in Hin.
  assert (Hrow : forall i r, merged !! i = Some r ->
            derefOutput rows i
            = Output.setAddresses (compositeRecord.Output r)
                (elements (addressesOf (Output.ID (compositeRecord.Output r))
                             merged))).
  { intros i r Hi. unfold derefOutput.
    rewrite (list_lookup_total_correct _ _ _ (Hrows i r Hi)).
    rewrite decide_True by (by eapply lookup_lt_Some).
    unfold dressedRow. simpl. by rewrite (collect_addressesOf merged st _ Hrun). }
  exists (match inputs !! Transaction.ID tx with
          | Some m => derefInput rows <$> (map_to_list m).*2
          | None => []
          end),
         (match outputsMap st !! Transaction.ID tx with
          | Some m => derefOutput rows <$> (map_to_list m).*2
          | None => []
          end).
  unfold tx', dressOne. cbv zeta.
  cbn [Transaction.dressed Transaction.Inputs Transaction.Outputs].
  split. { destruct (inputs !! _); [done|by rewrite app_nil_r]. }
  split. { destruct (outputsMap st !! _); [done|by rewrite app_nil_r]. }
  split.
  - intros o Ho.
    destruct (outputsMap st !! Transaction.ID tx) as [m|] eqn:Hm;
      [|by apply elem_of_nil in Ho].
    apply list_elem_of_fmap in Ho as (i & -> & Hi).
    apply list_elem_of_fmap in Hi as ([k i'] & -> & Hki).
    apply elem_of_map_to_list in Hki. simpl.
    assert (Hl2 : lookup2 (outputsMap st) (Transaction.ID tx) k = Some i').
    { unfold lookup2. by rewrite Hm. }
    destruct (collect_outputsOK merged st _ _ _ Hrun Hl2) as (r & Hr & Hk & Ht).
    exists r. split; [by eapply list_elem_of_lookup_2|]. split; [done|].
    by apply Hrow.
  - intros inp Hinp.
    destruct (inputs !! Transaction.ID tx) as [m|] eqn:Hm;
      [|by apply elem_of_nil in Hinp].
    apply list_elem_of_fmap in Hinp as (c & -> & Hc).
    apply list_elem_of_fmap in Hc as ([k c'] & -> & Hkc).
    apply elem_of_map_to_list in Hkc. simpl.
    assert (Hl2 : lookup2 inputs (Transaction.ID tx) k = Some c').
    { unfold lookup2. by rewrite Hm. }
    rewrite Hin in Hl2.
    destruct (lookup2 (inputsMap st) (Transaction.ID tx) k) as [c0|] eqn:Hc0;
      [|done].
    injection Hl2 as <-.
    destruct (Hcells _ _ _ Hc0) as (_ & r & Hr & Hk & Ht).
    exists r. split; [by eapply list_elem_of_lookup_2|]. split; [done|].
    unfold derefInput. cbn [Input.Output Input.Creds withCreds InputCell.Output
                              InputCell.Creds].
    split; [by apply Hrow|]. by rewrite Hk.
Qed.

Lemma elements_pair (a1 a2 : string) :
  a1 <> a2 -> elements ({[a1; a2]} : gset string) ≡ₚ [a1; a2].
Proof.
  intros Hne. rewrite elements_union_singleton by set_solver.
  by rewrite elements_singleton.
Qed.

(** C7 fails for a batch that holds both the transaction that owns an
    output and the transaction that redeems it: each of the two statements
    loads the rows of that output, the merged rows hold every row twice,
    and the second loop appends a credential for every merged row with a
    signature.  Output O has the addresses [a1] and [a2], and only the row
    of [a1] carries a signature.  Dressed for the batch of T1 and T2, the
    input of T2 for O lists exactly the two addresses but carries the
    credential of [a1] twice; dressed for T2 alone it carries it once. *)
Theorem C7_duplicate_credentials :
  let both := dressTransactions (tableConns tableO) "get_transactions"
                batchT1T2 noObject in
  let alone := dressTransactions (tableConns tableO) "get_transactions"
                 batchT2 noObject in
  LoadCompositeRecords (tableConns tableO)
    (ownedRowsStmt "get_transactions" batchT1T2) = Ok tableO
  /\ LoadCompositeRecords (tableConns tableO)
       (redeemedRowsStmt "get_transactions" batchT1T2) = Ok tableO
  /\ List.filter (signsFor "T2" "O") tableO = [rowO "a1" [Byte.x01]]
  /\ (exists t1 t2 inp,
        both.1 = Ok [t1; t2]
        /\ Transaction.ID t2 = "T2"
        /\ Transaction.Inputs t2 = [inp]
        /\ Output.ID (Input.Output inp) = "O"
        /\ Output.Addresses (Input.Output inp) ≡ₚ ["a1"; "a2"]
        /\ Input.Creds inp
           = [credOf (rowO "a1" [Byte.x01]); credOf (rowO "a1" [Byte.x01])])
  /\ (exists t2 inp,
        alone.1 = Ok [t2]
        /\ Transaction.ID t2 = "T2"
        /\ Transaction.Inputs t2 = [inp]
        /\ Output.ID (Input.Output inp) = "O"
        /\ Output.Addresses (Input.Output inp) ≡ₚ ["a1"; "a2"]
        /\ Input.Creds inp = [credOf (rowO "a1" [Byte.x01])]).
Proof.
  intros both alone. unfold both, alone.
  split; [vm_compute; reflexivity|].
  split; [vm_compute; reflexivity|].
  split; [vm_compute; reflexivity|].
  split.
  - eexists _, _, _. split; [vm_compute; reflexivity|].
    repeat split; vm_compute; reflexivity.
  - eexists _, _. split; [vm_compute; reflexivity|].
    repeat split; vm_compute; reflexivity.
Qed.

(** The two-address output O of amount 5, dressed for its redeeming
    transaction alone: one input with both addresses and the credential of
    the signing address; the two rows of the output count 5 each. *)
Example dress_redeemer :
  summary (dressTransactions (tableConns tableO) "get_transactions" batchT2
             noObject).1
  = [("T2", [(["a1"; "a2"], ["a1"])], [], [("A", "10")], [])].
Proof. vm_compute. reflexivity. Qed.

(** Dressed together with its owner, each row is loaded by both
    statements: the merged rows hold it twice. *)
Example dress_owner_and_redeemer :
  summary (dressTransactions (tableConns tableO) "get_transactions" batchT1T2
             noObject).1
  = [("T1", [], [["a1"; "a2"]], [], [("A", "20")]);
     ("T2", [(["a1"; "a2"], ["a1"; "a1"])], [], [("A", "20")], [])].
Proof. vm_compute. reflexivity. Qed.

(** An amount that does not parse fails the whole call. *)
Example dress_invalid_amount :
  dressRows
    [{| compositeRecord.Output := Output.zero;
        compositeRecord.OutputAddress := OutputAddress.zero |}]
    batchT2
  = Err ErrInvalidAmount.
Proof. reflexivity. Qed.

(** * Further properties of the reader *)

(** ** Search: validation and the identifier paths *)

(** X1: a query shorter than the minimum length fails with the too-short
    error before any statement is run; the caller's object is untouched. *)
Theorem Search_too_short (AddressFromString FromString : string -> option string)
    (needsDistinct : ListTransactionsParams.t -> bool) (maxLimit : Z)
    (asc_ desc_ : TransactionSort) (dflt : Direction) (conns : Connections)
    (p : SearchParams.t) (tr : list Event) :
  Z.of_nat (String.length (SearchParams.Query p)) < MinSearchQueryLength ->
  Search AddressFromString FromString needsDistinct maxLimit asc_ desc_ dflt
    conns {| obj := p; trace := tr |}
  = (Err ErrSearchQueryTooShort, {| obj := p; trace := tr |}).
Proof.
  intros Hq. unfold Search. unfold_m.
  by destruct (Z.ltb_spec (Z.of_nat (String.length (SearchParams.Query p)))
                 MinSearchQueryLength); [|lia].
Qed.

Lemma Search_too_short_witness :
  Search anyID anyID noDistinct 5000 1 2 asc oneEachConns
    {| obj := {| SearchParams.ListParams := ListParams.zero;
                 SearchParams.Query := "" |};
       trace := [] |}
  = (Err ErrSearchQueryTooShort,
     {| obj := {| SearchParams.ListParams := ListParams.zero;
                  SearchParams.Query := "" |};
        trace := [] |}).
Proof. apply Search_too_short. vm_compute. reflexivity. Defined.

Lemma collate_Results (maxLimit : Z) (a : option AssetList.t)
    (b : option AddressList.t) (c : option TransactionList.t)
    (d : option OutputList.t) :
  SearchResults.Results (collateSearchResults maxLimit a b c d)
  = (ResultTypeAsset <$> from_option AssetList.Assets [] a)
    ++ (ResultTypeAddress <$> from_option AddressList.Addresses [] b)
    ++ (ResultTypeTransaction <$> from_option TransactionList.Transactions [] c).
Proof. reflexivity. Qed.

Lemma Forall_fmap_tag {A} (tag : A -> SearchResult)
    (test : SearchResult -> bool) (l : list A) :
  (forall a, test (tag a) = true) ->
  Forall (fun r => test r = true) (tag <$> l).
Proof. intros H. apply Forall_fmap, Forall_true. intros a. apply H. Qed.

(** X2: a query that parses as a short identifier is looked up among the
    addresses only, with counting disabled and the caller's object left as
    it was; what is found is returned as address results. *)
Theorem Search_short_id (AddressFromString FromString : string -> option string)
    (needsDistinct : ListTransactionsParams.t -> bool) (maxLimit : Z)
    (asc_ desc_ : TransactionSort) (dflt : Direction) (conns : Connections)
    (p : SearchParams.t) (tr : list Event) (shortID : string) :
  MinSearchQueryLength <= Z.of_nat (String.length (SearchParams.Query p)) ->
  AddressFromString (SearchParams.Query p) = Some shortID ->
  let rs := Search AddressFromString FromString needsDistinct maxLimit asc_
              desc_ dflt conns {| obj := p; trace := tr |} in
  entities (issued tr rs.2) = [EntityAddresses]
  /\ Forall (fun e => countingDisabled e = true) (issued tr rs.2)
  /\ In (Run (listAddressesStmt (shortIDParams shortID))) (issued tr rs.2)
  /\ obj rs.2 = p
  /\ forall found, rs.1 = Ok found ->
       Forall (fun r => isAddressResult r = true) (SearchResults.Results found).
Proof.
  intros Hlen Hshort rs.
  remember (Search AddressFromString FromString needsDistinct maxLimit asc_
              desc_ dflt conns {| obj := p; trace := tr |}) as rs0 eqn:Hrs.
  subst rs.
  unfold Search in Hrs. unfold bind at 1, getObj in Hrs. cbn [obj] in Hrs.
  destruct (Z.ltb_spec (Z.of_nat (String.length (SearchParams.Query p)))
              MinSearchQueryLength) as [|_]; [lia|].
  rewrite Hshort in Hrs. unfold searchByShortID in Hrs.
  fold (shortIDParams shortID) in Hrs.
  set (ld := Run (listAddressesStmt (shortIDParams shortID))) in *.
  assert (Hld : entityOf ld = Some EntityAddresses)
    by apply entityOf_listAddresses.
  assert (Hcd : countingDisabled ld = true)
    by by apply countingDisabled_listAddresses.
  unfold bind at 1, call at 1 in Hrs. cbn [trace obj] in Hrs.
  destruct (ListAddresses_nocount conns (shortIDParams shortID) tr eq_refl)
    as (devs & Hdevs & Hs1).
  fold ld in Hs1.
  destruct (ListAddresses _ _) as [rd s1]. cbn [fst snd] in *.
  subst s1. cbn [trace obj] in Hrs.
  pose proof (dress_entities devs Hdevs) as Hedevs.
  pose proof (dress_countingDisabled devs Hdevs) as Hcdevs.
  assert (Hfinal : issued tr {| obj := p; trace := (tr ++ [ld]) ++ devs |}
                   = ld :: devs).
  { rewrite <- app_assoc. by rewrite issued_app. }
  assert (Hent : entities (ld :: devs) = [EntityAddresses]).
  { by rewrite entities_cons, Hld, Hedevs. }
  destruct rd as [addresses|e].
  - destruct (0 <? length (AddressList.Addresses addresses))%nat;
      subst rs0; unfold ret; cbn [fst snd]; rewrite Hfinal, Hent;
      (repeat split; [by constructor|by left|]);
      intros found [= <-].
    + rewrite collate_Results. simpl. rewrite app_nil_r.
      by apply Forall_fmap_tag.
    + constructor.
  - subst rs0. cbn [fst snd]. rewrite Hfinal, Hent.
    repeat split; [by constructor|by left|]. intros found [=].
Qed.

Lemma Search_short_id_witness :
  let rs := Search anyID noID noDistinct 5000 1 2 asc oneEachConns
              {| obj := searchFoo; trace := [] |} in
  entities (issued [] rs.2) = [EntityAddresses]
  /\ Forall (fun e => countingDisabled e = true) (issued [] rs.2)
  /\ In (Run (listAddressesStmt (shortIDParams "foo"))) (issued [] rs.2)
  /\ obj rs.2 = searchFoo
  /\ forall found, rs.1 = Ok found ->
       Forall (fun r => isAddressResult r = true) (SearchResults.Results found).
Proof.
  apply (Search_short_id anyID noID noDistinct 5000 1 2 asc oneEachConns
           searchFoo [] "foo").
  - vm_compute. discriminate.
  - reflexivity.
Defined.

(** X3: a query that parses as an identifier (and not as a short one) is
    looked up among the assets first and among the transactions only when
    no asset has it; addresses are never queried, counting is disabled,
    the caller's object is left as it was, and the results are all assets
    or all transactions. *)
Theorem Search_id (AddressFromString FromString : string -> option string)
    (needsDistinct : ListTransactionsParams.t -> bool) (maxLimit : Z)
    (asc_ desc_ : TransactionSort) (dflt : Direction) (conns : Connections)
    (p : SearchParams.t) (tr : list Event) (id : string) :
  MinSearchQueryLength <= Z.of_nat (String.length (SearchParams.Query p)) ->
  AddressFromString (SearchParams.Query p) = None ->
  FromString (SearchParams.Query p) = Some id ->
  let rs := Search AddressFromString FromString needsDistinct maxLimit asc_
              desc_ dflt conns {| obj := p; trace := tr |} in
  entities (issued tr rs.2)
  = match LoadAssets conns (listAssetsStmt (idAssetsParams id)) with
    | Err _ => [EntityAssets]
    | Ok assets =>
      if (0 <? length assets)%nat then [EntityAssets]
      else [EntityAssets; EntityTransactions]
    end
  /\ Forall (fun e => countingDisabled e = true) (issued tr rs.2)
  /\ obj rs.2 = p
  /\ forall found, rs.1 = Ok found ->
       Forall (fun r => isAssetResult r = true) (SearchResults.Results found)
       \/ Forall (fun r => isTransactionResult r = true)
            (SearchResults.Results found).
Proof.
  intros Hlen Hshort Hid rs.
  remember (Search AddressFromString FromString needsDistinct maxLimit asc_
              desc_ dflt conns {| obj := p; trace := tr |}) as rs0 eqn:Hrs.
  subst rs.
  unfold Search in Hrs. unfold bind at 1, getObj in Hrs. cbn [obj] in Hrs.
  destruct (Z.ltb_spec (Z.of_nat (String.length (SearchParams.Query p)))
              MinSearchQueryLength) as [|_]; [lia|].
  rewrite Hshort, Hid in Hrs. unfold searchByID in Hrs.
  fold (idAssetsParams id) (idTransactionsParams id) in Hrs.
  set (la := Run (listAssetsStmt (idAssetsParams id))) in *.
  set (lt := Run (listTransactionsStmt needsDistinct asc_ desc_ dflt
                    (idTransactionsParams id))) in *.
  assert (Hla : entityOf la = Some EntityAssets) by apply entityOf_listAssets.
  assert (Hlt : entityOf lt = Some EntityTransactions)
    by apply entityOf_listTransactions.
  assert (Hca : countingDisabled la = true)
    by by apply countingDisabled_listAssets.
  assert (Hct : countingDisabled lt = true)
    by by apply countingDisabled_listTransactions.
  unfold bind at 1, call at 1 in Hrs. cbn [trace obj] in Hrs.
  rewrite ListAssets_nocount in Hrs by done. fold la in Hrs.
  destruct (LoadAssets conns _) as [assets|e];
    cbn [AssetList.Assets trace obj snd] in Hrs.
  2:{ subst rs0. cbn [fst snd]. rewrite issued_app, entities_cons, Hla.
      repeat split; [by repeat constructor|]. intros found [=]. }
  destruct (0 <? length assets)%nat.
  { subst rs0. unfold ret. cbn [fst snd]. rewrite issued_app, entities_cons, Hla.
    repeat split; [by repeat constructor|]. intros found [= <-]. left.
    rewrite collate_Results. simpl. rewrite ?app_nil_r.
    by apply Forall_fmap_tag. }
  unfold bind at 1, call at 1 in Hrs. cbn [trace obj] in Hrs.
  destruct (ListTransactions_nocount needsDistinct asc_ desc_ dflt conns
              (idTransactionsParams id) (tr ++ [la]) eq_refl)
    as (devs & Hdevs & Hs1).
  fold lt in Hs1.
  destruct (ListTransactions _ _ _ _ _ _) as [rt s1]. cbn [fst snd] in *.
  subst s1. cbn [trace obj] in Hrs.
  pose proof (dress_entities devs Hdevs) as Hedevs.
  pose proof (dress_countingDisabled devs Hdevs) as Hcdevs.
  assert (Hfinal : issued tr {| obj := p; trace := ((tr ++ [la]) ++ [lt]) ++ devs |}
                   = la :: lt :: devs).
  { rewrite <- !app_assoc. by rewrite issued_app. }
  assert (Hent : entities (la :: lt :: devs)
                 = [EntityAssets; EntityTransactions]).
  { by rewrite !entities_cons, Hla, Hlt, Hedevs. }
  destruct rt as [transactions|e].
  - destruct (0 <? length (TransactionList.Transactions transactions))%nat;
      subst rs0; unfold ret; cbn [fst snd]; rewrite Hfinal, Hent;
      (repeat split; [by repeat constructor|]);
      intros found [= <-]; right.
    + rewrite collate_Results. simpl. rewrite ?app_nil_r.
      by apply Forall_fmap_tag.
    + constructor.
  - subst rs0. cbn [fst snd]. rewrite Hfinal, Hent.
    repeat split; [by repeat constructor|]. intros found [=].
Qed.

Lemma Search_id_witness :
  let rs := Search noID anyID noDistinct 5000 1 2 asc oneEachConns
              {| obj := searchFoo; trace := [] |} in
  entities (issued [] rs.2)
  = match LoadAssets oneEachConns (listAssetsStmt (idAssetsParams "foo")) with
    | Err _ => [EntityAssets]
    | Ok assets =>
      if (0 <? length assets)%nat then [EntityAssets]
      else [EntityAssets; EntityTransactions]
    end
  /\ Forall (fun e => countingDisabled e = true) (issued [] rs.2)
  /\ obj rs.2 = searchFoo
  /\ forall found, rs.1 = Ok found ->
       Forall (fun r => isAssetResult r = true) (SearchResults.Results found)
       \/ Forall (fun r => isTransactionResult r = true)
            (SearchResults.Results found).
Proof.
  apply (Search_id noID anyID noDistinct 5000 1 2 asc oneEachConns
           searchFoo [] "foo").
  - vm_compute. discriminate.
  - reflexivity.
  - reflexivity.
Defined.

(** X4: the collated result list is every asset, then every address,
    then every transaction handed over, each under its type tag and in the
    order given; only the reported count is capped at the pagination
    maximum, so the count never exceeds the number of results and falls
    short of it once the maximum is passed. *)
Theorem collateSearchResults_count (maxLimit : Z) (a : option AssetList.t)
    (b : option AddressList.t) (c : option TransactionList.t)
    (d : option OutputList.t) :
  0 <= maxLimit < 2 ^ 64 ->
  let r := collateSearchResults maxLimit a b c d in
  SearchResults.Results r
  = (ResultTypeAsset <$> from_option AssetList.Assets [] a)
    ++ (ResultTypeAddress <$> from_option AddressList.Addresses [] b)
    ++ (ResultTypeTransaction
          <$> from_option TransactionList.Transactions [] c)
  /\ Z.of_nat (length (SearchResults.Results r)) = resultTotal a b c
  /\ SearchResults.Count r = Z.min maxLimit (resultTotal a b c)
  /\ SearchResults.Count r <= Z.of_nat (length (SearchResults.Results r)).
Proof.
  intros Hmax r.
  assert (Hlen : Z.of_nat (length (SearchResults.Results r)) = resultTotal a b c).
  { unfold r. rewrite collate_Results, !length_app, !length_fmap.
    unfold resultTotal. lia. }
  assert (Hcount : SearchResults.Count r = Z.min maxLimit (resultTotal a b c)).
  { unfold r, collateSearchResults, resultTotal. cbn [SearchResults.Count].
    cbn [length]. rewrite Z.add_0_r.
    set (n := _ + _ + _).
    assert (0 <= n) by (unfold n; lia).
    unfold uint64. destruct (Z.ltb_spec maxLimit n).
    - rewrite Z.mod_small by lia. lia.
    - rewrite Z.mod_small by lia. lia. }
  split; [apply collate_Results|].
  repeat split; [done|done|]. rewrite Hcount, Hlen. lia.
Qed.

Lemma collateSearchResults_count_witness :
  let r := collateSearchResults 1
             (Some {| AssetList.Count := 0;
                      AssetList.Assets := [asset "A"; asset "B"] |})
             None
             (Some {| TransactionList.Count := 0;
                      TransactionList.Transactions := [transaction "T"] |})
             None in
  SearchResults.Results r
  = [ResultTypeAsset (asset "A"); ResultTypeAsset (asset "B");
     ResultTypeTransaction (transaction "T")]
  /\ Z.of_nat (length (SearchResults.Results r)) = 3
  /\ SearchResults.Count r = 1
  /\ SearchResults.Count r <= Z.of_nat (length (SearchResults.Results r)).
Proof.
  apply (collateSearchResults_count 1
           (Some {| AssetList.Count := 0;
                    AssetList.Assets := [asset "A"; asset "B"] |})
           None
           (Some {| TransactionList.Count := 0;
                    TransactionList.Transactions := [transaction "T"] |})
           None).
  lia.
Defined.

(** ** The singular accessors *)

Lemma ge_int_0 (n : nat) : ge_int n 0 = true.
Proof. unfold ge_int. apply Z.leb_le. lia. Qed.

Lemma getAssetParams_zero (FromString : string -> option string)
    (idStrOrAlias : string) :
  ListAssetsParams.ListParams (getAssetParams FromString idStrOrAlias)
  = ListParams.zero
  /\ ListAssetsParams.setListParams (getAssetParams FromString idStrOrAlias)
       ListParams.zero
     = getAssetParams FromString idStrOrAlias.
Proof. unfold getAssetParams. by destruct (FromString idStrOrAlias). Qed.

(** X5: [GetAsset] passes the zero [ListParams], so every page it loads is
    saturated: after a successful lookup it always runs the count statement
    over the assets, whether or not the asset was found, and an error of
    the count statement is the error of the call although the count is
    never returned.  Otherwise the result is the first asset loaded, if
    any. *)
Theorem GetAsset_counts {P} (FromString : string -> option string)
    (conns : Connections) (idStrOrAlias : string) (s : St P) :
  let params := getAssetParams FromString idStrOrAlias in
  GetAsset FromString conns idStrOrAlias s
  = match LoadAssets conns (listAssetsStmt params) with
    | Err e =>
      (Err e,
       {| obj := obj s; trace := trace s ++ [Run (listAssetsStmt params)] |})
    | Ok assets =>
      (match LoadOne conns (countAssetsStmt params) with
       | Ok _ => Ok (head assets)
       | Err e => Err e
       end,
       {| obj := obj s;
          trace := trace s ++ [Run (listAssetsStmt params);
                               Run (countAssetsStmt params)] |})
    end.
Proof.
  intros params. unfold GetAsset. fold (getAssetParams FromString idStrOrAlias).
  fold params. unfold bind at 1, call at 1.
  rewrite ListAssets_run.
  destruct (getAssetParams_zero FromString idStrOrAlias) as [Hz Hset].
  fold params in Hz, Hset. rewrite Hz. cbn [ListParams.DisableCounting].
  destruct (LoadAssets conns _) as [assets|e]; [|done].
  change (ListParams.Limit ListParams.zero) with 0.
  rewrite ge_int_0. cbv zeta. rewrite Hset.
  destruct (LoadOne conns _); unfold ret; cbn [obj trace AssetList.Assets];
    by rewrite <- app_assoc.
Qed.

(** X6: [GetOutput] for an identifier no output has returns nothing after
    the list statement alone; when an output is found, the statement for
    its addresses and then the count statement are run, and an error of
    either is the error of the call. *)
Theorem GetOutput_counts {P} (conns : Connections) (id : string) (s : St P) :
  let params := getOutputParams id in
  let list := listOutputsStmt params in
  GetOutput conns id s
  = match LoadOutputs conns list with
    | Err e => (Err e, {| obj := obj s; trace := trace s ++ [Run list] |})
    | Ok [] => (Ok None, {| obj := obj s; trace := trace s ++ [Run list] |})
    | Ok (o :: rest) =>
      let outputs := o :: rest in
      let addrs := outputAddressesStmt (Output.ID <$> outputs) in
      match LoadOutputAddresses conns addrs with
      | Err e =>
        (Err e, {| obj := obj s; trace := trace s ++ [Run list; Run addrs] |})
      | Ok addresses =>
        (match LoadOne conns (countOutputsStmt params) with
         | Ok _ =>
           Ok (head (fold_left (appendAddress (indexBy Output.ID 0%nat outputs ∅))
                       addresses outputs))
         | Err e => Err e
         end,
         {| obj := obj s;
            trace := trace s ++ [Run list; Run addrs;
                                 Run (countOutputsStmt params)] |})
      end
    end.
Proof.
  intros params list. unfold GetOutput. fold (getOutputParams id). fold params.
  unfold bind at 1, call at 1. rewrite ListOutputs_run. cbv zeta. fold list.
  destruct (LoadOutputs conns list) as [[|o rest]|e]; [done| |done].
  cbn [length Nat.ltb Nat.leb].
  destruct (LoadOutputAddresses conns _) as [addresses|e].
  2:{ cbn [obj trace]. by rewrite <- app_assoc. }
  change (ListParams.DisableCounting (ListOutputsParams.ListParams params))
    with false.
  change (ListParams.Limit (ListOutputsParams.ListParams params)) with 0.
  rewrite ge_int_0.
  change (ListOutputsParams.setListParams params ListParams.zero) with params.
  destruct (LoadOne conns _); unfold ret; cbn [obj trace OutputList.Outputs];
    by rewrite <- !app_assoc.
Qed.

(** X7: [GetTransaction] and [GetAddress] run the count statement right
    after a successful lookup; when it fails, the call fails with its
    error before any dressing statement is run, even though the entity was
    loaded. *)
Theorem Get_count_failure :
  (forall (P : Type) (needsDistinct : ListTransactionsParams.t -> bool)
          (asc_ desc_ : TransactionSort) (dflt : Direction)
          (conns : Connections) (id : string) (s : St P)
          (txs : list Transaction.t) (e : error),
     let list := listTransactionsStmt needsDistinct asc_ desc_ dflt
                   (getTransactionParams id) in
     let count := countTransactionsStmt needsDistinct (getTransactionParams id) in
     LoadTransactions conns list = Ok txs ->
     LoadOne conns count = Err e ->
     GetTransaction needsDistinct asc_ desc_ dflt conns id s
     = (Err e, {| obj := obj s; trace := trace s ++ [Run list; Run count] |}))
  /\ (forall (P : Type) (conns : Connections) (id : string) (s : St P)
             (addresses : list AddressInfo.t) (e : error),
        let list := listAddressesStmt (getAddressParams id) in
        let count := countAddressesStmt (getAddressParams id) in
        LoadAddresses conns list = Ok addresses ->
        LoadOne conns count = Err e ->
        GetAddress conns id s
        = (Err e, {| obj := obj s; trace := trace s ++ [Run list; Run count] |})).
Proof.
  split.
  - intros P needsDistinct asc_ desc_ dflt conns id s txs e list count Hl Hc.
    unfold GetTransaction. fold (getTransactionParams id).
    unfold bind at 1, call at 1. rewrite ListTransactions_run. cbv zeta.
    fold list. rewrite Hl.
    change (ListParams.DisableCounting
              (ListTransactionsParams.ListParams (getTransactionParams id)))
      with false.
    change (ListParams.Limit
              (ListTransactionsParams.ListParams (getTransactionParams id)))
      with 0.
    rewrite ge_int_0.
    change (ListTransactionsParams.setListParams (getTransactionParams id)
              ListParams.zero) with (getTransactionParams id).
    fold count. rewrite Hc. unfold finishTransactions. cbn [obj trace].
    by rewrite <- app_assoc.
  - intros P conns id s addresses e list count Hl Hc.
    unfold GetAddress. fold (getAddressParams id).
    unfold bind at 1, call at 1. rewrite ListAddresses_run.
    fold list. rewrite Hl.
    change (ListParams.DisableCounting
              (ListAddressesParams.ListParams (getAddressParams id)))
      with false.
    change (ListParams.Limit
              (ListAddressesParams.ListParams (getAddressParams id)))
      with 0.
    rewrite ge_int_0. cbv zeta.
    change (ListAddressesParams.setListParams (getAddressParams id)
              ListParams.zero) with (getAddressParams id).
    fold count. rewrite Hc. unfold finishAddresses. cbn [obj trace].
    by rewrite <- app_assoc.
Qed.

Lemma Get_count_failure_witness :
  GetTransaction noDistinct 1 2 asc noCountConns "T" noObject
  = (Err (ErrStorage "count"),
     {| obj := tt;
        trace := [Run (listTransactionsStmt noDistinct 1 2 asc
                         (getTransactionParams "T"));
                  Run (countTransactionsStmt noDistinct
                         (getTransactionParams "T"))] |})
  /\ GetAddress noCountConns "a" noObject
     = (Err (ErrStorage "count"),
        {| obj := tt;
           trace := [Run (listAddressesStmt (getAddressParams "a"));
                     Run (countAddressesStmt (getAddressParams "a"))] |}).
Proof.
  split.
  - apply (proj1 Get_count_failure unit noDistinct 1 2 asc noCountConns "T"
             noObject
             [transaction "T"] (ErrStorage "count")); reflexivity.
  - apply (proj2 Get_count_failure unit noCountConns "a" noObject
             [addressInfo "a"] (ErrStorage "count")); reflexivity.
Defined.

(** ** Transaction dressing: outcome and exactness *)

Lemma collect_Err (i : nat) (rows : list compositeRecord.t) (st : dressMaps)
    (e : error) :
  collect i rows st = Err e -> e = ErrInvalidAmount.
Proof.
  revert i st. induction rows as [|r rows IH]; intros i st; [done|].
  simpl. destruct (collectRow st i r) as [st1|e1] eqn:Hrow.
  - apply IH.
  - intros [= <-]. unfold collectRow in Hrow. cbv zeta in Hrow.
    destruct (BigInt.SetString _); [done|]. by injection Hrow as <-.
Qed.

Lemma dressRows_Err (merged : list compositeRecord.t) (txs : list Transaction.t)
    (e : error) :
  dressRows merged txs = Err e -> e = ErrInvalidAmount.
Proof.
  unfold dressRows. destruct (collect 0 merged emptyMaps) as [st|e1] eqn:Hc.
  - by destruct (attach _ _ _).
  - intros [= <-]. by eapply collect_Err.
Qed.

Lemma dressTransactions_state {P} (conns : Connections) (dbRunner : string)
    (txs : list Transaction.t) (s : St P)
    (outputs inputs : list compositeRecord.t) :
  txs <> [] ->
  LoadCompositeRecords conns (ownedRowsStmt dbRunner txs) = Ok outputs ->
  LoadCompositeRecords conns (redeemedRowsStmt dbRunner txs) = Ok inputs ->
  (dressTransactions conns dbRunner txs s).2
  = {| obj := obj s;
       trace := trace s ++ [Run (ownedRowsStmt dbRunner txs);
                            Run (redeemedRowsStmt dbRunner txs)] |}.
Proof.
  intros Hne. unfold dressTransactions, ownedRowsStmt, redeemedRowsStmt.
  destruct txs as [|tx txs]; [done|].
  change (length (tx :: txs) =? 0)%nat with false. cbv iota. unfold_m.
  intros -> ->. msimpl. rewrite <- app_assoc.
  by destruct (dressRows _ _).
Qed.

(** X8: once both row statements have answered, dressing a non-empty batch
    succeeds exactly when the amount of every merged row is a decimal
    number; a single unreadable amount fails the whole batch with the
    invalid-amount error.  Either way both statements were run and the
    caller's object is untouched. *)
Theorem dressTransactions_outcome {P} (conns : Connections) (dbRunner : string)
    (txs : list Transaction.t) (s : St P)
    (outputs inputs : list compositeRecord.t) :
  txs <> [] ->
  LoadCompositeRecords conns (ownedRowsStmt dbRunner txs) = Ok outputs ->
  LoadCompositeRecords conns (redeemedRowsStmt dbRunner txs) = Ok inputs ->
  let merged := outputs ++ inputs in
  let rs := dressTransactions conns dbRunner txs s in
  ((exists txs', rs.1 = Ok txs') <-> Forall amountParses merged)
  /\ (~ Forall amountParses merged -> rs.1 = Err ErrInvalidAmount)
  /\ rs.2 = {| obj := obj s;
               trace := trace s ++ [Run (ownedRowsStmt dbRunner txs);
                                    Run (redeemedRowsStmt dbRunner txs)] |}.
Proof.
  intros Hne Houts Hins merged rs.
  assert (Hres : rs.1 = dressRows merged txs).
  { unfold rs. by rewrite dressTransactions_result, Houts, Hins. }
  assert (Hok : (exists txs', rs.1 = Ok txs') <-> Forall amountParses merged).
  { rewrite Hres. split.
    - intros [txs' Hrows]. apply dressRows_Ok in Hrows as (st & Hc & _).
      by eapply collect_Ok_parses.
    - apply dressRows_parses. }
  split; [done|]. split.
  - intros Hbad. destruct rs.1 as [txs'|e] eqn:Hrun.
    + destruct Hbad. apply Hok. by exists txs'.
    + f_equal. symmetry in Hres. by eapply dressRows_Err.
  - by apply (dressTransactions_state conns dbRunner txs s outputs inputs).
Qed.

Lemma dressTransactions_outcome_witness :
  let merged := [badRow] ++ [] in
  let rs := dressTransactions (tableConns [badRow]) "s" [transaction "T1"]
              noObject in
  ((exists txs', rs.1 = Ok txs') <-> Forall amountParses merged)
  /\ (~ Forall amountParses merged -> rs.1 = Err ErrInvalidAmount)
  /\ rs.2 = {| obj := tt;
               trace := [Run (ownedRowsStmt "s" [transaction "T1"]);
                         Run (redeemedRowsStmt "s" [transaction "T1"])] |}.
Proof.
  apply (dressTransactions_outcome (tableConns [badRow]) "s" [transaction "T1"]
           noObject [badRow] []).
  - discriminate.
  - reflexivity.
  - reflexivity.
Defined.

Lemma collect_present (i0 : nat) (rows : list compositeRecord.t)
    (st st' : dressMaps) :
  collect i0 rows st = Ok st' ->
  (forall t k, is_Some (lookup2 (inputsMap st) t k) ->
               is_Some (lookup2 (inputsMap st') t k))
  /\ (forall t k, is_Some (lookup2 (outputsMap st) t k) ->
                  is_Some (lookup2 (outputsMap st') t k))
  /\ (forall r, r ∈ rows ->
        is_Some (lookup2 (inputsMap st')
                   (Output.RedeemingTransactionID (compositeRecord.Output r))
                   (Output.ID (compositeRecord.Output r)))
        /\ is_Some (lookup2 (outputsMap st')
                      (Output.TransactionID (compositeRecord.Output r))
                      (Output.ID (compositeRecord.Output r)))).
Proof.
  revert i0 st. induction rows as [|r rows IH]; intros i0 st Hrun.
  - injection Hrun as <-. split; [done|]. split; [done|].
    by intros ? ?%elem_of_nil.
  - apply collect_cons in Hrun as (st1 & Hrow & Hrest).
    destruct (IH _ _ Hrest) as (IHi & IHo & IHr).
    apply collectRow_Ok in Hrow as (v & _ & _ & Ho & Hi & _ & _).
    assert (Hi1 : forall t k, is_Some (lookup2 (inputsMap st) t k) ->
                              is_Some (lookup2 (inputsMap st1) t k)).
    { intros t k Hsome. rewrite Hi, lookup2_insert. by case_decide. }
    assert (Ho1 : forall t k, is_Some (lookup2 (outputsMap st) t k) ->
                              is_Some (lookup2 (outputsMap st1) t k)).
    { intros t k Hsome. rewrite Ho, lookup2_insert. by case_decide. }
    split; [by auto|]. split; [by auto|].
    intros r' [->|Hr']%elem_of_cons; [|by apply IHr].
    split.
    + apply IHi. rewrite Hi, lookup2_insert. by rewrite decide_True.
    + apply IHo. rewrite Ho, lookup2_insert. by rewrite decide_True.
Qed.

Lemma ids_of_map {V A} (m : gmap string V) (g : V -> A) (id : A -> string) :
  (forall k v, m !! k = Some v -> id (g v) = k) ->
  id <$> (g <$> (map_to_list m).*2) = (map_to_list m).*1.
Proof.
  intros H. rewrite <- !list_fmap_compose. apply list_fmap_ext.
  intros i [k v] Hi. simpl. apply H. apply elem_of_map_to_list.
  by eapply list_elem_of_lookup_2.
Qed.

Lemma elem_of_keys {V} (m : gmap string V) (k : string) :
  k ∈ (map_to_list m).*1 <-> is_Some (m !! k).
Proof.
  split.
  - intros ([k' v] & -> & Hkv)%list_elem_of_fmap.
    apply elem_of_map_to_list in Hkv. by exists v.
  - intros [v Hv]. apply list_elem_of_fmap. exists (k, v).
    split; [done|]. by apply elem_of_map_to_list.
Qed.

Lemma dressOne_exact (merged : list compositeRecord.t) (st : dressMaps)
    (tx : Transaction.t) :
  collect 0 merged emptyMaps = Ok st ->
  let rows := (attach (outputAddrs st) merged (inputsMap st)).1 in
  let inputs := (attach (outputAddrs st) merged (inputsMap st)).2 in
  let tx' := dressOne rows inputs st tx in
  sameHeader tx tx'
  /\ exists newIns newOuts,
      Transaction.Inputs tx' = Transaction.Inputs tx ++ newIns
      /\ Transaction.Outputs tx' = Transaction.Outputs tx ++ newOuts
      /\ NoDup (Output.ID <$> newOuts)
      /\ (forall k, k ∈ Output.ID <$> newOuts
                    <-> ownsOutput merged (Transaction.ID tx) k)
      /\ NoDup ((fun inp => Output.ID (Input.Output inp)) <$> newIns)
      /\ (forall k, k ∈ (fun inp => Output.ID (Input.Output inp)) <$> newIns
                    <-> redeemsOutput merged (Transaction.ID tx) k).
Proof.
  intros Hrun rows inputs tx'.
  split; [done|].
  pose proof (collect_cellsOK merged st Hrun) as Hcells.
  destruct (collect_present 0 merged emptyMaps st Hrun) as (_ & _ & Hpresent).
  destruct (attach_inv merged (outputAddrs st) (inputsMap st) Hcells)
    as (Hlen & Hrows & Hin).
  fold rows in Hlen, Hrows. fold inputs in Hin.
  rewrite firstn_all in Hin.
  assert (Hrow : forall i r, merged !! i = Some r ->
            Output.ID (derefOutput rows i) = Output.ID (compositeRecord.Output r)).
  { intros i r Hi. unfold derefOutput.
    rewrite (list_lookup_total_correct _ _ _ (Hrows i r Hi)).
    by rewrite decide_True by (by eapply lookup_lt_Some). }
  exists (match inputs !! Transaction.ID tx with
          | Some m => derefInput rows <$> (map_to_list m).*2
          | None => []
          end),
         (match outputsMap st !! Transaction.ID tx with
          | Some m => derefOutput rows <$> (map_to_list m).*2
          | None => []
          end).
  unfold tx', dressOne. cbv zeta.
  cbn [Transaction.dressed Transaction.Inputs Transaction.Outputs].
  split. { destruct (inputs !! _); [done|by rewrite app_nil_r]. }
  split. { destruct (outputsMap st !! _); [done|by rewrite app_nil_r]. }
  assert (Houts : forall k,
            is_Some (lookup2 (outputsMap st) (Transaction.ID tx) k)
            <-> ownsOutput merged (Transaction.ID tx) k).
  { intros k. split.
    - intros [i Hi].
      destruct (collect_outputsOK merged st _ _ _ Hrun Hi) as (r & Hr & Hk & Ht).
      exists r. split; [by eapply list_elem_of_lookup_2|done].
    - intros (r & Hr & <- & <-). by apply Hpresent. }
  assert (Hins : forall k,
            is_Some (lookup2 inputs (Transaction.ID tx) k)
            <-> redeemsOutput merged (Transaction.ID tx) k).
  { intros k. rewrite Hin, fmap_is_Some. split.
    - intros [c Hc]. destruct (Hcells _ _ _ Hc) as (_ & r & Hr & Hk & Ht).
      exists r. split; [by eapply list_elem_of_lookup_2|done].
    - intros (r & Hr & <- & <-). by apply Hpresent. }
  assert (HidO : forall mo, outputsMap st !! Transaction.ID tx = Some mo ->
            Output.ID <$> (derefOutput rows <$> (map_to_list mo).*2)
            = (map_to_list mo).*1).
  { intros mo Hmo. apply ids_of_map. intros k i Hki.
    assert (Hl2 : lookup2 (outputsMap st) (Transaction.ID tx) k = Some i)
      by (unfold lookup2; by rewrite Hmo).
    destruct (collect_outputsOK merged st _ _ _ Hrun Hl2) as (r & Hr & Hk & _).
    by rewrite (Hrow _ _ Hr). }
  assert (HidI : forall mi, inputs !! Transaction.ID tx = Some mi ->
            (fun inp => Output.ID (Input.Output inp))
              <$> (derefInput rows <$> (map_to_list mi).*2)
            = (map_to_list mi).*1).
  { intros mi Hmi.
    apply (ids_of_map mi (derefInput rows)
             (fun inp => Output.ID (Input.Output inp))).
    intros k c' Hkc.
    assert (Hl2 : lookup2 inputs (Transaction.ID tx) k = Some c')
      by (unfold lookup2; by rewrite Hmi).
    rewrite Hin in Hl2.
    destruct (lookup2 (inputsMap st) (Transaction.ID tx) k) as [c0|] eqn:Hc0;
      [|done].
    injection Hl2 as <-.
    destruct (Hcells _ _ _ Hc0) as (_ & r & Hr & Hk & _).
    cbn [derefInput Input.Output withCreds InputCell.Output].
    by rewrite (Hrow _ _ Hr). }
  assert (HO : NoDup (Output.ID <$>
                        match outputsMap st !! Transaction.ID tx with
                        | Some m => derefOutput rows <$> (map_to_list m).*2
                        | None => []
                        end)
               /\ forall k,
                   k ∈ Output.ID <$>
                         match outputsMap st !! Transaction.ID tx with
                         | Some m => derefOutput rows <$> (map_to_list m).*2
                         | None => []
                         end
                   <-> ownsOutput merged (Transaction.ID tx) k).
  { destruct (outputsMap st !! Transaction.ID tx) as [mo|] eqn:Hmo.
    - rewrite (HidO mo eq_refl). split; [apply NoDup_fst_map_to_list|].
      intros k. rewrite elem_of_keys, <- Houts. unfold lookup2.
      by rewrite Hmo.
    - split; [apply NoDup_nil_2|]. intros k. rewrite <- Houts.
      unfold lookup2. rewrite Hmo. simpl. split.
      + by intros ?%elem_of_nil.
      + by intros [? ?]. }
  assert (HI : NoDup ((fun inp => Output.ID (Input.Output inp)) <$>
                        match inputs !! Transaction.ID tx with
                        | Some m => derefInput rows <$> (map_to_list m).*2
                        | None => []
                        end)
               /\ forall k,
                   k ∈ (fun inp => Output.ID (Input.Output inp)) <$>
                         match inputs !! Transaction.ID tx with
                         | Some m => derefInput rows <$> (map_to_list m).*2
                         | None => []
                         end
                   <-> redeemsOutput merged (Transaction.ID tx) k).
  { destruct (inputs !! Transaction.ID tx) as [mi|] eqn:Hmi.
    - rewrite (HidI mi eq_refl). split; [apply NoDup_fst_map_to_list|].
      intros k. rewrite elem_of_keys, <- Hins. unfold lookup2.
      by rewrite Hmi.
    - split; [apply NoDup_nil_2|]. intros k. rewrite <- Hins.
      unfold lookup2. rewrite Hmi. simpl. split.
      + by intros ?%elem_of_nil.
      + by intros [? ?]. }
  destruct HO as [HO1 HO2], HI as [HI1 HI2].
  exact (conj HO1 (conj HO2 (conj HI1 HI2))).
Qed.

(** X9: a dressed batch has the transactions of the batch, in order and
    with their loaded fields; whatever inputs and outputs a transaction
    already had are kept in front.  The outputs attached to a transaction
    are, each exactly once, the outputs of the merged rows the transaction
    owns, and the inputs attached are, each exactly once, the outputs of
    the merged rows it redeems, however many rows (one per address) an
    output has. *)
Theorem dressTransactions_exact {P} (conns : Connections) (dbRunner : string)
    (txs txs' : list Transaction.t) (s : St P)
    (outputs inputs : list compositeRecord.t) :
  txs <> [] ->
  LoadCompositeRecords conns (ownedRowsStmt dbRunner txs) = Ok outputs ->
  LoadCompositeRecords conns (redeemedRowsStmt dbRunner txs) = Ok inputs ->
  (dressTransactions conns dbRunner txs s).1 = Ok txs' ->
  let merged := outputs ++ inputs in
  length txs' = length txs
  /\ forall (i : nat) (tx : Transaction.t),
      txs !! i = Some tx ->
      exists tx' newIns newOuts,
        txs' !! i = Some tx'
        /\ sameHeader tx tx'
        /\ Transaction.Inputs tx' = Transaction.Inputs tx ++ newIns
        /\ Transaction.Outputs tx' = Transaction.Outputs tx ++ newOuts
        /\ NoDup (Output.ID <$> newOuts)
        /\ (forall k, k ∈ Output.ID <$> newOuts
                      <-> ownsOutput merged (Transaction.ID tx) k)
        /\ NoDup ((fun inp => Output.ID (Input.Output inp)) <$> newIns)
        /\ (forall k, k ∈ (fun inp => Output.ID (Input.Output inp)) <$> newIns
                      <-> redeemsOutput merged (Transaction.ID tx) k).
Proof.
  intros Hne Houts Hins Hrun merged.
  rewrite dressTransactions_result, Houts, Hins in Hrun by done.
  fold merged in Hrun.
  apply dressRows_Ok in Hrun as (st & Hcollect & ->).
  split; [by rewrite length_fmap|].
  intros i tx Htx.
  destruct (dressOne_exact merged st tx Hcollect)
    as (Hhead & newIns & newOuts & H).
  eexists _, newIns, newOuts. split.
  { rewrite list_lookup_fmap, Htx. reflexivity. }
  split; [done|]. exact H.
Qed.

Lemma dressTransactions_exact_witness :
  exists txs',
    (dressTransactions (tableConns tableO) "get_transactions" batchT1T2
       noObject).1 = Ok txs'
    /\ length txs' = length batchT1T2
    /\ forall (i : nat) (tx : Transaction.t),
        batchT1T2 !! i = Some tx ->
        exists tx' newIns newOuts,
          txs' !! i = Some tx'
          /\ sameHeader tx tx'
          /\ Transaction.Inputs tx' = Transaction.Inputs tx ++ newIns
          /\ Transaction.Outputs tx' = Transaction.Outputs tx ++ newOuts
          /\ NoDup (Output.ID <$> newOuts)
          /\ (forall k, k ∈ Output.ID <$> newOuts
                        <-> ownsOutput (tableO ++ tableO) (Transaction.ID tx) k)
          /\ NoDup ((fun inp => Output.ID (Input.Output inp)) <$> newIns)
          /\ (forall k,
                k ∈ (fun inp => Output.ID (Input.Output inp)) <$> newIns
                <-> redeemsOutput (tableO ++ tableO) (Transaction.ID tx) k).
Proof.
  assert (Hparse : Forall amountParses (tableO ++ tableO))
    by (repeat constructor; by eexists).
  destruct (dressRows_parses (tableO ++ tableO) batchT1T2 Hparse)
    as [txs' Hrows].
  assert (Hrun : (dressTransactions (tableConns tableO) "get_transactions"
                    batchT1T2 noObject).1 = Ok txs').
  { rewrite dressTransactions_result by done. exact Hrows. }
  exists txs'. split; [exact Hrun|].
  apply (dressTransactions_exact (tableConns tableO) "get_transactions"
           batchT1T2 txs' noObject tableO tableO).
  - done.
  - vm_compute. reflexivity.
  - vm_compute. reflexivity.
  - exact Hrun.
Defined.

(** ** Lookup tables by identifier *)

Lemma indexBy_spec {A} (key : A -> string) (l : list A) (i0 : nat)
    (m : gmap string nat) (k : string) (j : nat) :
  NoDup (key <$> l) ->
  indexBy key i0 l m !! k = Some j
  <-> (exists n x, l !! n = Some x /\ key x = k /\ j = (i0 + n)%nat)
      \/ ((forall x, x ∈ l -> key x <> k) /\ m !! k = Some j).
Proof.
  revert i0 m. induction l as [|a rest IH]; intros i0 m Hnd.
  - simpl. split.
    + intros Hm. right. split; [by intros ? ?%elem_of_nil|done].
    + intros [(n & x & Hn & _)|[_ Hm]]; [done|done].
  - rewrite fmap_cons in Hnd. apply NoDup_cons in Hnd as [Hnotin Hnd].
    simpl. rewrite (IH (S i0) _ Hnd). split.
    + intros [(n & x & Hn & Hk & ->)|[Hall Hm]].
      * left. exists (S n), x. repeat split; [done|done|lia].
      * destruct (decide (key a = k)) as [Heq|Hne].
        -- rewrite <- Heq, lookup_insert_eq in Hm. injection Hm as <-.
           left. exists 0%nat, a. repeat split; [done|lia].
        -- rewrite lookup_insert_ne in Hm by done. right. split; [|done].
           intros x [->|Hx]%elem_of_cons; [done|by apply Hall].
    + intros [(n & x & Hn & Hk & ->)|[Hall Hm]].
      * destruct n as [|n].
        -- simpl in Hn. injection Hn as Hax. right. split.
           ++ intros y Hy Hky. apply Hnotin.
              apply list_elem_of_fmap. exists y. split; [congruence|done].
           ++ rewrite <- Hk, <- Hax, lookup_insert_eq. f_equal. lia.
        -- left. exists n, x. repeat split; [done|done|lia].
      * right. split.
        -- intros x Hx. apply Hall. by right.
        -- rewrite lookup_insert_ne; [done|]. apply Hall. by left.
Qed.

Lemma indexBy_Some {A} (key : A -> string) (l : list A) (k : string) (j : nat) :
  NoDup (key <$> l) ->
  indexBy key 0 l ∅ !! k = Some j <-> exists x, l !! j = Some x /\ key x = k.
Proof.
  intros Hnd. rewrite (indexBy_spec key l 0 ∅ k j Hnd). split.
  - intros [(n & x & Hn & Hk & ->)|[_ Hm]]; [by exists x|].
    by rewrite lookup_empty in Hm.
  - intros (x & Hj & Hk). left. by exists j, x.
Qed.

Lemma indexBy_None {A} (key : A -> string) (l : list A) (k : string) :
  NoDup (key <$> l) ->
  indexBy key 0 l ∅ !! k = None -> forall x, x ∈ l -> key x <> k.
Proof.
  intros Hnd Hnone x Hx Hk.
  apply list_elem_of_lookup_1 in Hx as [j Hj].
  assert (indexBy key 0 l ∅ !! k = Some j) as Hsome
    by (apply indexBy_Some; [done|by exists x]).
  by rewrite Hnone in Hsome.
Qed.

Lemma NoDup_key_index {A} (key : A -> string) (l : list A) (i j : nat)
    (x y : A) :
  NoDup (key <$> l) -> l !! i = Some x -> l !! j = Some y -> key x = key y ->
  i = j.
Proof.
  intros Hnd Hi Hj Hk.
  apply (NoDup_lookup (key <$> l) i j (key x) Hnd).
  - by rewrite list_lookup_fmap, Hi.
  - by rewrite list_lookup_fmap, Hj, Hk.
Qed.

(** ** Address dressing *)

Lemma assetRowFor_snoc (a k : string) (rows : list (string * AssetInfo.t))
    (row : string * AssetInfo.t) :
  assetRowFor a k (rows ++ [row])
  = if bool_decide (row.1 = a) && bool_decide (AssetInfo.AssetID row.2 = k)
    then Some row.2 else assetRowFor a k rows.
Proof.
  unfold assetRowFor. rewrite List.filter_app. simpl.
  destruct (_ && _).
  - by rewrite last_snoc.
  - by rewrite app_nil_r.
Qed.

Lemma accumulateRow_fold (addrs : list AddressInfo.t)
    (rows : list (string * AssetInfo.t)) :
  NoDup (AddressInfo.Address <$> addrs) ->
  let res := fold_left (accumulateRow (indexBy AddressInfo.Address 0 addrs ∅))
               rows ((fun a => AddressInfo.setAssets a ∅) <$> addrs) in
  length res = length addrs
  /\ forall i addr, addrs !! i = Some addr ->
       exists addr',
         res !! i = Some addr'
         /\ AddressInfo.Address addr' = AddressInfo.Address addr
         /\ AddressInfo.PublicKey addr' = AddressInfo.PublicKey addr
         /\ forall k, AddressInfo.Assets addr' !! k
                      = assetRowFor (AddressInfo.Address addr) k rows.
Proof.
  intros Hnd. induction rows as [|row rows IH] using rev_ind.
  - simpl. split; [by rewrite length_fmap|].
    intros i addr Hi. eexists. rewrite list_lookup_fmap, Hi. split; [done|].
    split; [done|]. split; [done|]. intros k. simpl. by rewrite lookup_empty.
  - cbv zeta in *. rewrite fold_left_app. simpl.
    set (res := fold_left _ rows _) in *.
    destruct IH as [Hlen IH].
    unfold accumulateRow.
    destruct (indexBy AddressInfo.Address 0 addrs ∅ !! row.1) as [j|] eqn:Hj.
    + apply indexBy_Some in Hj as (x & Hx & Hkx); [|done].
      destruct (IH j x Hx) as (x' & Hx' & Ha' & Hp' & Hassets).
      rewrite Hx'. split; [by rewrite length_insert|].
      intros i addr Hi. destruct (decide (i = j)) as [->|Hne].
      * assert (addr = x) as -> by congruence.
        eexists. rewrite list_lookup_insert_eq by (by eapply lookup_lt_Some).
        split; [done|]. simpl. repeat split; [done|done|].
        intros k. rewrite assetRowFor_snoc.
        rewrite (bool_decide_eq_true_2 _ (eq_sym Hkx)). simpl.
        destruct (decide (AssetInfo.AssetID row.2 = k)) as [<-|Hk].
        -- by rewrite lookup_insert_eq, bool_decide_eq_true_2.
        -- rewrite lookup_insert_ne by done.
           by rewrite (bool_decide_eq_false_2 _ Hk).
      * destruct (IH i addr Hi) as (addr' & Hi' & Ha & Hp & Has).
        exists addr'. rewrite list_lookup_insert_ne by done.
        repeat split; try done.
        intros k. rewrite assetRowFor_snoc, Has.
        rewrite bool_decide_eq_false_2; [done|].
        intros Heq. apply Hne.
        apply (NoDup_key_index AddressInfo.Address addrs i j addr x);
          [done|done|done|congruence].
    + pose proof (indexBy_None _ _ _ Hnd Hj) as Hnone.
      split; [done|]. intros i addr Hi.
      destruct (IH i addr Hi) as (addr' & Hi' & Ha & Hp & Has).
      exists addr'. repeat split; try done.
      intros k. rewrite assetRowFor_snoc, Has.
      rewrite bool_decide_eq_false_2; [done|].
      intros Heq. apply (Hnone addr); [by eapply list_elem_of_lookup_2|congruence].
Qed.

(** X10: [dressAddresses] keeps the batch as it is, in order, and replaces
    the asset map of every address: for each asset the map holds the
    figures of the last row the statement returned for that address and
    asset, and nothing else; rows of other addresses are ignored, and an
    address without rows gets the empty map.  (The addresses of a batch
    are distinct: the list statement selects them so.) *)
Theorem dressAddresses_assets {P} (conns : Connections) (dbRunner : string)
    (addrs : list AddressInfo.t) (s : St P)
    (rows : list (string * AssetInfo.t)) :
  addrs <> [] ->
  NoDup (AddressInfo.Address <$> addrs) ->
  LoadAddressAssets conns
    (addressAssetsStmt dbRunner (AddressInfo.Address <$> addrs)) = Ok rows ->
  exists addrs',
    (dressAddresses conns dbRunner addrs s).1 = Ok addrs'
    /\ length addrs' = length addrs
    /\ forall i addr, addrs !! i = Some addr ->
         exists addr',
           addrs' !! i = Some addr'
           /\ AddressInfo.Address addr' = AddressInfo.Address addr
           /\ AddressInfo.PublicKey addr' = AddressInfo.PublicKey addr
           /\ forall k, AddressInfo.Assets addr' !! k
                        = assetRowFor (AddressInfo.Address addr) k rows.
Proof.
  intros Hne Hnd Hload. unfold dressAddresses.
  destruct addrs as [|a0 rest]; [done|].
  change (length (a0 :: rest) =? 0)%nat with false. cbv iota zeta.
  unfold_m. rewrite Hload. cbn [fst].
  eexists. split; [reflexivity|].
  apply (accumulateRow_fold (a0 :: rest) rows Hnd).
Qed.

Lemma dressAddresses_assets_witness :
  exists addrs',
    (dressAddresses balancesConns "list_addresses"
       [addressInfo "a"; addressInfo "b"] noObject).1 = Ok addrs'
    /\ length addrs' = length [addressInfo "a"; addressInfo "b"]
    /\ forall i addr, [addressInfo "a"; addressInfo "b"] !! i = Some addr ->
         exists addr',
           addrs' !! i = Some addr'
           /\ AddressInfo.Address addr' = AddressInfo.Address addr
           /\ AddressInfo.PublicKey addr' = AddressInfo.PublicKey addr
           /\ forall k, AddressInfo.Assets addr' !! k
                        = assetRowFor (AddressInfo.Address addr) k
                            [("a", assetInfo "A" "5"); ("c", assetInfo "A" "1");
                             ("b", assetInfo "B" "7"); ("a", assetInfo "B" "9")].
Proof.
  apply (dressAddresses_assets balancesConns "list_addresses"
           [addressInfo "a"; addressInfo "b"] noObject).
  - discriminate.
  - vm_compute. repeat constructor; set_solver.
  - reflexivity.
Defined.

(** ** The addresses of listed outputs *)

Lemma addressRowsOf_snoc (o : string) (addresses : list OutputAddress.t)
    (a : OutputAddress.t) :
  addressRowsOf o (addresses ++ [a])
  = addressRowsOf o addresses
    ++ (if bool_decide (OutputAddress.OutputID a = o)
        then [OutputAddress.Address a] else []).
Proof.
  unfold addressRowsOf. rewrite List.filter_app, fmap_app. simpl.
  by destruct (bool_decide _).
Qed.

Lemma appendAddress_fold (outputs : list Output.t)
    (addresses : list OutputAddress.t) :
  NoDup (Output.ID <$> outputs) ->
  fold_left (appendAddress (indexBy Output.ID 0 outputs ∅)) addresses outputs
  = withAddressRows addresses <$> outputs.
Proof.
  intros Hnd. induction addresses as [|a addresses IH] using rev_ind.
  - simpl. apply list_eq. intros i. rewrite list_lookup_fmap.
    destruct (outputs !! i) as [o|]; [|done]. simpl. f_equal.
    unfold withAddressRows, addressRowsOf. simpl. rewrite app_nil_r.
    by destruct o.
  - rewrite fold_left_app. simpl. rewrite IH. unfold appendAddress.
    destruct (indexBy Output.ID 0 outputs ∅ !! OutputAddress.OutputID a)
      as [j|] eqn:Hj.
    + apply indexBy_Some in Hj as (x & Hx & Hkx); [|done].
      rewrite list_lookup_fmap, Hx. simpl.
      apply list_eq. intros i. destruct (decide (i = j)) as [->|Hne].
      * rewrite list_lookup_insert_eq
          by (rewrite length_fmap; by eapply lookup_lt_Some).
        rewrite list_lookup_fmap, Hx. simpl. f_equal.
        unfold withAddressRows. cbn [Output.setAddresses Output.Addresses Output.ID].
        rewrite addressRowsOf_snoc, (bool_decide_eq_true_2 _ (eq_sym Hkx)).
        by rewrite app_assoc.
      * rewrite list_lookup_insert_ne by done. rewrite !list_lookup_fmap.
        destruct (outputs !! i) as [o|] eqn:Hi; [|done]. simpl. f_equal.
        unfold withAddressRows. rewrite addressRowsOf_snoc.
        rewrite bool_decide_eq_false_2; [by rewrite app_nil_r|].
        intros Heq. apply Hne.
        apply (NoDup_key_index Output.ID outputs i j o x);
          [done|done|done|congruence].
    + pose proof (indexBy_None _ _ _ Hnd Hj) as Hnone.
      apply list_fmap_ext. intros i o Hi.
      unfold withAddressRows. rewrite addressRowsOf_snoc.
      rewrite bool_decide_eq_false_2; [by rewrite app_nil_r|].
      intros Heq. apply (Hnone o); [by eapply list_elem_of_lookup_2|congruence].
Qed.

(** X11: the outputs [ListOutputs] returns are the outputs of the loaded
    page, in order, each with the addresses of its rows appended in the
    order of the rows; rows of outputs that are not on the page are
    skipped.  (Output identifiers are distinct: they are the key of the
    table.) *)
Theorem ListOutputs_addresses (conns : Connections) (p : ListOutputsParams.t)
    (tr : list Event) (outputs : list Output.t)
    (addresses : list OutputAddress.t) (found : OutputList.t) :
  LoadOutputs conns (listOutputsStmt p) = Ok outputs ->
  NoDup (Output.ID <$> outputs) ->
  LoadOutputAddresses conns (outputAddressesStmt (Output.ID <$> outputs))
  = Ok addresses ->
  (ListOutputs conns {| obj := p; trace := tr |}).1 = Ok found ->
  OutputList.Outputs found = withAddressRows addresses <$> outputs.
Proof.
  intros Hl Hnd Ha. rewrite ListOutputs_run. cbv zeta. rewrite Hl.
  destruct (length outputs <? 1)%nat eqn:Hlen.
  { intros [= <-]. simpl. destruct outputs; [done|done]. }
  rewrite Ha, (appendAddress_fold outputs addresses Hnd).
  destruct (ListParams.DisableCounting _); [by intros [= <-]|].
  destruct (ge_int _ _); [|by intros [= <-]].
  cbn [fst]. destruct (LoadOne conns _); [by intros [= <-]|done].
Qed.

Lemma ListOutputs_addresses_witness :
  exists found,
    (ListOutputs twoOutputsConns {| obj := pagedOutputs; trace := [] |}).1
    = Ok found
    /\ OutputList.Outputs found
       = withAddressRows
           [outputAddress "O" "a1"; outputAddress "Q" "a3";
            outputAddress "Z" "a4"; outputAddress "O" "a2"]
         <$> [outputO; outputQ].
Proof.
  eexists. split; [vm_compute; reflexivity|].
  apply (ListOutputs_addresses twoOutputsConns pagedOutputs []
           [outputO; outputQ]).
  - reflexivity.
  - vm_compute. repeat constructor; set_solver.
  - reflexivity.
  - vm_compute. reflexivity.
Defined.

(** ** Aggregate: start time, bounds, counters, failures *)

Lemma Aggregate_settled (conns : Connections) (p : AggregateParams.t)
    (tr : list Event) :
  Aggregate conns {| obj := p; trace := tr |}
  = match settledParams conns p with
    | Err e => (Err e, {| obj := p; trace := settledTrace p tr |})
    | Ok p' =>
      aggregateFrom conns p' {| obj := p'; trace := settledTrace p tr |}
    end.
Proof.
  rewrite Aggregate_unfold. unfold settledParams, settledTrace.
  unfold getFirstTransactionTime. unfold_m.
  destruct (time.IsZero (AggregateParams.StartTime p)); msimpl; [|done].
  by destruct (LoadOne conns _) as [ts|e]; msimpl.
Qed.

(** X12: the only thing [Aggregate] changes in the caller's parameter
    object is an unset start time, which is replaced by the looked-up time
    of the first transaction as soon as the lookup succeeds, whatever
    happens afterwards; with a start time given, or a failed lookup, the
    object is left as passed. *)
Theorem Aggregate_start_time (conns : Connections) (p : AggregateParams.t)
    (tr : list Event) :
  obj (Aggregate conns {| obj := p; trace := tr |}).2
  = if time.IsZero (AggregateParams.StartTime p) then
      match LoadOne conns
              (firstTransactionTimeStmt (AggregateParams.ChainIDs p)) with
      | Ok ts => AggregateParams.setStartTime p (time.FromUnix ts)
      | Err _ => p
      end
    else p.
Proof.
  rewrite Aggregate_settled. unfold settledParams.
  destruct (time.IsZero (AggregateParams.StartTime p)).
  - destruct (LoadOne conns _) as [ts|e]; [|done]. by rewrite aggregateFrom_obj.
  - by rewrite aggregateFrom_obj.
Qed.

Lemma addIntervals_trace {P} (params : AggregateParams.t)
    (rows : list Aggregates.t) (st : assembly) (s : St P) :
  exists evs,
    trace (addIntervals params rows st s).2 = trace s ++ evs
    /\ Forall (fun e => isPadTo e = true) evs.
Proof.
  revert st s. induction rows as [|r rows IH]; intros st s.
  { exists []. by rewrite app_nil_r. }
  rewrite addIntervals_cons. unfold bind at 1. rewrite padTo_run.
  destruct (timesForInterval params (Aggregates.Idx r)) as [ts te]. cbv zeta.
  destruct (BigInt.SetString _).
  - match goal with
    | |- context [addIntervals params rows ?st0 ?s0] =>
        destruct (IH st0 s0) as (evs & Htr & Hevs)
    end.
    eexists (_ :: evs). rewrite Htr. cbn [trace]. rewrite <- app_assoc.
    split; [done|]. by constructor.
  - eexists [_]. split; [done|]. by repeat constructor.
Qed.

Lemma aggregateStmt_bounded (params : AggregateParams.t) (n : Z) :
  requestedIntervalCount params = Ok n ->
  boundedStmt (Run (aggregateStmt params n)) = true.
Proof.
  intros Hn.
  destruct (requestedIntervalCount_range params n Hn) as [[-> _]|[Hrange _]].
  - reflexivity.
  - unfold boundedStmt, aggregateStmt. cbv zeta.
    destruct (Z.ltb_spec 0 n); [|lia]. simpl.
    apply andb_true_iff. split; [apply Z.leb_le|apply Z.leb_le]; lia.
Qed.

Lemma aggregateFrom_trace (conns : Connections) (params : AggregateParams.t)
    (s : St AggregateParams.t) :
  exists evs,
    trace (aggregateFrom conns params s).2 = trace s ++ evs
    /\ Forall (fun e => boundedStmt e = true) evs.
Proof.
  unfold aggregateFrom.
  destruct (requestedIntervalCount params) as [n|e] eqn:Hn.
  2:{ exists []. by rewrite app_nil_r. }
  pose proof (aggregateStmt_bounded params n Hn) as Hb.
  unfold bind at 1, load. msimpl.
  destruct (LoadAggregates conns _) as [rows|e].
  2:{ eexists [_]. split; [done|]. by repeat constructor. }
  destruct (n =? 0).
  { eexists [_]. split; [by destruct rows|]. by repeat constructor. }
  unfold bind at 1.
  match goal with
  | |- context [addIntervals params rows ?st0 ?s0] =>
      destruct (addIntervals_trace params rows st0 s0) as (evs & Htr & Hevs);
      destruct (addIntervals params rows st0 s0) as [[st1|e] s1]
  end; cbn [snd trace] in *.
  - unfold bind at 1. rewrite padTo_run. unfold ret. cbn [snd trace].
    rewrite Htr. eexists (_ :: evs ++ [_]).
    split; [by rewrite <- !app_assoc|].
    constructor; [done|]. apply Forall_app. split.
    + eapply Forall_impl; [exact Hevs|]. by intros [|].
    + by repeat constructor.
  - rewrite Htr. eexists (_ :: evs). split; [by rewrite <- !app_assoc|].
    constructor; [done|]. eapply Forall_impl; [exact Hevs|]. by intros [|].
Qed.

(** X13: whatever the request and the storage, every statement
    [Aggregate] runs that groups its rows carries a row limit between one
    and the maximum interval count; its statements without grouping (the
    first-transaction lookup and the single total) carry no limit. *)
Theorem Aggregate_bounded (conns : Connections) (p : AggregateParams.t)
    (tr : list Event) :
  Forall (fun e => boundedStmt e = true)
    (issued tr (Aggregate conns {| obj := p; trace := tr |}).2).
Proof.
  rewrite Aggregate_settled. unfold settledParams, settledTrace.
  destruct (time.IsZero (AggregateParams.StartTime p)).
  - assert (Hfirst : boundedStmt
                       (Run (firstTransactionTimeStmt (AggregateParams.ChainIDs p)))
                     = true).
    { unfold boundedStmt, firstTransactionTimeStmt. cbv zeta.
      by destruct (0 <? length _)%nat. }
    destruct (LoadOne conns _) as [ts|e].
    + match goal with
      | |- context [aggregateFrom conns ?p' ?s0] =>
          destruct (aggregateFrom_trace conns p' s0) as (evs & Htr & Hevs);
          destruct (aggregateFrom conns p' s0) as [r [o t]]
      end.
      cbn [snd trace] in *. subst t. rewrite <- app_assoc, issued_app.
      by constructor.
    + cbn [snd]. rewrite issued_app. by repeat constructor.
  - match goal with
    | |- context [aggregateFrom conns ?p' ?s0] =>
        destruct (aggregateFrom_trace conns p' s0) as (evs & Htr & Hevs);
        destruct (aggregateFrom conns p' s0) as [r [o t]]
    end.
    cbn [snd trace] in *. subst t. by rewrite issued_app.
Qed.

Lemma aggregateFrom_multi (conns : Connections) (params : AggregateParams.t)
    (s : St AggregateParams.t) (n : Z) (rows : list Aggregates.t) :
  requestedIntervalCount params = Ok n ->
  n <> 0 ->
  LoadAggregates conns (aggregateStmt params n) = Ok rows ->
  aggregateFrom conns params s
  = let r := addIntervals params rows
               {| asmIntervals := [];
                  asmVolume := 0;
                  asmTotals :=
                    Aggregates.setTimes Aggregates.zero
                      (AggregateParams.StartTime params)
                      (AggregateParams.EndTime params) |}
               {| obj := obj s;
                  trace := trace s ++ [Run (aggregateStmt params n)] |} in
    match r.1 with
    | Err e => (Err e, r.2)
    | Ok st =>
      (Ok {| AggregatesHistogram.Aggregates :=
               setVolume (asmTotals st) (BigInt.String (asmVolume st));
             AggregatesHistogram.IntervalSize :=
               AggregateParams.IntervalSize params;
             AggregatesHistogram.Intervals :=
               asmIntervals st
               ++ (emptyInterval params
                     <$> seqZ (Z.of_nat (length (asmIntervals st)))
                           (n - Z.of_nat (length (asmIntervals st)))) |},
       {| obj := obj r.2;
          trace := trace r.2
                   ++ [PadTo (Z.of_nat (length (asmIntervals st))) n] |})
    end.
Proof.
  intros Hn Hn0 Hload. unfold aggregateFrom. rewrite Hn.
  unfold bind at 1, load. msimpl. rewrite Hload.
  destruct (Z.eqb_spec n 0) as [?|_]; [done|].
  unfold bind at 1. cbv zeta.
  destruct (addIntervals _ _ _ _) as [[st|e] s1]; [|done].
  unfold bind at 1. by rewrite padTo_run.
Qed.

Lemma addIntervals_Err {P} (params : AggregateParams.t)
    (rows : list Aggregates.t) (st : assembly) (s s' : St P) (e : error) :
  addIntervals params rows st s = (Err e, s') ->
  e = ErrFailedToParseStringAsBigInt.
Proof.
  revert st s. induction rows as [|r rows IH]; intros st s; [done|].
  rewrite addIntervals_cons. unfold bind at 1. rewrite padTo_run.
  destruct (timesForInterval params (Aggregates.Idx r)) as [ts te]. cbv zeta.
  destruct (BigInt.SetString _).
  - apply IH.
  - by intros [= <- _].
Qed.

(** X14: once the start time is settled and the grouped statement has
    answered, a histogram request with an interval size succeeds exactly
    when the volume of every loaded row is a decimal number; one unreadable
    volume fails the whole request with the parse error. *)
Theorem Aggregate_volume_failure (conns : Connections)
    (p p' : AggregateParams.t) (tr : list Event) (n : Z)
    (rows : list Aggregates.t) :
  settledParams conns p = Ok p' ->
  requestedIntervalCount p' = Ok n ->
  n <> 0 ->
  LoadAggregates conns (aggregateStmt p' n) = Ok rows ->
  let r := (Aggregate conns {| obj := p; trace := tr |}).1 in
  ((exists h, r = Ok h) <-> volumesParse rows)
  /\ (~ volumesParse rows -> r = Err ErrFailedToParseStringAsBigInt).
Proof.
  intros Hp Hn Hn0 Hload r. unfold r. clear r.
  rewrite Aggregate_settled, Hp.
  rewrite (aggregateFrom_multi conns p' _ n rows Hn Hn0 Hload). cbv zeta.
  match goal with
  | |- context [addIntervals p' rows ?st0 ?s0] =>
      pose proof (addIntervals_run p' rows st0 s0) as Hrun;
      pose proof (fun st' s' => addIntervals_ok p' rows st0 st' s0 s') as Hok;
      pose proof (fun s' e => addIntervals_Err p' rows st0 s0 s' e) as Herr;
      destruct (addIntervals p' rows st0 s0) as [[st1|e] s1]
  end; cbn [fst].
  - assert (volumesParse rows) by (by eapply Hok).
    split; [split; [done|by eexists]|done].
  - assert (Hno : ~ volumesParse rows).
    { intros Hparse. by destruct (Hrun Hparse) as (? & ? & ? & _). }
    split.
    + split; [by intros [h ?]|done].
    + intros _. f_equal. by eapply Herr.
Qed.

Lemma Aggregate_volume_failure_witness :
  let r := (Aggregate badVolumeConns {| obj := histParams; trace := [] |}).1 in
  ((exists h, r = Ok h)
   <-> volumesParse [bucket 1 "7" 2; bucket 3 "x" 1])
  /\ (~ volumesParse [bucket 1 "7" 2; bucket 3 "x" 1] ->
      r = Err ErrFailedToParseStringAsBigInt).
Proof.
  apply (Aggregate_volume_failure badVolumeConns histParams histParams [] 5).
  - reflexivity.
  - vm_compute. reflexivity.
  - discriminate.
  - reflexivity.
Defined.

Lemma uint64_add_l (x y : Z) : uint64 (uint64 x + y) = uint64 (x + y).
Proof. unfold uint64. apply Zplus_mod_idemp_l. Qed.

Lemma addIntervals_counter {P} (f : Aggregates.t -> Z)
    (params : AggregateParams.t) (rows : list Aggregates.t)
    (st st' : assembly) (s s' : St P) (x : Z) :
  (forall t i, f (addCounts t i) = uint64 (f t + f i)) ->
  (forall r ts te, f (Aggregates.setTimes r ts te) = f r) ->
  (forall i, f (emptyInterval params i) = 0) ->
  addIntervals params rows st s = (Ok st', s') ->
  f (asmTotals st) = uint64 x ->
  f (asmTotals st') = uint64 (x + sumZ (f <$> rows))
  /\ sumZ (f <$> asmIntervals st')
     = sumZ (f <$> asmIntervals st) + sumZ (f <$> rows).
Proof.
  intros Hadd Htimes Hempty. revert st s x.
  induction rows as [|r rows IH]; intros st s x.
  { intros [= <- <-] Hx. simpl. rewrite Hx.
    change (sumZ []) with 0. split; [f_equal|]; lia. }
  rewrite addIntervals_cons. unfold bind at 1. rewrite padTo_run.
  destruct (timesForInterval params (Aggregates.Idx r)) as [ts te]. cbv zeta.
  destruct (BigInt.SetString _); [|done].
  intros Hrun Hx.
  apply (IH _ _ (x + f r)) in Hrun.
  - cbn [asmIntervals asmTotals] in Hrun. destruct Hrun as [Ht Hs].
    rewrite fmap_cons, sumZ_cons. split.
    + rewrite Ht. f_equal. lia.
    + rewrite Hs, !fmap_app, !sumZ_app, fmap_cons, sumZ_cons, Htimes.
      rewrite (sumZ_zero (f <$> (emptyInterval params <$> _))).
      * change (sumZ (f <$> [])) with 0. lia.
      * apply Forall_fmap, Forall_fmap, Forall_true. intros i. apply Hempty.
  - cbn [asmTotals]. by rewrite Hadd, Htimes, Hx, uint64_add_l.
Qed.

Lemma emptyInterval_counters (params : AggregateParams.t) (i : Z) :
  Aggregates.TransactionCount (emptyInterval params i) = 0
  /\ Aggregates.AddressCount (emptyInterval params i) = 0
  /\ Aggregates.OutputCount (emptyInterval params i) = 0
  /\ Aggregates.AssetCount (emptyInterval params i) = 0.
Proof. unfold emptyInterval. by destruct (timesForInterval params i). Qed.

Lemma histogram_counter (f : Aggregates.t -> Z) (params : AggregateParams.t)
    (rows : list Aggregates.t) (st : assembly) (s s' : St AggregateParams.t)
    (n : Z) (start finish : time.Time) :
  (forall t i, f (addCounts t i) = uint64 (f t + f i)) ->
  (forall r ts te, f (Aggregates.setTimes r ts te) = f r) ->
  (forall a v, f (setVolume a v) = f a) ->
  (forall i, f (emptyInterval params i) = 0) ->
  f Aggregates.zero = 0 ->
  addIntervals params rows
    {| asmIntervals := []; asmVolume := 0;
       asmTotals := Aggregates.setTimes Aggregates.zero start finish |} s
  = (Ok st, s') ->
  f (setVolume (asmTotals st) (BigInt.String (asmVolume st)))
  = uint64 (sumZ (f <$> (asmIntervals st
                         ++ (emptyInterval params
                               <$> seqZ (Z.of_nat (length (asmIntervals st)))
                                     (n - Z.of_nat (length (asmIntervals st))))))).
Proof.
  intros Hadd Htimes Hvol Hempty Hzero Hrun.
  destruct (addIntervals_counter f params rows _ st s s' 0 Hadd Htimes Hempty Hrun)
    as [Ht Hs].
  { cbn [asmTotals]. by rewrite Htimes, Hzero. }
  rewrite Hvol, Ht, fmap_app, sumZ_app, Hs.
  rewrite (sumZ_zero (f <$> (emptyInterval params <$> _))).
  - cbn [asmIntervals]. change (sumZ (f <$> [])) with 0. f_equal. lia.
  - apply Forall_fmap, Forall_fmap, Forall_true. intros i. apply Hempty.
Qed.

(** X15: in a successful histogram with an interval size, each counter of
    the total (transactions, addresses, outputs, assets) is the sum of
    that counter over the returned intervals, as an unsigned 64-bit
    number; the per-interval counts are added up as they are, distinct
    counts included. *)
Theorem Aggregate_counters (conns : Connections) (p : AggregateParams.t)
    (tr : list Event) (h : AggregatesHistogram.t) (s' : St AggregateParams.t) :
  time.wholeSeconds (AggregateParams.IntervalSize p) <> 0 ->
  Aggregate conns {| obj := p; trace := tr |} = (Ok h, s') ->
  let total := AggregatesHistogram.Aggregates h in
  let intervals := AggregatesHistogram.Intervals h in
  Aggregates.TransactionCount total
  = uint64 (sumZ (Aggregates.TransactionCount <$> intervals))
  /\ Aggregates.AddressCount total
     = uint64 (sumZ (Aggregates.AddressCount <$> intervals))
  /\ Aggregates.OutputCount total
     = uint64 (sumZ (Aggregates.OutputCount <$> intervals))
  /\ Aggregates.AssetCount total
     = uint64 (sumZ (Aggregates.AssetCount <$> intervals)).
Proof.
  intros Hw Hrun total intervals. unfold total, intervals. clear total intervals.
  destruct (Aggregate_inv conns p tr h s' Hrun) as (tr0 & Hfrom & Hsize & _ & _).
  pose proof Hfrom as Hfrom'.
  apply aggregateFrom_intervals in Hfrom'; [|by rewrite Hsize].
  destruct Hfrom' as (n & rows & Hn & Hrange & Hload & _).
  rewrite (aggregateFrom_multi conns (obj s') _ n rows Hn) in Hfrom;
    [|lia|done].
  cbv zeta in Hfrom.
  match type of Hfrom with
  | context [addIntervals ?pp rows ?st0 ?s0] =>
      destruct (addIntervals pp rows st0 s0) as [[st|e] s1] eqn:Hadd
  end; cbn [fst snd] in Hfrom; [|done].
  injection Hfrom as <- _.
  cbn [AggregatesHistogram.Aggregates AggregatesHistogram.Intervals].
  repeat split.
  - eapply (histogram_counter Aggregates.TransactionCount);
      [done|done|done|intros i; apply emptyInterval_counters|done|exact Hadd].
  - eapply (histogram_counter Aggregates.AddressCount);
      [done|done|done|intros i; apply emptyInterval_counters|done|exact Hadd].
  - eapply (histogram_counter Aggregates.OutputCount);
      [done|done|done|intros i; apply emptyInterval_counters|done|exact Hadd].
  - eapply (histogram_counter Aggregates.AssetCount);
      [done|done|done|intros i; apply emptyInterval_counters|done|exact Hadd].
Qed.

Lemma Aggregate_counters_witness :
  let total := AggregatesHistogram.Aggregates fiveBuckets in
  let intervals := AggregatesHistogram.Intervals fiveBuckets in
  Aggregates.TransactionCount total
  = uint64 (sumZ (Aggregates.TransactionCount <$> intervals))
  /\ Aggregates.AddressCount total
     = uint64 (sumZ (Aggregates.AddressCount <$> intervals))
  /\ Aggregates.OutputCount total
     = uint64 (sumZ (Aggregates.OutputCount <$> intervals))
  /\ Aggregates.AssetCount total
     = uint64 (sumZ (Aggregates.AssetCount <$> intervals)).
Proof.
  apply (Aggregate_counters histConns histParams [] fiveBuckets
           fiveBucketsState).
  - vm_compute. congruence.
  - vm_compute. reflexivity.
Defined.



(** ** The parameter object of the list readers *)

Lemma countIssued_In (e : Event) (evs : list Event) :
  In e evs -> isCountEvent e = true -> countIssued evs = true.
Proof.
  intros Hin He. unfold countIssued. apply existsb_exists. by exists e.
Qed.

Lemma isCountEvent_countTransactions
    (needsDistinct : ListTransactionsParams.t -> bool)
    (p : ListTransactionsParams.t) :
  isCountEvent (Run (countTransactionsStmt needsDistinct p)) = true.
Proof. unfold countTransactionsStmt. by destruct (needsDistinct p). Qed.

(** X17: a list reader changes nothing in the caller's parameter object
    but its [ListParams], and only by clearing them for the count
    statement: after a call that ran no count statement (counting
    disabled, page not saturated, or the page failed to load) the object
    is exactly as passed. *)
Theorem list_params_kept :
  (forall (conns : Connections) (p : ListAssetsParams.t) (tr : list Event),
      let s' := (ListAssets conns {| obj := p; trace := tr |}).2 in
      (obj s' = p \/ obj s' = ListAssetsParams.setListParams p ListParams.zero)
      /\ (countIssued (issued tr s') = false -> obj s' = p))
  /\ (forall (needsDistinct : ListTransactionsParams.t -> bool)
             (asc_ desc_ : TransactionSort) (dflt : Direction)
             (conns : Connections) (p : ListTransactionsParams.t)
             (tr : list Event),
        let s' := (ListTransactions needsDistinct asc_ desc_ dflt conns
                     {| obj := p; trace := tr |}).2 in
        (obj s' = p
         \/ obj s' = ListTransactionsParams.setListParams p ListParams.zero)
        /\ (countIssued (issued tr s') = false -> obj s' = p))
  /\ (forall (conns : Connections) (p : ListAddressesParams.t)
             (tr : list Event),
        let s' := (ListAddresses conns {| obj := p; trace := tr |}).2 in
        (obj s' = p
         \/ obj s' = ListAddressesParams.setListParams p ListParams.zero)
        /\ (countIssued (issued tr s') = false -> obj s' = p))
  /\ (forall (conns : Connections) (p : ListOutputsParams.t) (tr : list Event),
        let s' := (ListOutputs conns {| obj := p; trace := tr |}).2 in
        (obj s' = p
         \/ obj s' = ListOutputsParams.setListParams p ListParams.zero)
        /\ (countIssued (issued tr s') = false -> obj s' = p)).
Proof.
  repeat apply conj.
  - intros conns p tr s'. unfold s'. clear s'. rewrite ListAssets_run.
    destruct (LoadAssets conns _) as [assets|e]; [|by split; [left|]].
    destruct (ListParams.DisableCounting _); [by split; [left|]|].
    destruct (ge_int _ _); [|by split; [left|]].
    cbv zeta. cbn [snd obj]. split; [by right|].
    rewrite issued_app2. intros Hno.
    rewrite (countIssued_In (Run (countAssetsStmt
                                    (ListAssetsParams.setListParams p
                                       ListParams.zero)))) in Hno;
      [done|simpl; tauto|reflexivity].
  - intros needsDistinct asc_ desc_ dflt conns p tr s'. unfold s'. clear s'.
    rewrite ListTransactions_run. cbv zeta.
    destruct (LoadTransactions conns _) as [txs|e]; [|by split; [left|]].
    destruct (ListParams.DisableCounting _).
    { match goal with
      | |- context [finishTransactions ?c ?r ?t ?s] =>
          destruct (finishTransactions_state c r t s) as [Hobj _]
      end.
      rewrite Hobj. by split; [left|]. }
    destruct (ge_int _ _).
    2:{ match goal with
        | |- context [finishTransactions ?c ?r ?t ?s] =>
            destruct (finishTransactions_state c r t s) as [Hobj _]
        end.
        rewrite Hobj. by split; [left|]. }
    match goal with
    | |- context [finishTransactions ?c ?r ?t ?s] =>
        destruct (finishTransactions_state c r t s) as [Hobj [evs Hevs]]
    end.
    rewrite Hobj. cbn [obj]. split; [by right|].
    unfold issued. rewrite Hevs. cbn [trace].
    rewrite <- !app_assoc, drop_app_length. intros Hno.
    rewrite (countIssued_In
               (Run (countTransactionsStmt needsDistinct
                       (ListTransactionsParams.setListParams p
                          ListParams.zero)))) in Hno;
      [done|simpl; tauto|apply isCountEvent_countTransactions].
  - intros conns p tr s'. unfold s'. clear s'. rewrite ListAddresses_run.
    destruct (LoadAddresses conns _) as [addresses|e]; [|by split; [left|]].
    destruct (ListParams.DisableCounting _).
    { match goal with
      | |- context [finishAddresses ?c ?r ?t ?s] =>
          destruct (finishAddresses_state c r t s) as [Hobj _]
      end.
      rewrite Hobj. by split; [left|]. }
    destruct (ge_int _ _).
    2:{ match goal with
        | |- context [finishAddresses ?c ?r ?t ?s] =>
            destruct (finishAddresses_state c r t s) as [Hobj _]
        end.
        rewrite Hobj. by split; [left|]. }
    cbv zeta.
    match goal with
    | |- context [finishAddresses ?c ?r ?t ?s] =>
        destruct (finishAddresses_state c r t s) as [Hobj [evs Hevs]]
    end.
    rewrite Hobj. cbn [obj]. split; [by right|].
    unfold issued. rewrite Hevs. cbn [trace].
    rewrite <- !app_assoc, drop_app_length. intros Hno.
    rewrite (countIssued_In
               (Run (countAddressesStmt
                       (ListAddressesParams.setListParams p ListParams.zero))))
      in Hno; [done|simpl; tauto|reflexivity].
  - intros conns p tr s'. unfold s'. clear s'. rewrite ListOutputs_run.
    cbv zeta.
    destruct (LoadOutputs conns _) as [outputs|e]; [|by split; [left|]].
    destruct (length outputs <? 1)%nat; [by split; [left|]|].
    destruct (LoadOutputAddresses conns _) as [addresses|e];
      [|by split; [left|]].
    destruct (ListParams.DisableCounting _); [by split; [left|]|].
    destruct (ge_int _ _); [|by split; [left|]].
    cbn [snd obj]. split; [by right|].
    rewrite issued_app3. intros Hno.
    rewrite (countIssued_In
               (Run (countOutputsStmt
                       (ListOutputsParams.setListParams p ListParams.zero))))
      in Hno; [done|simpl; tauto|reflexivity].
Qed.

Lemma list_params_kept_witness :
  obj (ListAssets oneAssetConns {| obj := pagedAssets; trace := [] |}).2
  = pagedAssets.
Proof.
  apply (proj1 list_params_kept oneAssetConns pagedAssets []).
  vm_compute. reflexivity.
Defined.

(** X18: the list statement of [ListTransactions] is DISTINCT exactly when
    the parameter object as passed needs it, while its count statement
    counts distinct identifiers exactly when the object needs it after its
    [ListParams] have been cleared: the first is decided before the
    clearing, the second after it. *)
Theorem ListTransactions_distinct
    (needsDistinct : ListTransactionsParams.t -> bool)
    (asc_ desc_ : TransactionSort) (dflt : Direction) (conns : Connections)
    (p : ListTransactionsParams.t) (tr : list Event) :
  let p0 := ListTransactionsParams.setListParams p ListParams.zero in
  let s' := (ListTransactions needsDistinct asc_ desc_ dflt conns
               {| obj := p; trace := tr |}).2 in
  dbr.IsDistinct (listTransactionsStmt needsDistinct asc_ desc_ dflt p)
  = needsDistinct p
  /\ (forall stmt, In (Run stmt) (issued tr s') -> isCountStmt stmt = true ->
        dbr.Applied stmt = AppliedTransactions p0
        /\ countsDistinct stmt = needsDistinct p0).
Proof.
  intros p0 s'. split.
  { unfold listTransactionsStmt, applySort, listTransactionsBuilder.
    destruct (negb _), (needsDistinct p),
      (ListTransactionsParams.Sort p =? asc_),
      (ListTransactionsParams.Sort p =? desc_), dflt; reflexivity. }
  assert (Hlist : isCountStmt (listTransactionsStmt needsDistinct asc_ desc_
                                 dflt p) = false).
  { by destruct (listTransactionsStmt_shape needsDistinct asc_ desc_ dflt p)
      as (_ & _ & ->). }
  assert (Hdress : forall evs stmt,
            Forall (fun e => isDressEvent e = true) evs ->
            In (Run stmt) evs -> isCountStmt stmt = true -> False).
  { intros evs stmt Hevs Hin Hc.
    apply List.Forall_forall with (x := Run stmt) in Hevs; [|done].
    simpl in Hevs. rewrite Hc in Hevs. simpl in Hevs.
    by rewrite andb_false_r in Hevs. }
  assert (Hcount : dbr.Applied (countTransactionsStmt needsDistinct p0)
                   = AppliedTransactions p0
                   /\ countsDistinct (countTransactionsStmt needsDistinct p0)
                      = needsDistinct p0).
  { unfold countTransactionsStmt. by destruct (needsDistinct p0). }
  unfold s'. clear s'. rewrite ListTransactions_run. cbv zeta.
  destruct (LoadTransactions conns _) as [txs|e].
  2:{ cbn [snd]. rewrite issued_app. intros stmt [[= <-]|[]] Hc. congruence. }
  assert (Hgen : forall c o tail,
            (forall stmt, In (Run stmt) tail -> isCountStmt stmt = true ->
               dbr.Applied stmt = AppliedTransactions p0
               /\ countsDistinct stmt = needsDistinct p0) ->
            forall stmt,
              In (Run stmt)
                (issued tr (finishTransactions conns c txs
                              {| obj := o; trace := tr ++ tail |}).2) ->
              isCountStmt stmt = true ->
              dbr.Applied stmt = AppliedTransactions p0
              /\ countsDistinct stmt = needsDistinct p0).
  { intros c o tail Htail stmt. unfold finishTransactions.
    destruct c as [c|e]; cbn [snd].
    - match goal with
      | |- context [dressTransactions ?cn ?d ?t ?s] =>
          destruct (dressTransactions_trace cn d t s) as (devs & Htr & Hdevs)
      end.
      unfold issued. rewrite Htr. cbn [trace].
      rewrite <- app_assoc, drop_app_length.
      intros [Hin|Hin]%in_app_or Hc; [by apply Htail|].
      destruct (Hdress devs stmt Hdevs Hin Hc).
    - rewrite issued_app. apply Htail. }
  assert (Hl : forall stmt,
            In (Run stmt)
              [Run (listTransactionsStmt needsDistinct asc_ desc_ dflt p)] ->
            isCountStmt stmt = true ->
            dbr.Applied stmt = AppliedTransactions p0
            /\ countsDistinct stmt = needsDistinct p0).
  { intros stmt [[= <-]|[]] Hc. congruence. }
  destruct (ListParams.DisableCounting _); [by apply Hgen|].
  destruct (ge_int _ _); [|by apply Hgen].
  rewrite <- app_assoc. apply Hgen.
  intros stmt [[= <-]|[[= <-]|[]]] Hc; [congruence|done].
Qed.

(** ** The shape of every search result *)

Lemma Search_collated (AddressFromString FromString : string -> option string)
    (needsDistinct : ListTransactionsParams.t -> bool) (maxLimit : Z)
    (asc_ desc_ : TransactionSort) (dflt : Direction) (conns : Connections)
    (s : St SearchParams.t) (found : SearchResults.t) :
  (Search AddressFromString FromString needsDistinct maxLimit asc_ desc_ dflt
     conns s).1 = Ok found ->
  found = SearchResults.zero
  \/ exists a b c d, found = collateSearchResults maxLimit a b c d.
Proof.
  unfold Search, searchByShortID, searchByID.
  unfold bind, ret, fail, getObj, call.
  repeat case_match; cbn [fst]; intros [= <-]; eauto 10.
Qed.

(** X19: whatever path a search takes, a successful result lists assets
    first, then addresses, then transactions, never an output, and its
    count is the number of results capped at the pagination maximum. *)
Theorem Search_results_shape
    (AddressFromString FromString : string -> option string)
    (needsDistinct : ListTransactionsParams.t -> bool) (maxLimit : Z)
    (asc_ desc_ : TransactionSort) (dflt : Direction) (conns : Connections)
    (s : St SearchParams.t) (found : SearchResults.t) :
  0 <= maxLimit < 2 ^ 64 ->
  (Search AddressFromString FromString needsDistinct maxLimit asc_ desc_ dflt
     conns s).1 = Ok found ->
  (exists assets addresses transactions,
      SearchResults.Results found
      = (ResultTypeAsset <$> assets) ++ (ResultTypeAddress <$> addresses)
        ++ (ResultTypeTransaction <$> transactions))
  /\ SearchResults.Count found
     = Z.min maxLimit (Z.of_nat (length (SearchResults.Results found))).
Proof.
  intros Hmax Hrun.
  apply Search_collated in Hrun as [->|(a & b & c & d & ->)].
  - split; [by exists [], [], []|]. simpl. lia.
  - split.
    + rewrite collate_Results. by eexists _, _, _.
    + rewrite collate_Results, !length_app, !length_fmap.
      unfold collateSearchResults. cbn [SearchResults.Count length].
      rewrite Z.add_0_r.
      set (n := _ + _ + _).
      replace (Z.of_nat (_ + (_ + _))) with n by (unfold n; lia).
      assert (0 <= n) by (unfold n; lia).
      unfold uint64. destruct (Z.ltb_spec maxLimit n);
        rewrite Z.mod_small by lia; lia.
Qed.

Lemma Search_results_shape_witness :
  exists found,
    (Search noID noID noDistinct 5000 1 2 asc oneEachConns
       {| obj := searchFoo; trace := [] |}).1 = Ok found
    /\ (exists assets addresses transactions,
          SearchResults.Results found
          = (ResultTypeAsset <$> assets) ++ (ResultTypeAddress <$> addresses)
            ++ (ResultTypeTransaction <$> transactions))
    /\ SearchResults.Count found
       = Z.min 5000 (Z.of_nat (length (SearchResults.Results found))).
Proof.
  eexists. split; [vm_compute; reflexivity|].
  apply (Search_results_shape noID noID noDistinct 5000 1 2 asc oneEachConns
           {| obj := searchFoo; trace := [] |}).
  - lia.
  - vm_compute. reflexivity.
Defined.

(** X20: a free-text search whose limit is zero or negative, as with the
    zero [ListParams], never looks beyond the assets: every asset page,
    even an empty one, reaches the limit, so neither transactions nor
    addresses are queried and a successful result holds assets only. *)
Theorem Search_no_limit (AddressFromString FromString : string -> option string)
    (needsDistinct : ListTransactionsParams.t -> bool) (maxLimit : Z)
    (asc_ desc_ : TransactionSort) (dflt : Direction) (conns : Connections)
    (p : SearchParams.t) (tr : list Event) :
  MinSearchQueryLength <= Z.of_nat (String.length (SearchParams.Query p)) ->
  AddressFromString (SearchParams.Query p) = None ->
  FromString (SearchParams.Query p) = None ->
  ListParams.Limit (SearchParams.ListParams p) <= 0 ->
  let rs := Search AddressFromString FromString needsDistinct maxLimit asc_
              desc_ dflt conns {| obj := p; trace := tr |} in
  issued tr rs.2 = [Run (listAssetsStmt (searchAssetsParams p))]
  /\ forall found, rs.1 = Ok found ->
       Forall (fun r => isAssetResult r = true) (SearchResults.Results found).
Proof.
  intros Hlen Hshort Hid Hlimit rs.
  remember (Search AddressFromString FromString needsDistinct maxLimit asc_
              desc_ dflt conns {| obj := p; trace := tr |}) as rs0 eqn:Hrs.
  subst rs.
  unfold Search in Hrs. unfold bind at 1, getObj in Hrs. cbn [obj] in Hrs.
  destruct (Z.ltb_spec (Z.of_nat (String.length (SearchParams.Query p)))
              MinSearchQueryLength) as [|_]; [lia|].
  rewrite Hshort, Hid in Hrs. cbv zeta in Hrs.
  fold (searchAssetsParams p) in Hrs.
  unfold bind at 1, call at 1 in Hrs. cbn [trace obj] in Hrs.
  rewrite ListAssets_nocount in Hrs by done.
  destruct (LoadAssets conns _) as [assets|e];
    cbn [AssetList.Assets trace obj snd] in Hrs.
  2:{ subst rs0. cbn [fst snd]. rewrite issued_app. split; [done|].
      intros found [=]. }
  assert (Hge : ge_int (length assets)
                  (ListParams.Limit (SearchParams.ListParams p)) = true).
  { unfold ge_int. apply Z.leb_le. lia. }
  rewrite Hge in Hrs. subst rs0. unfold ret. cbn [fst snd].
  rewrite issued_app. split; [done|]. intros found [= <-].
  rewrite collate_Results. simpl. rewrite ?app_nil_r.
  by apply Forall_fmap_tag.
Qed.

Lemma Search_no_limit_witness :
  let rs := Search noID noID noDistinct 5000 1 2 asc oneEachConns
              {| obj := searchNoLimit; trace := [] |} in
  issued [] rs.2 = [Run (listAssetsStmt (searchAssetsParams searchNoLimit))]
  /\ forall found, rs.1 = Ok found ->
       Forall (fun r => isAssetResult r = true) (SearchResults.Results found).
Proof.
  apply (Search_no_limit noID noID noDistinct 5000 1 2 asc oneEachConns
           searchNoLimit []).
  - vm_compute. discriminate.
  - reflexivity.
  - reflexivity.
  - vm_compute. discriminate.
Defined.

(** ** The page a list reader returns *)

Lemma dressTransactions_headers {P} (conns : Connections) (dbRunner : string)
    (txs txs' : list Transaction.t) (s : St P) :
  (dressTransactions conns dbRunner txs s).1 = Ok txs' ->
  length txs' = length txs
  /\ forall i tx, txs !! i = Some tx ->
       exists tx', txs' !! i = Some tx' /\ sameHeader tx tx'.
Proof.
  destruct txs as [|tx0 rest].
  { intros [= <-]. split; [done|]. by intros i tx. }
  rewrite dressTransactions_result by done.
  destruct (LoadCompositeRecords conns _) as [outputs|e]; [|done].
  destruct (LoadCompositeRecords conns _) as [inputs|e]; [|done].
  intros (st & _ & ->)%dressRows_Ok.
  split; [by rewrite length_fmap|].
  intros i tx Hi. eexists. rewrite list_lookup_fmap, Hi. by split.
Qed.

Lemma accumulateRow_sameAddress (addrsByID : gmap string nat)
    (rows : list (string * AssetInfo.t)) (addrs cur : list AddressInfo.t) :
  length cur = length addrs ->
  (forall i a, addrs !! i = Some a ->
     exists a', cur !! i = Some a' /\ sameAddress a a') ->
  let res := fold_left (accumulateRow addrsByID) rows cur in
  length res = length addrs
  /\ forall i a, addrs !! i = Some a ->
       exists a', res !! i = Some a' /\ sameAddress a a'.
Proof.
  revert cur. induction rows as [|row rows IH]; intros cur Hlen Hcur; [done|].
  simpl. apply IH.
  - unfold accumulateRow. destruct (addrsByID !! row.1) as [j|]; [|done].
    destruct (cur !! j); [|done]. by rewrite length_insert.
  - intros i a Hi. destruct (Hcur i a Hi) as (a' & Ha' & Hsame).
    unfold accumulateRow. destruct (addrsByID !! row.1) as [j|]; [|by exists a'].
    destruct (cur !! j) as [aj|] eqn:Hj; [|by exists a'].
    destruct (decide (j = i)) as [->|Hne].
    + eexists. rewrite list_lookup_insert_eq by (by eapply lookup_lt_Some).
      split; [done|]. assert (aj = a') as -> by congruence. exact Hsame.
    + exists a'. by rewrite list_lookup_insert_ne.
Qed.

Lemma dressAddresses_sameAddress {P} (conns : Connections) (dbRunner : string)
    (addrs addrs' : list AddressInfo.t) (s : St P) :
  (dressAddresses conns dbRunner addrs s).1 = Ok addrs' ->
  length addrs' = length addrs
  /\ forall i a, addrs !! i = Some a ->
       exists a', addrs' !! i = Some a' /\ sameAddress a a'.
Proof.
  unfold dressAddresses. destruct (length addrs =? 0)%nat.
  { intros [= <-]. split; [done|]. intros i a Hi. by exists a. }
  cbv zeta. unfold bind, load, ret.
  destruct (LoadAddressAssets conns _) as [rows|e]; [|done].
  cbn [fst]. intros [= <-].
  apply accumulateRow_sameAddress.
  - by rewrite length_fmap.
  - intros i a Hi. eexists. rewrite list_lookup_fmap, Hi. by split.
Qed.

(** X21: the page [ListTransactions] and [ListAddresses] return is the
    page the list statement loaded: the same number of entries in the same
    order, each with the fields it was loaded with (identifier, chain,
    type, memo and creation time of a transaction; address and public key
    of an address); dressing only fills in the rest. *)
Theorem list_pages_kept :
  (forall (needsDistinct : ListTransactionsParams.t -> bool)
          (asc_ desc_ : TransactionSort) (dflt : Direction)
          (conns : Connections) (p : ListTransactionsParams.t)
          (tr : list Event) (txs : list Transaction.t)
          (found : TransactionList.t),
      LoadTransactions conns
        (listTransactionsStmt needsDistinct asc_ desc_ dflt p) = Ok txs ->
      (ListTransactions needsDistinct asc_ desc_ dflt conns
         {| obj := p; trace := tr |}).1 = Ok found ->
      length (TransactionList.Transactions found) = length txs
      /\ forall i tx, txs !! i = Some tx ->
           exists tx',
             TransactionList.Transactions found !! i = Some tx'
             /\ sameHeader tx tx')
  /\ (forall (conns : Connections) (p : ListAddressesParams.t)
             (tr : list Event) (addresses : list AddressInfo.t)
             (found : AddressList.t),
        LoadAddresses conns (listAddressesStmt p) = Ok addresses ->
        (ListAddresses conns {| obj := p; trace := tr |}).1 = Ok found ->
        length (AddressList.Addresses found) = length addresses
        /\ forall i a, addresses !! i = Some a ->
             exists a',
               AddressList.Addresses found !! i = Some a'
               /\ sameAddress a a').
Proof.
  split.
  - intros needsDistinct asc_ desc_ dflt conns p tr txs found Hload.
    rewrite ListTransactions_run. cbv zeta. rewrite Hload.
    assert (Hfin : forall c s,
              (finishTransactions conns c txs s).1 = Ok found ->
              length (TransactionList.Transactions found) = length txs
              /\ forall i tx, txs !! i = Some tx ->
                   exists tx',
                     TransactionList.Transactions found !! i = Some tx'
                     /\ sameHeader tx tx').
    { intros c s. unfold finishTransactions. destruct c as [c|e]; [|done].
      cbn [fst].
      destruct (dressTransactions conns "get_transactions" txs s).1
        as [txs'|e] eqn:Hdress; [|done].
      intros [= <-]. cbn [TransactionList.Transactions].
      by eapply dressTransactions_headers. }
    destruct (ListParams.DisableCounting _); [apply Hfin|].
    destruct (ge_int _ _); apply Hfin.
  - intros conns p tr addresses found Hload.
    rewrite ListAddresses_run, Hload.
    assert (Hfin : forall c s,
              (finishAddresses conns c addresses s).1 = Ok found ->
              length (AddressList.Addresses found) = length addresses
              /\ forall i a, addresses !! i = Some a ->
                   exists a',
                     AddressList.Addresses found !! i = Some a'
                     /\ sameAddress a a').
    { intros c s. unfold finishAddresses. destruct c as [c|e]; [|done].
      cbn [fst].
      destruct (dressAddresses conns "list_addresses" addresses s).1
        as [addrs'|e] eqn:Hdress; [|done].
      intros [= <-]. cbn [AddressList.Addresses].
      by eapply dressAddresses_sameAddress. }
    destruct (ListParams.DisableCounting _); [apply Hfin|].
    destruct (ge_int _ _); apply Hfin.
Qed.

Lemma list_pages_kept_witness :
  exists found,
    (ListTransactions noDistinct 1 2 asc oneEachConns
       {| obj := ascendingParams; trace := [] |}).1 = Ok found
    /\ length (TransactionList.Transactions found) = length [transaction "T"]
    /\ forall i tx, [transaction "T"] !! i = Some tx ->
         exists tx',
           TransactionList.Transactions found !! i = Some tx'
           /\ sameHeader tx tx'.
Proof.
  eexists. split; [vm_compute; reflexivity|].
  apply (proj1 list_pages_kept noDistinct 1 2 asc oneEachConns ascendingParams
           [] [transaction "T"]).
  - reflexivity.
  - vm_compute. reflexivity.
Defined.
